(** * Single-position H3N2 histogram renderer: data pipeline of [render_position]

    Shallow embedding of
    [render_single_position_histogram_adaptive_COLORLOCKED_v2.py].

    Modelling conventions.
    - Python [int] is [Z]; Python [float] quantities (proportions, inches)
      are exact rationals [Q], compared with [==].
    - Python [str] is [string], read as a sequence of ASCII characters.
    - A spreadsheet / JSON value is a tagged union ([pyval]): [None], the
      float [NaN], an integer or a string. Identifier and label cells
      holding other floats, dates or booleans are not modelled; in
      particular an integer column that pandas reads as float64 because
      one of its cells is blank (117 read as 117.0) is outside the model.
    - Python dicts are [gmap]s; an exception is a value of type [pyerr]
      carried by the [result] sum.
    - [render_position] returns the data it hands to the drawing calls
      ([Figure]); the drawing itself, letter colours and the output file
      are left out. *)

From Stdlib Require Import ZArith QArith String Ascii List Bool Lia Lqa.
From Stdlib Require Import Sorting.Sorted Sorting.Permutation.
From Stdlib Require Import Numbers.DecimalString.
From Stdlib Require Numbers.DecimalZ Numbers.DecimalPos.
From stdpp Require Import gmap strings list fin_maps.

Local Open Scope string_scope.
Local Open Scope Z_scope.

(* ===================================================================== *)
(** ** Python built-ins used by the renderer *)
(* ===================================================================== *)

Module Py.

(** Exceptions that can escape [render_position]. *)
Inductive pyerr :=
| ValueError (msg : string)
| TypeError
| KeyError.

Inductive result (A : Type) :=
| Ok (a : A)
| Raise (e : pyerr).
Arguments Ok {A} a.
Arguments Raise {A} e.

Definition bind {A B} (r : result A) (k : A -> result B) : result B :=
  match r with
  | Ok a => k a
  | Raise e => Raise e
  end.

(** Dynamically typed cell value (pandas cell, openpyxl cell value, JSON
    value). *)
Inductive pyval :=
| PNone
| PNaN
| PInt (z : Z)
| PStr (s : string).

(** [str.isspace] on one ASCII character: TAB, LF, VT, FF, CR, the
    separators FS, GS, RS, US and the space. *)
Definition isspace (c : ascii) : bool :=
  let n := N_of_ascii c in
  ((9 <=? n) && (n <=? 13) || (28 <=? n) && (n <=? 32))%N.

Fixpoint lstrip (s : string) : string :=
  match s with
  | EmptyString => EmptyString
  | String c r => if isspace c then lstrip r else s
  end.

Fixpoint rstrip (s : string) : string :=
  match s with
  | EmptyString => EmptyString
  | String c r =>
      match rstrip r with
      | EmptyString => if isspace c then EmptyString else String c EmptyString
      | r' => String c r'
      end
  end.

(** [s.strip()] *)
Definition strip (s : string) : string := rstrip (lstrip s).

Definition lower_char (c : ascii) : ascii :=
  let n := N_of_ascii c in
  if ((65 <=? n) && (n <=? 90))%N then ascii_of_N (n + 32) else c.

(** [s.lower()] *)
Fixpoint lower (s : string) : string :=
  match s with
  | EmptyString => EmptyString
  | String c r => String (lower_char c) (lower r)
  end.

Definition digit_of (c : ascii) : option Z :=
  let n := N_of_ascii c in
  if ((48 <=? n) && (n <=? 57))%N then Some (Z.of_N n - 48) else None.

(** Digits of an integer literal, single underscores allowed between
    digits; [prev] tells whether the previous character was a digit. *)
Fixpoint parse_digits (acc : Z) (prev : bool) (s : string) : option Z :=
  match s with
  | EmptyString => if prev then Some acc else None
  | String c r =>
      if Ascii.eqb c "_" then
        (if prev then parse_digits acc false r else None)
      else
        match digit_of c with
        | Some d => parse_digits (10 * acc + d) true r
        | None => None
        end
  end.

(** [int(s)] for a string: surrounding whitespace is ignored, one
    optional sign, decimal digits. [None] stands for [ValueError]. *)
Definition parse_int (s : string) : option Z :=
  match strip s with
  | String "-" r => option_map Z.opp (parse_digits 0 false r)
  | String "+" r => parse_digits 0 false r
  | r => parse_digits 0 false r
  end.

(** [int(v)] *)
Definition int (v : pyval) : result Z :=
  match v with
  | PNone => Raise TypeError
  | PNaN => Raise (ValueError "cannot convert float NaN to integer")
  | PInt z => Ok z
  | PStr s =>
      match parse_int s with
      | Some z => Ok z
      | None => Raise (ValueError "invalid literal for int() with base 10")
      end
  end.

Definition str_of_Z (z : Z) : string := NilZero.string_of_int (Z.to_int z).

(** [str(v)] *)
Definition str (v : pyval) : string :=
  match v with
  | PNone => "None"
  | PNaN => "nan"
  | PInt z => str_of_Z z
  | PStr s => s
  end.

(** [pd.isna(v)] *)
Definition isna (v : pyval) : bool :=
  match v with
  | PNone | PNaN => true
  | _ => false
  end.

(** Element-wise [==] of a pandas column against a scalar: a missing
    value equals nothing, not even itself. *)
Definition eqb (a b : pyval) : bool :=
  match a, b with
  | PInt x, PInt y => Z.eqb x y
  | PStr x, PStr y => String.eqb x y
  | _, _ => false
  end.

End Py.

Import Py.

(** [x ← r; k] runs [k] unless [r] raised. *)
#[global] Instance result_bind : MBind result := fun _ _ k r => bind r k.
#[global] Instance result_ret : MRet result := fun _ a => Ok a.

(* ===================================================================== *)
(** ** Locked constants *)
(* ===================================================================== *)

Definition CLUSTERS : list (string * Z * Z) :=
  [ ("HK68",1968,1972); ("EN72",1972,1975); ("VI75",1975,1977);
    ("TX77",1977,1979); ("BK79",1979,1987); ("SI87",1987,1989);
    ("BE89",1989,1992); ("BE92",1992,1995); ("WU95",1995,1997);
    ("SY97",1997,2002); ("FU02",2002,2004); ("CA04",2004,2005);
    ("WI05",2005,2009); ("PE09",2009,2012); ("TX12",2012,2014);
    ("HK14",2014,2015) ].

Definition CLUSTER_NAMES : list string := map (fun c => fst (fst c)) CLUSTERS.

Definition YEAR_MIN : Z := 1965.
Definition YEAR_MAX : Z := 2020.

(** Layout, in inches. *)
Definition HIST_H_IN : Q := 2.
Definition CLUSTER_H_IN : Q := 30 # 100.
Definition YEAR_H_IN : Q := 25 # 100.
Definition GAP_IN : Q := 10 # 100.
Definition TOP_PAD_IN : Q := 20 # 100.
Definition BOTTOM_PAD_IN : Q := 2 # 100.
Definition NEUT_ROW_H_IN : Q := (85 # 100) / 4.
Definition NO_MABS_H_IN : Q := NEUT_ROW_H_IN.

(* ===================================================================== *)
(** ** Input documents *)
(* ===================================================================== *)

(** One row of the histogram table. The integer-labelled columns of the
    table are kept apart from the three named ones; [YearCells] holds, per
    integer-labelled column, the cell after [pd.to_numeric(..., errors =
    "coerce")]: a number, or [None] for NaN. *)
Record HistRow := {
  Position : pyval;
  SetName : pyval;
  AminoAcid : pyval;
  YearCells : list (option Q)
}.

(** [int_columns] are the integer column labels, distinct as
    [pd.read_excel] makes them. *)
Record HistTable := {
  int_columns : list Z;
  hist_rows : list HistRow
}.

(** One record of the position -> antibody mapping document. *)
Record MapRec := {
  map_Position : pyval;
  map_mAbs : pyval
}.

(** One row of the mutation-annotation table. *)
Record MutRow := {
  MutationPosition : pyval;
  mAB_ID : pyval;
  VirusStrain : pyval;
  PointMutation : pyval
}.

(** Cell fill of the neutralization sheet. *)
Record Fill := {
  patternType : option string;
  fgColor_type : string;
  fgColor_rgb : string
}.

Record WsCell := {
  value : pyval;
  fill : option Fill
}.

(** A worksheet as its grid of rows; rows and columns are numbered
    from 1. *)
Definition Worksheet := list (list WsCell).

Definition empty_cell : WsCell := {| value := PNone; fill := None |}.

Definition max_row (ws : Worksheet) : nat := length ws.

Definition max_column (ws : Worksheet) : nat :=
  fold_right (fun r acc => Nat.max (length r) acc) 0%nat ws.

(** [ws.cell(r, c)] for 1-based [r] and [c]. *)
Definition ws_at (ws : Worksheet) (r c : nat) : WsCell :=
  nth (c - 1) (nth (r - 1) ws []) empty_cell.

(** [ws.cell(row, column)] as the library guards it: it evaluates
    [row < 1 or column < 1], which is a [TypeError] when [row] is [None],
    and raises [ValueError] below 1. *)
Definition ws_cell (ws : Worksheet) (row : option nat) (column : nat)
  : result WsCell :=
  match row with
  | None => Raise TypeError
  | Some r =>
      if ((r <? 1) || (column <? 1))%nat
      then Raise (ValueError "Row or column values must be at least 1")
      else Ok (ws_at ws r column)
  end.

(* ===================================================================== *)
(** ** Loading the position -> antibody mapping *)
(* ===================================================================== *)

(** [l.index(x)], [None] when [x] is absent. *)
Definition index_of {A} `{EqDecision A} (x : A) (l : list A) : option nat :=
  fst <$> list_find (fun y => y = x) l.

(** [x in l] for strings. *)
Definition str_in (x : string) (l : list string) : bool :=
  existsb (String.eqb x) l.

(** [s.split(sep)] for a one-character separator. *)
Fixpoint split_on (sep : ascii) (s : string) : list string :=
  match s with
  | EmptyString => [EmptyString]
  | String c r =>
      if Ascii.eqb c sep then EmptyString :: split_on sep r
      else match split_on sep r with
           | h :: t => String c h :: t
           | [] => [String c EmptyString]
           end
  end.

(** A list comprehension whose body may raise. *)
Fixpoint map_result {A B} (f : A -> result B) (l : list A) : result (list B) :=
  match l with
  | [] => Ok []
  | x :: r => y ← f x; ys ← map_result f r; Ok (y :: ys)
  end.

(** The value stored for one record, from [s = str(r["mAbs"]).strip()]. *)
Definition parse_mabs (s : string) : result (list Z) :=
  if str_in s [""; "nan"; "None"; "none"] then Ok []
  else map_result (fun x => int (PStr x))
         (List.filter (fun x => negb (String.eqb (strip x) "")) (split_on "," s)).

Fixpoint load_records (doc : list MapRec) (pos_to_mabs : gmap Z (list Z))
  : result (gmap Z (list Z)) :=
  match doc with
  | [] => Ok pos_to_mabs
  | r :: rest =>
      p ← int (map_Position r);
      l ← parse_mabs (strip (str (map_mAbs r)));
      load_records rest (<[p := l]> pos_to_mabs)
  end.

Definition load_position_mabs (mapping_list : list MapRec)
  : result (gmap Z (list Z)) :=
  load_records mapping_list ∅.

(* ===================================================================== *)
(** ** Amino-acid aggregator *)
(* ===================================================================== *)

(** [df[df["Position"] == position]] *)
Definition position_rows (position : Z) (df : HistTable) : list HistRow :=
  List.filter (fun r => Py.eqb (Position r) (PInt position)) (hist_rows df).

(** [sub[sub["SetName"] == sub["SetName"].iloc[0]]] *)
Definition first_set_rows (sub : list HistRow) : list HistRow :=
  match sub with
  | [] => []
  | r0 :: _ => List.filter (fun r => Py.eqb (SetName r) (SetName r0)) sub
  end.

Definition _coerce_aa (x : pyval) : string :=
  if isna x then "Other"
  else
    let s := strip (str x) in
    if String.eqb s "-" || str_in (lower s) ["nan"; "na"; "n/a"; "none"; ""]
    then "Other"
    else s.

(** A data frame of floats: row labels, column labels, one list of cells
    per row. *)
Record Matrix := {
  mat_index : list Z;
  mat_columns : list string;
  mat_values : list (list Q)
}.

(** [np.arange(YEAR_MIN, YEAR_MAX+1)] *)
Definition years : list Z := seqZ YEAR_MIN (YEAR_MAX + 1 - YEAR_MIN).

Definition yrs_use (df : HistTable) : list Z :=
  List.filter (fun c => (YEAR_MIN <=? c) && (c <=? YEAR_MAX)) (int_columns df).

(** Order of the key [(z == "Other", z)]. *)
Definition col_ltb (a b : string) : bool :=
  match String.eqb a "Other", String.eqb b "Other" with
  | false, true => true
  | true, false => false
  | _, _ => String.ltb a b
  end.

Fixpoint insert_col (x : string) (l : list string) : list string :=
  match l with
  | [] => [x]
  | y :: r =>
      if String.eqb x y then l
      else if col_ltb x y then x :: l
      else y :: insert_col x r
  end.

(** [sorted(set(aas), key=lambda z: (z == "Other", z))] *)
Definition sorted_set (aas : list string) : list string :=
  fold_right insert_col [] aas.

(** [rr[y]] after [pd.to_numeric(..., errors="coerce").fillna(0)]. *)
Definition year_value (df : HistTable) (rr : HistRow) (y : Z) : Q :=
  match index_of y (int_columns df) with
  | Some i => default 0%Q (nth i (YearCells rr) None)
  | None => 0%Q
  end.

(** [mat.loc[y, aa] += v] for the column at index [j]. *)
Definition add_cell (j : nat) (y : Z) (v : Q) (vals : list (list Q))
  : list (list Q) :=
  alter (alter (fun x => (x + v)%Q) j) (Z.to_nat (y - YEAR_MIN)) vals.

(** [mat.loc[yrs_use, aa] += values] *)
Definition add_row (df : HistTable) (cols : list string) (vals : list (list Q))
    (rr : HistRow) : list (list Q) :=
  match index_of (_coerce_aa (AminoAcid rr)) cols with
  | Some j =>
      fold_left (fun m y => add_cell j y (year_value df rr y) m) (yrs_use df) vals
  | None => vals
  end.

Definition zeros (cols : list string) : list (list Q) :=
  map (fun _ => map (fun _ => 0%Q) cols) years.

(** The year x label table before normalization. *)
Definition aggregate (df : HistTable) (sub : list HistRow) : Matrix :=
  let aas := map (fun r => _coerce_aa (AminoAcid r)) sub in
  let cols := sorted_set aas in
  {| mat_index := years;
     mat_columns := cols;
     mat_values := fold_left (add_row df cols) sub (zeros cols) |}.

Definition Qsum (l : list Q) : Q := fold_right Qplus 0%Q l.

(** The divisor of one row: its sum, with [rs[rs == 0] = 1.0]. Floats
    being read as exact rationals, the test is on the exact sum. On a row
    of non-negative cells that is the program's test, since a sum of
    non-negative floats is 0 only when every cell is 0; on a row of mixed
    signs whose exact sum is 0 the program divides by the rounding
    residue of its float sum instead, so the statements about the
    divisor are made for non-negative cells. *)
Definition row_divisor (row : list Q) : Q :=
  if Qeq_bool (Qsum row) 0 then 1%Q else Qsum row.

Definition normalize_row (row : list Q) : list Q :=
  map (fun x => (x / row_divisor row)%Q) row.

Definition safe_normalize (mat : Matrix) : Matrix :=
  {| mat_index := mat_index mat;
     mat_columns := mat_columns mat;
     mat_values := map normalize_row (mat_values mat) |}.

(** [mat[c]] *)
Definition column (mat : Matrix) (c : string) : list Q :=
  match index_of c (mat_columns mat) with
  | Some j => map (fun row => nth j row 0%Q) (mat_values mat)
  | None => []
  end.

(** [mat[c].mean()] *)
Definition col_mean (mat : Matrix) (c : string) : Q :=
  (Qsum (column mat c) / inject_Z (Z.of_nat (length (column mat c))))%Q.

Definition is_other (c : string) : bool := String.eqb (lower c) "other".

(** One step of a stable sort by descending key. *)
Fixpoint insert_desc (key : string -> Q) (x : string) (l : list string)
  : list string :=
  match l with
  | [] => [x]
  | y :: r => if Qle_bool (key y) (key x) then x :: l
              else y :: insert_desc key x r
  end.

(** [sorted(l, key=key, reverse=True)] *)
Definition sorted_desc (key : string -> Q) (l : list string) : list string :=
  fold_right (insert_desc key) [] l.

Definition aa_order (mat : Matrix) : list string :=
  let other := List.filter is_other (mat_columns mat) in
  let main := List.filter (fun c => negb (is_other c)) (mat_columns mat) in
  sorted_desc (col_mean mat) main ++ other.

(* ===================================================================== *)
(** ** Neutralization resolver *)
(* ===================================================================== *)

(** [s[-n:]] *)
Definition last_chars (n : nat) (s : string) : string :=
  substring (String.length s - n) n s.

Definition cell_hex (cell : WsCell) : string :=
  match fill cell with
  | Some f =>
      match patternType f with
      | Some p =>
          if negb (String.eqb p "") && String.eqb (fgColor_type f) "rgb"
          then "#" ++ last_chars 6 (fgColor_rgb f)
          else "white"
      | None => "white"
      end
  | None => "white"
  end.

(** [v in CLUSTER_NAMES] *)
Definition cluster_name_of (v : pyval) : option string :=
  match v with
  | PStr s => if str_in s CLUSTER_NAMES then Some s else None
  | _ => None
  end.

(** Header row 2 of the sheet: cluster name -> column. *)
Definition cluster_cols (ws : Worksheet) : gmap string nat :=
  fold_left
    (fun d c => match cluster_name_of (value (ws_at ws 2 c)) with
                | Some n => <[n := c]> d
                | None => d
                end)
    (seq 1 (max_column ws)) ∅.

(** The test of [find_row] on the identifier cell [v] of one row. *)
Definition id_matches (m : Z) (v : pyval) : bool :=
  match v with
  | PNone => false
  | _ => match int v with
         | Ok z => Z.abs z =? Z.abs m
         | Raise _ => false
         end
  end.

(** First row from row 3 on whose column B holds [m] up to sign. *)
Definition find_row (ws : Worksheet) (m : Z) : option nat :=
  List.find (fun rr => id_matches m (value (ws_at ws rr 2)))
            (seq 3 (max_row ws - 2)).

(** [cell_hex(ws.cell(rows[m], cluster_cols[c]))] *)
Definition face (ws : Worksheet) (cols : gmap string nat) (row : option nat)
    (c : string) : result string :=
  match cols !! c with
  | None => Raise KeyError
  | Some col => cell ← ws_cell ws row col; Ok (cell_hex cell)
  end.

Definition faces_of (ws : Worksheet) (mabs : list Z) : result (list (list string)) :=
  let cols := cluster_cols ws in
  map_result (fun m => map_result (face ws cols (find_row ws m)) CLUSTER_NAMES) mabs.

(** [next((mm for mm in mabs if abs(mm) == abs(m_parsed)), None)] *)
Definition match_mab (mabs : list Z) (m_parsed : Z) : option Z :=
  List.find (fun mm => Z.abs mm =? Z.abs m_parsed) mabs.

Fixpoint last_char (c : ascii) (s : string) : ascii :=
  match s with
  | EmptyString => c
  | String c' r => last_char c' r
  end.

(** What the annotation loop accumulates: [mutations] and
    [asterisk_mabs]. *)
Record Marks := {
  mutations : gmap Z (nat * ascii * ascii);
  asterisk_mabs : list Z
}.

Definition no_marks : Marks := {| mutations := ∅; asterisk_mabs := [] |}.

(** Body of the loop over the mutation-annotation rows. *)
Definition annotate (position : Z) (mabs : list Z) (st : Marks) (rr : MutRow)
  : result Marks :=
  p ← int (MutationPosition rr);
  if negb (p =? position) then Ok st
  else
    match parse_int (strip (str (mAB_ID rr))) with
    | None => Ok st
    | Some m_parsed =>
        match match_mab mabs m_parsed with
        | None => Ok st
        | Some m =>
            let strain := strip (str (VirusStrain rr)) in
            match strip (str (PointMutation rr)) with
            | EmptyString => Ok st
            | String wt rest =>
                let mut_aa := last_char wt rest in
                match index_of strain CLUSTER_NAMES with
                | None => Ok st
                | Some idx =>
                    if (idx =? length CLUSTER_NAMES - 1)%nat
                    then Ok {| mutations := mutations st;
                               asterisk_mabs := asterisk_mabs st ++ [m] |}
                    else Ok {| mutations := <[m := (idx, wt, mut_aa)]> (mutations st);
                               asterisk_mabs := asterisk_mabs st |}
                end
            end
        end
    end.

Fixpoint annotate_all (position : Z) (mabs : list Z) (st : Marks)
    (aa_df : list MutRow) : result Marks :=
  match aa_df with
  | [] => Ok st
  | rr :: rest => st' ← annotate position mabs st rr;
                  annotate_all position mabs st' rest
  end.

(* ===================================================================== *)
(** ** Layout and figure *)
(* ===================================================================== *)

Definition neut_h (mabs : list Z) : Q :=
  if (0 <? length mabs)%nat
  then (NEUT_ROW_H_IN * inject_Z (Z.of_nat (length mabs)))%Q
  else NO_MABS_H_IN.

Definition fig_h (mabs : list Z) : Q :=
  (HIST_H_IN + CLUSTER_H_IN + neut_h mabs + YEAR_H_IN + 3 * GAP_IN
   + TOP_PAD_IN + BOTTOM_PAD_IN)%Q.

(** One drawn row of the neutralization block. *)
Record NeutRow := {
  nr_label : string;
  nr_faces : list string;
  nr_letters : option (nat * ascii * ascii)
}.

Inductive NeutPanel :=
| Placeholder (text : string)
| NeutGrid (rows : list NeutRow).

Definition neut_row (st : Marks) (m : Z) (faces : list string) : NeutRow :=
  {| nr_label := "mAb " ++ str_of_Z m
                 ++ (if bool_decide (m ∈ asterisk_mabs st) then "*" else "");
     nr_faces := faces;
     nr_letters := mutations st !! m |}.

Definition neut_panel (mabs : list Z) (faces : list (list string)) (st : Marks)
  : NeutPanel :=
  if (length mabs =? 0)%nat then Placeholder "No associated mAbs"
  else NeutGrid (zip_with (neut_row st) mabs faces).

(** The data handed to the drawing calls. *)
Record Figure := {
  fig_title : string;
  fig_figsize_h : Q;
  fig_neut_h : Q;
  fig_mat : Matrix;
  fig_aa_order : list string;
  fig_legend : list string;
  fig_neut : NeutPanel
}.

Definition legend (mat : Matrix) (order : list string) : list string :=
  List.filter (fun a => negb (Qle_bool (Qsum (column mat a)) 0)) order.

(** The error raised when no histogram row has the position. *)
Definition no_data_error (position : Z) : pyerr :=
  ValueError ("No histogram data found for position " ++ str_of_Z position).

Definition render_position (position : Z) (hist : HistTable) (neut : Worksheet)
    (aa_df : list MutRow) (mapping : list MapRec) : result Figure :=
  pos_to_mabs ← load_position_mabs mapping;
  let mabs := default [] (pos_to_mabs !! position) in
  let sub := position_rows position hist in
  match sub with
  | [] => Raise (no_data_error position)
  | _ :: _ =>
      let sub := first_set_rows sub in
      let mat := safe_normalize (aggregate hist sub) in
      let order := aa_order mat in
      resolved ← (if (0 <? length mabs)%nat
                  then faces ← faces_of neut mabs;
                       st ← annotate_all position mabs no_marks aa_df;
                       Ok (faces, st)
                  else Ok ([], no_marks));
      Ok {| fig_title := str_of_Z position;
            fig_figsize_h := fig_h mabs;
            fig_neut_h := neut_h mabs;
            fig_mat := mat;
            fig_aa_order := order;
            fig_legend := legend mat order;
            fig_neut := neut_panel mabs (fst resolved) (snd resolved) |}
  end.

(* ===================================================================== *)
(** ** Predicates used in the statements *)
(* ===================================================================== *)

(** The record that maps [position] to no antibody. *)
Definition empty_record (position : Z) : MapRec :=
  {| map_Position := PInt position; map_mAbs := PStr "" |}.

(** [a] may stand before [b] in a descending order by [key]. *)
Definition desc (key : string -> Q) (a b : string) : Prop := (key b <= key a)%Q.

(** "Other" occurs at most as the last element. *)
Fixpoint other_last (l : list string) : Prop :=
  match l with
  | [] => True
  | y :: r => (y = "Other" -> r = []) /\ other_last r
  end.

(** Every numeric year cell of the rows is non-negative, as a proportion
    is. *)
Definition nonneg_cells (sub : list HistRow) : Prop :=
  forall rr q, In rr sub -> In (Some q) (YearCells rr) -> (0 <= q)%Q.

Definition nonneg_matrix (vals : list (list Q)) : Prop :=
  Forall (Forall (Qle 0%Q)) vals.

(** The cell value [v] converts to an integer with the absolute value
    of [m]. *)
Definition same_id (m : Z) (v : pyval) : Prop :=
  exists z, int v = Ok z /\ Z.abs z = Z.abs m.

(** The errors [int] can raise. *)
Definition int_error (e : pyerr) : Prop :=
  e = TypeError
  \/ e = ValueError "cannot convert float NaN to integer"
  \/ e = ValueError "invalid literal for int() with base 10".

(** The errors the face extraction can raise. *)
Definition sheet_error (e : pyerr) : Prop :=
  e = KeyError
  \/ e = TypeError
  \/ e = ValueError "Row or column values must be at least 1".

(* ===================================================================== *)
(** ** Proof tools *)
(* ===================================================================== *)

(** Expose the [match] behind every [x ← r; k]. *)
Ltac unfold_result := unfold mbind, result_bind in *.

(* ===================================================================== *)
(** ** Further predicates on strings *)
(* ===================================================================== *)

(** No character of [s] is white space. *)
Fixpoint no_space (s : string) : bool :=
  match s with
  | EmptyString => true
  | String c r => negb (isspace c) && no_space r
  end.

(* ===================================================================== *)
(** ** Predicates on the resolver's results *)
(* ===================================================================== *)

(** Marks that only name antibodies of the position, with every
    positioned mutation at a cluster that has a successor. *)
Definition marks_in_range (mabs : list Z) (st : Marks) : Prop :=
  (forall m idx wt mut_aa,
      mutations st !! m = Some (idx, wt, mut_aa) ->
      In m mabs /\ (idx + 1 < length CLUSTERS)%nat)
  /\ (forall m, In m (asterisk_mabs st) -> In m mabs).

(** The header row names every cluster. *)
Definition header_complete (ws : Worksheet) : Prop :=
  forall c, In c CLUSTER_NAMES -> is_Some (cluster_cols ws !! c).

(** Every antibody of the list has a row in the sheet. *)
Definition all_listed (ws : Worksheet) (mabs : list Z) : Prop :=
  forall m, In m mabs -> is_Some (find_row ws m).

(** Every annotation row has a position cell that [int] accepts. *)
Definition positions_convert (aa_df : list MutRow) : Prop :=
  forall rr, In rr aa_df -> exists p, int (MutationPosition rr) = Ok p.

(* ===================================================================== *)
(** ** Letter colour *)
(* ===================================================================== *)

Definition hex_digit_of (c : ascii) : option Z :=
  let n := N_of_ascii c in
  if ((48 <=? n) && (n <=? 57))%N then Some (Z.of_N n - 48)
  else if ((97 <=? n) && (n <=? 102))%N then Some (Z.of_N n - 87)
  else if ((65 <=? n) && (n <=? 70))%N then Some (Z.of_N n - 55)
  else None.

(** Digits of a base-16 literal, with the underscore rule of
    [parse_digits]. *)
Fixpoint parse_hex_digits (acc : Z) (prev : bool) (s : string) : option Z :=
  match s with
  | EmptyString => if prev then Some acc else None
  | String c r =>
      if Ascii.eqb c "_" then
        (if prev then parse_hex_digits acc false r else None)
      else
        match hex_digit_of c with
        | Some d => parse_hex_digits (16 * acc + d) true r
        | None => None
        end
  end.

(** The optional prefix [0x] or [0X] of a base-16 literal, which one
    underscore may follow. *)
Definition strip_0x (r : string) : string :=
  match r with
  | String z (String x r') =>
      if Ascii.eqb z "0" && (Ascii.eqb x "x" || Ascii.eqb x "X")
      then match r' with
           | String u r'' => if Ascii.eqb u "_" then r'' else r'
           | EmptyString => r'
           end
      else r
  | _ => r
  end.

(** [int(s, 16)] for a string; [None] stands for [ValueError]. *)
Definition parse_int16 (s : string) : option Z :=
  match strip s with
  | EmptyString => None
  | String c r =>
      if Ascii.eqb c "-"
      then option_map Z.opp (parse_hex_digits 0 false (strip_0x r))
      else if Ascii.eqb c "+" then parse_hex_digits 0 false (strip_0x r)
      else parse_hex_digits 0 false (strip_0x (String c r))
  end.

Definition int16 (s : string) : result Z :=
  match parse_int16 s with
  | Some z => Ok z
  | None => Raise (ValueError "invalid literal for int() with base 16")
  end.

(** [s[i:j]] for [0 <= i <= j]. *)
Definition slice (i j : nat) (s : string) : string := substring i (j - i) s.

Definition text_color (bg_hex : string) : result string :=
  if String.eqb bg_hex "white" then Ok "black"
  else
    r ← int16 (slice 1 3 bg_hex);
    g ← int16 (slice 3 5 bg_hex);
    b ← int16 (slice 5 7 bg_hex);
    Ok (if Qle_bool 128 (inject_Z (r + g + b) / 3) then "black" else "white").

(** A fill that [cell_hex] recognises, with its ARGB text. *)
Definition solid_rgb (cell : WsCell) (rgb : string) : Prop :=
  exists f p,
    fill cell = Some f /\ patternType f = Some p /\ p <> EmptyString
    /\ fgColor_type f = "rgb" /\ fgColor_rgb f = rgb.

(** Six hexadecimal digits with their values. *)
Definition hex6 (s : string) (d1 d2 d3 d4 d5 d6 : Z) : Prop :=
  exists c1 c2 c3 c4 c5 c6,
    s = String c1 (String c2 (String c3 (String c4 (String c5 (String c6
          EmptyString)))))
    /\ hex_digit_of c1 = Some d1 /\ hex_digit_of c2 = Some d2
    /\ hex_digit_of c3 = Some d3 /\ hex_digit_of c4 = Some d4
    /\ hex_digit_of c5 = Some d5 /\ hex_digit_of c6 = Some d6.

(* ===================================================================== *)
(** ** Drawing the neutralization grid *)
(* ===================================================================== *)

(** Outcome of a drawing step: a value, an [IndexError] from a list
    subscript out of range, or another exception. *)
Inductive drawn (A : Type) :=
| Drawn (a : A)
| IndexError
| Failed (e : pyerr).
Arguments Drawn {A} a.
Arguments IndexError {A}.
Arguments Failed {A} e.

#[global] Instance drawn_bind : MBind drawn := fun _ _ k d =>
  match d with
  | Drawn a => k a
  | IndexError => IndexError
  | Failed e => Failed e
  end.

(** [l[i]] for [i >= 0]. *)
Definition at_index {A} (l : list A) (i : nat) : drawn A :=
  match l !! i with
  | Some x => Drawn x
  | None => IndexError
  end.

Definition lift_result {A} (r : result A) : drawn A :=
  match r with
  | Ok a => Drawn a
  | Raise e => Failed e
  end.

Fixpoint map_drawn {A B} (f : A -> drawn B) (l : list A) : drawn (list B) :=
  match l with
  | [] => Drawn []
  | x :: r => y ← f x; ys ← map_drawn f r; Drawn (y :: ys)
  end.

(** [enumerate(l)] *)
Definition enumerate {A} (l : list A) : list (nat * A) :=
  combine (seq 0 (length l)) l.

(** A rectangle patch and a text, as handed to the axes. *)
Record Patch := {
  patch_x : Q;
  patch_y : Q;
  patch_w : Q;
  patch_h : Q;
  patch_face : string
}.

Record Text := {
  text_x : Q;
  text_y : Q;
  text_s : string;
  text_colour : option string
}.

Definition xlim : Q * Q :=
  ((inject_Z YEAR_MIN - (1 # 2))%Q, (inject_Z YEAR_MAX + (1 # 2))%Q).

(** Left and right edge of a cluster's cell: [s - 0.5] and [e - 0.5]. *)
Definition cluster_start (c : string * Z * Z) : Q :=
  (inject_Z (snd (fst c)) - (1 # 2))%Q.
Definition cluster_end (c : string * Z * Z) : Q :=
  (inject_Z (snd c) - (1 # 2))%Q.

(** [CLUSTERS[0][1]-0.5] and [CLUSTERS[-1][2]-0.5] *)
Definition x_left : Q := default 0%Q (cluster_start <$> head CLUSTERS).
Definition x_right : Q := default 0%Q (cluster_end <$> last CLUSTERS).

(** [0.2*(xlim[1]-xlim[0])/(hist_w*8.0)] with [hist_w = 0.72]. *)
Definition dx : Q := ((2 # 10) * (snd xlim - fst xlim) / ((72 # 100) * 8))%Q.

Definition char_text (x y : Q) (c : ascii) (colour : string) : Text :=
  {| text_x := x; text_y := y; text_s := String c EmptyString;
     text_colour := Some colour |}.

(** Body of the loop over the clusters for antibody [m] in row [i]. *)
Definition draw_cell (faces : list (list string)) (st : Marks) (i : nat)
    (yrow : Q) (m : Z) (jc : nat * (string * Z * Z))
  : drawn (Patch * list Text) :=
  let j := fst jc in
  let s := cluster_start (snd jc) in
  let e := cluster_end (snd jc) in
  row ← at_index faces i;
  bg ← at_index row j;
  let patch := {| patch_x := s; patch_y := yrow; patch_w := (e - s)%Q;
                  patch_h := 1%Q; patch_face := bg |} in
  match mutations st !! m with
  | Some (idx, wt, mut_aa) =>
      if (idx =? j)%nat then
        colour ← lift_result (text_color bg);
        next ← at_index CLUSTERS (j + 1);
        row2 ← at_index faces i;
        bg2 ← at_index row2 (j + 1);
        colour2 ← lift_result (text_color bg2);
        Drawn (patch,
               [ char_text ((s + e) / 2) (yrow + (1 # 2))%Q wt colour;
                 char_text ((cluster_start next + cluster_end next) / 2)
                           (yrow + (1 # 2))%Q mut_aa colour2 ])
      else Drawn (patch, [])
  | None => Drawn (patch, [])
  end.

(** One antibody: its sixteen cells, then its label left of the grid. *)
Definition draw_row (mabs : list Z) (faces : list (list string)) (st : Marks)
    (im : nat * Z) : drawn (list (Patch * list Text) * Text) :=
  let i := fst im in
  let m := snd im in
  let yrow := inject_Z (Z.of_nat (length mabs) - 1 - Z.of_nat i) in
  cells ← map_drawn (draw_cell faces st i yrow m) (enumerate CLUSTERS);
  Drawn (cells,
         {| text_x := (x_left - dx)%Q; text_y := (yrow + (1 # 2))%Q;
            text_s := "mAb " ++ str_of_Z m
                      ++ (if bool_decide (m ∈ asterisk_mabs st) then "*" else "");
            text_colour := None |}).

(** The branch [len(mabs) > 0] of the neutralization panel. *)
Definition draw_grid (mabs : list Z) (faces : list (list string)) (st : Marks)
  : drawn (list (list (Patch * list Text) * Text)) :=
  map_drawn (draw_row mabs faces st) (enumerate mabs).

(** Every colour of the grid is one [text_color] accepts. *)
Definition colours_readable (faces : list (list string)) : Prop :=
  forall row bg, In row faces -> In bg row -> exists c, text_color bg = Ok c.

(* ===================================================================== *)
(** ** Panel placement *)
(* ===================================================================== *)

(** An axes rectangle [left, bottom, width, height] in figure fractions. *)
Record Rect := {
  r_left : Q;
  r_bottom : Q;
  r_width : Q;
  r_height : Q
}.

Definition r_top (r : Rect) : Q := (r_bottom r + r_height r)%Q.
Definition r_right (r : Rect) : Q := (r_left r + r_width r)%Q.

Record Axes := {
  ax_hist : Rect;
  ax_leg : Rect;
  ax_cluster : Rect;
  ax_neut : Rect;
  ax_year : Rect
}.

Definition left : Q := 8 # 100.
Definition hist_w : Q := 72 # 100.
Definition legend_left : Q := (left + hist_w + (2 # 100))%Q.
Definition legend_w : Q := ((98 # 100) - legend_left)%Q.

(** [hrel] and [ytop] for a figure of height [H]. *)
Definition hrel (H h : Q) : Q := (h / H)%Q.
Definition ytop (H y h : Q) : Q := (1 - (y + h) / H)%Q.

(** The five [fig.add_axes] calls, top-down. *)
Definition place_axes (mabs : list Z) : Axes :=
  let H := fig_h mabs in
  let nh := neut_h mabs in
  let y0 := TOP_PAD_IN in
  let y1 := (y0 + (HIST_H_IN + GAP_IN))%Q in
  let y2 := (y1 + (CLUSTER_H_IN + GAP_IN))%Q in
  let y3 := (y2 + (nh + GAP_IN))%Q in
  {| ax_hist := {| r_left := left; r_bottom := ytop H y0 HIST_H_IN;
                   r_width := hist_w; r_height := hrel H HIST_H_IN |};
     ax_leg := {| r_left := legend_left; r_bottom := ytop H y0 HIST_H_IN;
                  r_width := legend_w; r_height := hrel H HIST_H_IN |};
     ax_cluster := {| r_left := left; r_bottom := ytop H y1 CLUSTER_H_IN;
                      r_width := hist_w; r_height := hrel H CLUSTER_H_IN |};
     ax_neut := {| r_left := left; r_bottom := ytop H y2 nh;
                   r_width := hist_w; r_height := hrel H nh |};
     ax_year := {| r_left := left; r_bottom := ytop H y3 YEAR_H_IN;
                   r_width := hist_w; r_height := hrel H YEAR_H_IN |} |}.

(* ===================================================================== *)
(** ** Predicates on the aggregate *)
(* ===================================================================== *)

(** The column order as a relation. *)
Definition col_lt (a b : string) : Prop := col_ltb a b = true.

(** The rows of [sub] whose coerced label is [c]. *)
Definition rows_of_label (c : string) (sub : list HistRow) : list HistRow :=
  List.filter (fun rr => String.eqb (_coerce_aa (AminoAcid rr)) c) sub.

(** The cell of row [i] and column [j], when both exist. *)
Definition cell_at (vals : list (list Q)) (i j : nat) : option Q :=
  match vals !! i with
  | Some row => row !! j
  | None => None
  end.

(** Membership in a list is decidable when equality is. *)
#[global] Instance In_decision {A} `{EqDecision A} (x : A) (l : list A)
  : Decision (In x l) := in_dec (fun a b => decide (a = b)) x l.

(** What one row adds to the cell of year index [i'] and column [j']. *)
Definition contribution (df : HistTable) (cols : list string) (i' j' : nat)
    (rr : HistRow) : Q :=
  if decide (index_of (_coerce_aa (AminoAcid rr)) cols = Some j'
             /\ In (YEAR_MIN + Z.of_nat i')%Z (yrs_use df))
  then year_value df rr (YEAR_MIN + Z.of_nat i')%Z else 0%Q.


(* ===================================================================== *)
(** ** Predicates on characters of a text *)
(* ===================================================================== *)

Fixpoint all_chars (p : ascii -> bool) (s : string) : bool :=
  match s with
  | EmptyString => true
  | String c r => p c && all_chars p r
  end.

(** A decimal digit or the minus sign. *)
Definition id_char (c : ascii) : bool :=
  let n := N_of_ascii c in
  ((48 <=? n) && (n <=? 57))%N || Ascii.eqb c "-".

(** The last character exists and is not white space. *)
Fixpoint last_nonspace (s : string) : bool :=
  match s with
  | EmptyString => false
  | String c EmptyString => negb (isspace c)
  | String _ r => last_nonspace r
  end.
(* ===================================================================== *)
(** ** Drawing the stacked histogram *)
(* ===================================================================== *)

(** [mat[c]] with its [KeyError] for a label that is no column. *)
Definition getcol (mat : Matrix) (c : string) : result (list Q) :=
  match index_of c (mat_columns mat) with
  | Some _ => Ok (column mat c)
  | None => Raise KeyError
  end.

(** [cum += arr] on one-dimensional arrays: element by element when the
    lengths agree, [arr] broadcast when it has one element, and a
    [ValueError] otherwise. *)
Definition np_iadd (cum arr : list Q) : result (list Q) :=
  if (length arr =? length cum)%nat then Ok (zip_with Qplus cum arr)
  else match arr with
       | [x] => Ok (map (fun c => (c + x)%Q) cum)
       | _ => Raise (ValueError "operands could not be broadcast together")
       end.

(** One [ax_hist.bar] call: the label and, year by year, the bottom and
    the height of its bars. *)
Record Bar := {
  bar_label : string;
  bar_bottom : list Q;
  bar_height : list Q
}.

(** The loop over [aa_order], from the running total [cum]. *)
Fixpoint histogram_bars (mat : Matrix) (order : list string) (cum : list Q)
  : result (list Bar * list Q) :=
  match order with
  | [] => Ok ([], cum)
  | aa :: rest =>
      h ← getcol mat aa;
      cum' ← np_iadd cum h;
      r ← histogram_bars mat rest cum';
      Ok ({| bar_label := aa; bar_bottom := cum; bar_height := h |} :: fst r,
          snd r)
  end.

(** The histogram panel: the bars and the final total per year, from
    [cum = np.zeros(len(years))]. *)
Definition histogram (mat : Matrix) : result (list Bar * list Q) :=
  histogram_bars mat (aa_order mat) (map (fun _ => 0%Q) years).

(** The entry of [row] in the column of label [aa]. *)
Definition entry (cols : list string) (row : list Q) (aa : string) : Q :=
  nth (default 0%nat (index_of aa cols)) row 0%Q.

(** Every bar stays inside the y-range [0, 1] of the panel. *)
Definition bar_in_range (b : Bar) : Prop :=
  List.Forall2 (fun bot h => 0 <= bot /\ 0 <= h /\ bot + h <= 1)%Q
    (bar_bottom b) (bar_height b).
(* ===================================================================== *)
(** ** The deck builder (build_histogram_ha_deck_ORDERED_ALIGNED.py) *)
(* ===================================================================== *)

Module Deck.

(** [\d] on one ASCII character. *)
Definition isdigit (c : ascii) : bool :=
  match digit_of c with
  | Some _ => true
  | None => false
  end.

(** Greedy [\d{0,n}] at the head of [s]: the digits it takes. *)
Fixpoint take_digits (n : nat) (s : string) : string :=
  match n, s with
  | S n', String c r =>
      if isdigit c then String c (take_digits n' r) else EmptyString
  | _, _ => EmptyString
  end.

(** The pattern [-?\d{1,3}] anchored at the head of [s]. After a hyphen
    that no digit follows the matcher backtracks to the empty option,
    where [\d] meets the hyphen and fails. *)
Definition match_here (s : string) : option string :=
  match s with
  | EmptyString => None
  | String c r =>
      if Ascii.eqb c "-" then
        match take_digits 3 r with
        | EmptyString => None
        | ds => Some (String c ds)
        end
      else
        match take_digits 3 s with
        | EmptyString => None
        | ds => Some ds
        end
  end.

(** [re.search]: the match at the leftmost position that has one. *)
Fixpoint re_search (s : string) : option string :=
  match match_here s with
  | Some m => Some m
  | None =>
      match s with
      | EmptyString => None
      | String _ r => re_search r
      end
  end.

Definition extract_pos (name : string) : result (option Z) :=
  match re_search name with
  | None => Ok None
  | Some m => z ← int (PStr m); Ok (Some (Z.abs z))
  end.

(** A path, as its directory and its final component [pth.name]. *)
Record Path := {
  parent : string;
  name : string
}.

(** [png_dir / f"{pos}.png"] *)
Definition out_png (png_dir : string) (pos : Z) : Path :=
  {| parent := png_dir; name := str_of_Z pos ++ ".png" |}.

(** The loop of [convert_svgs_to_pngs] over the paths that
    [svg_root.rglob("*.svg")] yields, in its order. *)
Fixpoint convert_loop (png_dir : string) (files : list Path)
    (out : gmap Z Path) : result (gmap Z Path) :=
  match files with
  | [] => Ok out
  | pth :: rest =>
      pos ← extract_pos (name pth);
      match pos with
      | None => convert_loop png_dir rest out
      | Some p => convert_loop png_dir rest (<[p := out_png png_dir p]> out)
      end
  end.

Definition convert_svgs_to_pngs (svgs : list Path) (png_dir : string)
  : result (gmap Z Path) :=
  convert_loop png_dir svgs ∅.

Definition priority : list string := ["purple"; "red"; "blue"; "green"].

(** [key in s] *)
Fixpoint contains (key s : string) : bool :=
  String.prefix key s
  || match s with
     | EmptyString => false
     | String _ r => contains key r
     end.

(** The loop over [enumerate(priority)] from index [i]; 100 when no key
    occurs. *)
Fixpoint first_key (i : nat) (keys : list string) (s : string) : nat :=
  match keys with
  | [] => 100
  | key :: rest => if contains key s then i else first_key (S i) rest s
  end.

Definition score (pth : Path) : nat := first_key 0 priority (lower (name pth)).

(** The first loop of [choose_ha_pngs]:
    [candidates.setdefault(pos, []).append((score, pth))]. *)
Fixpoint candidates_loop (files : list Path)
    (candidates : gmap Z (list (nat * Path)))
  : result (gmap Z (list (nat * Path))) :=
  match files with
  | [] => Ok candidates
  | pth :: rest =>
      pos ← extract_pos (name pth);
      match pos with
      | None => candidates_loop rest candidates
      | Some p =>
          candidates_loop rest
            (<[p := (default [] (candidates !! p) ++ [(score pth, pth)])%list]>
               candidates)
      end
  end.

(** [sorted(lst, key=lambda x: x[0])]: a stable sort. *)
Fixpoint insert_by_score (x : nat * Path) (l : list (nat * Path))
  : list (nat * Path) :=
  match l with
  | [] => [x]
  | y :: r =>
      if (fst x <=? fst y)%nat then x :: l else y :: insert_by_score x r
  end.

Definition sorted_by_score (lst : list (nat * Path)) : list (nat * Path) :=
  fold_right insert_by_score [] lst.

(** [sorted(lst, key=...)[0][1]] *)
Definition best (entry : Z * list (nat * Path)) : drawn (Z * Path) :=
  x ← at_index (sorted_by_score (snd entry)) 0;
  Drawn (fst entry, snd x).

(** The paths that [ha_root.rglob("*.png")] yields, in its order, to the
    dictionary of the chosen picture per position. *)
Definition choose_ha_pngs (files : list Path) : drawn (gmap Z Path) :=
  candidates ← lift_result (candidates_loop files ∅);
  entries ← map_drawn best (map_to_list candidates);
  Drawn (list_to_map entries).

(** [sorted(..., reverse=True)] on integers. *)
Fixpoint insert_rev (x : Z) (l : list Z) : list Z :=
  match l with
  | [] => [x]
  | y :: r => if y <=? x then x :: l else y :: insert_rev x r
  end.

Definition sorted_rev (l : list Z) : list Z := fold_right insert_rev [] l.

Definition positions (hist_pngs ha_pngs : gmap Z Path) : list Z :=
  sorted_rev (elements (dom hist_pngs ∩ dom ha_pngs)).

(** One slide: its position, the histogram picture on the left and the
    HA-head picture on the right. *)
Record Slide := {
  slide_pos : Z;
  pic_hist : Path;
  pic_ha : Path
}.

(** [d[k]] *)
Definition getitem (d : gmap Z Path) (k : Z) : result Path :=
  match d !! k with
  | Some v => Ok v
  | None => Raise KeyError
  end.

Definition build_deck (hist_pngs ha_pngs : gmap Z Path) : result (list Slide) :=
  map_result
    (fun pos =>
       h ← getitem hist_pngs pos;
       a ← getitem ha_pngs pos;
       Ok {| slide_pos := pos; pic_hist := h; pic_ha := a |})
    (positions hist_pngs ha_pngs).

(** [main], from the paths the two [rglob] calls yield. *)
Definition main (hist_files ha_files : list Path) (hist_png_dir : string)
  : drawn (list Slide) :=
  hist_pngs ← lift_result (convert_svgs_to_pngs hist_files hist_png_dir);
  ha_pngs ← choose_ha_pngs ha_files;
  lift_result (build_deck hist_pngs ha_pngs).

(** No character of [s] is a digit. *)
Definition digit_free (s : string) : bool :=
  all_chars (fun c => negb (isdigit c)) s.

(** [s] is empty or starts with a character that is no digit. *)
Definition stops_digits (s : string) : bool :=
  match s with
  | EmptyString => true
  | String c _ => negb (isdigit c)
  end.

(** The value of a run of digits read after [acc]. *)
Fixpoint digits_value (acc : Z) (s : string) : Z :=
  match s with
  | EmptyString => acc
  | String c r => digits_value (10 * acc + default 0 (digit_of c)) r
  end.

(** [pth.name] gives position [pos]. *)
Definition has_pos (pos : Z) (pth : Path) : bool :=
  match extract_pos (name pth) with
  | Ok (Some p) => p =? pos
  | _ => false
  end.

(** The files of position [pos], in their order, and a file with its
    score. *)
Definition hits (pos : Z) (files : list Path) : list Path :=
  List.filter (has_pos pos) files.
Definition tag (pth : Path) : nat * Path := (score pth, pth).

(** The path that [sorted(lst, key=...)[0][1]] selects, when [lst] is not
    empty. *)
Definition pick (lst : list (nat * Path)) : option Path :=
  snd <$> head (sorted_by_score lst).

(** [pth] is the pick among [files] for [pos]: it has position [pos], no
    file of that position scores lower, and those before it score
    higher. *)
Definition first_best (files : list Path) (pos : Z) (pth : Path) : Prop :=
  exists before after,
    files = (before ++ pth :: after)%list
    /\ extract_pos (name pth) = Ok (Some pos)
    /\ (forall y, In y before -> extract_pos (name y) = Ok (Some pos) ->
          (score pth < score y)%nat)
    /\ (forall y, In y after -> extract_pos (name y) = Ok (Some pos) ->
          (score pth <= score y)%nat).

(** The decimal text of [p] is one to three digits that spell [p], three
    of them from 100 on. *)
Definition decimal_ok (p : Z) : bool :=
  let s := str_of_Z p in
  all_chars isdigit s && (String.length s <=? 3)%nat
  && (digits_value 0 s =? p) && negb (String.eqb s EmptyString)
  && ((p <? 100) || (String.length s =? 3)%nat).

End Deck.

(* ===================================================================== *)
(** ** Sample documents *)
(* ===================================================================== *)

Module Sample.

(** Histogram for position 160, set S1: year 2000 has A = 0.6 and
    B = 0.4, year 2001 has A = 1.0. A second set S2 follows. *)
Definition row_A : HistRow :=
  {| Position := PInt 160; SetName := PStr "S1"; AminoAcid := PStr "A";
     YearCells := [Some (6 # 10); Some 1%Q] |}.
Definition row_B : HistRow :=
  {| Position := PInt 160; SetName := PStr "S1"; AminoAcid := PStr "B";
     YearCells := [Some (4 # 10); None] |}.
Definition row_S2 : HistRow :=
  {| Position := PInt 160; SetName := PStr "S2"; AminoAcid := PStr "K";
     YearCells := [Some 5%Q; Some 5%Q] |}.
Definition row_145 : HistRow :=
  {| Position := PInt 145; SetName := PStr "S1"; AminoAcid := PStr "N";
     YearCells := [Some 1%Q; Some 1%Q] |}.

Definition hist : HistTable :=
  {| int_columns := [2000; 2001];
     hist_rows := [row_145; row_A; row_S2; row_B] |}.

(** Labels that differ from "Other" by letter case only. *)
Definition row_upper : HistRow :=
  {| Position := PInt 7; SetName := PStr "S1"; AminoAcid := PStr "OTHER";
     YearCells := [Some (1 # 10); Some (1 # 10)] |}.
Definition row_lower : HistRow :=
  {| Position := PInt 7; SetName := PStr "S1"; AminoAcid := PStr "other";
     YearCells := [Some (3 # 10); Some (3 # 10)] |}.
Definition row_dash : HistRow :=
  {| Position := PInt 7; SetName := PStr "S1"; AminoAcid := PStr "-";
     YearCells := [Some (6 # 10); Some (6 # 10)] |}.

Definition hist_case : HistTable :=
  {| int_columns := [2000; 2001];
     hist_rows := [row_upper; row_lower; row_dash] |}.

(** Neutralization sheet: row 2 holds the cluster headers from column C
    on, column B the antibody identifiers from row 3 on. *)
Definition plain (v : pyval) : WsCell := {| value := v; fill := None |}.
Definition shaded (rgb : string) : WsCell :=
  {| value := PNone;
     fill := Some {| patternType := Some "solid"; fgColor_type := "rgb";
                     fgColor_rgb := rgb |} |}.

Definition header : list WsCell :=
  plain PNone :: plain (PStr "mAb") :: map (fun n => plain (PStr n)) CLUSTER_NAMES.

Definition sheet_row (id : pyval) (rgb : string) : list WsCell :=
  plain PNone :: plain id :: map (fun _ => shaded rgb) CLUSTER_NAMES.

Definition sheet : Worksheet :=
  [ [plain (PStr "Neutralization")];
    header;
    sheet_row (PInt 225) "FF112233";
    sheet_row (PStr "-117") "FFFFE0E0" ].

Definition mapping : list MapRec :=
  [ {| map_Position := PInt 160; map_mAbs := PStr "117, 225" |};
    {| map_Position := PInt 145; map_mAbs := PStr "" |} ].

(** The same mapping with the sign of antibody 117 flipped. *)
Definition mapping_neg : list MapRec :=
  [ {| map_Position := PInt 160; map_mAbs := PStr "-117, 225" |};
    {| map_Position := PInt 145; map_mAbs := PStr "" |} ].

(** A mapping naming an antibody the sheet does not list. *)
Definition mapping_unlisted : list MapRec :=
  [ {| map_Position := PInt 160; map_mAbs := PStr "999" |} ].

Definition mut_mid : MutRow :=
  {| MutationPosition := PInt 160; mAB_ID := PInt 117;
     VirusStrain := PStr "BE92"; PointMutation := PStr "K160T" |}.
Definition mut_last : MutRow :=
  {| MutationPosition := PInt 160; mAB_ID := PInt 225;
     VirusStrain := PStr "HK14"; PointMutation := PStr "N160S" |}.
(** Final-cluster row whose point-mutation cell holds one space. *)
Definition mut_blank : MutRow :=
  {| MutationPosition := PInt 160; mAB_ID := PInt 225;
     VirusStrain := PStr "HK14"; PointMutation := PStr " " |}.
Definition mut_bad_id : MutRow :=
  {| MutationPosition := PInt 160; mAB_ID := PStr "n.d.";
     VirusStrain := PStr "BE92"; PointMutation := PStr "K160T" |}.

Definition aa_df : list MutRow := [mut_mid; mut_last].

End Sample.
(* ===================================================================== *)
(** ** Further sample documents *)
(* ===================================================================== *)

Module SampleMore.
(** Two records for position 160: the later one names antibody 225. *)
Definition mapping_twice : list MapRec :=
  [ {| map_Position := PInt 160; map_mAbs := PStr "117" |};
    {| map_Position := PStr "160"; map_mAbs := PInt 225 |} ].

(** A semicolon where the comma belongs, in the record of position 160. *)
Definition mapping_malformed : list MapRec :=
  [ {| map_Position := PInt 145; map_mAbs := PStr "" |};
    {| map_Position := PInt 160; map_mAbs := PStr "117;225" |} ].

(** The colours of the sample sheet's rows for antibodies 117 and 225. *)
Definition faces : list (list string) :=
  [ map (fun _ => "#FFE0E0") CLUSTER_NAMES;
    map (fun _ => "#112233") CLUSTER_NAMES ].

(** The marks the sample annotation table leaves for position 160. *)
Definition marks : Marks :=
  {| mutations := <[117 := (7%nat, "K"%char, "T"%char)]> ∅;
     asterisk_mabs := [225] |}.
End SampleMore.


Module SampleDeck.

Definition svg (n : string) : Deck.Path := {| Deck.parent := "hist"; Deck.name := n |}.
Definition png (n : string) : Deck.Path := {| Deck.parent := "ha"; Deck.name := n |}.

(** Histograms for 160, 145 and 7; the third name holds no digit. *)
Definition hist_files : list Deck.Path :=
  [svg "pos_145.svg"; svg "pos_-160.svg"; svg "legend.svg"; svg "pos_7.svg"].

(** Three pictures for 160 and one for 145; none for 7. *)
Definition ha_files : list Deck.Path :=
  [png "HA_pos_160_green.png"; png "HA_pos_160_Red.png";
   png "HA_pos_145.png"; png "HA_pos_160_red_v2.png"].

End SampleDeck.
Example strip_ex : Py.strip "  a b	" = "a b".
Proof. reflexivity. Qed.
Example int_ex1 : Py.int (Py.PStr " -1_17 ") = Py.Ok (-117).
Proof. reflexivity. Qed.
Example int_ex2 : Py.parse_int "5__5" = None.
Proof. reflexivity. Qed.
Example str_ex : Py.str (Py.PInt (-117)) = "-117".
Proof. reflexivity. Qed.

Example split_ex : split_on "," "117, 225,," = ["117"; " 225"; ""; ""].
Proof. reflexivity. Qed.
Example parse_mabs_ex : parse_mabs "117, -225," = Ok [117; -225].
Proof. reflexivity. Qed.
Example parse_mabs_bad : parse_mabs "117;225"
  = Raise (ValueError "invalid literal for int() with base 10").
Proof. reflexivity. Qed.
Example coerce_ex :
  map _coerce_aa [PNaN; PStr " N/A "; PStr "-"; PStr " K "; PStr "other"; PInt 7]
  = ["Other"; "Other"; "Other"; "K"; "other"; "7"].
Proof. reflexivity. Qed.

(** Position 160, set S1, with year 2000 at A = 0.6, B = 0.4 and year
    2001 at A = 1.0: two columns, rows [0.6, 0.4] and [1.0, 0.0]. *)
Example scenario_160 :
  let mat := safe_normalize
               (aggregate Sample.hist
                  (first_set_rows (position_rows 160 Sample.hist))) in
  mat_columns mat = ["A"; "B"]
  /\ map Qred <$> mat_values mat !! 35%nat = Some [3 # 5; 2 # 5]%Q
  /\ map Qred <$> mat_values mat !! 36%nat = Some [1; 0]%Q.
Proof. vm_compute. repeat split; reflexivity. Qed.

(** The sample files give two slides, 160 before 145; the red picture
    found first is the one chosen for 160. *)
Example deck_scenario :
  Deck.main SampleDeck.hist_files SampleDeck.ha_files "hist_png"
  = Drawn
      [ {| Deck.slide_pos := 160;
           Deck.pic_hist := Deck.out_png "hist_png" 160;
           Deck.pic_ha := SampleDeck.png "HA_pos_160_Red.png" |};
        {| Deck.slide_pos := 145;
           Deck.pic_hist := Deck.out_png "hist_png" 145;
           Deck.pic_ha := SampleDeck.png "HA_pos_145.png" |} ].
Proof. vm_compute. reflexivity. Qed.
(* ===================================================================== *)
(** ** Properties of the string built-ins *)
(* ===================================================================== *)

Lemma lstrip_cases (s : string) :
  lstrip s = EmptyString \/
  exists c r, lstrip s = String c r /\ isspace c = false.
Proof.
  induction s as [|c r IH]; simpl; [now left|].
  destruct (isspace c) eqn:Hc; [exact IH|].
  right. exists c, r. split; [reflexivity | exact Hc].
Qed.

Lemma rstrip_idem (s : string) : rstrip (rstrip s) = rstrip s.
Proof.
  induction s as [|c r IH]; simpl; [reflexivity|].
  destruct (rstrip r) as [|c' r'] eqn:Hr.
  - destruct (isspace c) eqn:Hc; simpl; [reflexivity|].
    now rewrite Hc.
  - change (rstrip (String c (String c' r')))
      with (match rstrip (String c' r') with
            | EmptyString => if isspace c then EmptyString else String c EmptyString
            | r0 => String c r0
            end).
    now rewrite IH.
Qed.

Lemma rstrip_keeps_head (c : ascii) (r : string) :
  isspace c = false -> exists r', rstrip (String c r) = String c r'.
Proof.
  intros Hc. simpl. destruct (rstrip r) as [|c' r'].
  - rewrite Hc. now exists EmptyString.
  - now exists (String c' r').
Qed.

Lemma strip_idem (s : string) : strip (strip s) = strip s.
Proof.
  unfold strip. destruct (lstrip_cases s) as [He | (c & r & He & Hc)];
    rewrite He.
  - reflexivity.
  - destruct (rstrip_keeps_head c r Hc) as [r' Hr'].
    rewrite Hr'. simpl lstrip. rewrite Hc. rewrite <- Hr'. apply rstrip_idem.
Qed.

(* ===================================================================== *)
(** ** C7: label coercion is idempotent *)
(* ===================================================================== *)

(** C7. Coercing an already coerced amino-acid label changes nothing:
    for every cell value [x], [_coerce_aa] applied to its own output
    (a string) returns that output; hence re-coercing every label of an
    already coerced list gives the same list. *)
Theorem coerce_aa_idempotent :
  (forall x : pyval, _coerce_aa (PStr (_coerce_aa x)) = _coerce_aa x) /\
  (forall labels : list pyval,
      map (fun s => _coerce_aa (PStr s)) (map _coerce_aa labels)
      = map _coerce_aa labels).
Proof.
  assert (H1 : forall x : pyval, _coerce_aa (PStr (_coerce_aa x)) = _coerce_aa x).
  { intros x. unfold _coerce_aa at 2 3.
    destruct (isna x); [reflexivity|].
    destruct (String.eqb (strip (str x)) "-"
              || str_in (lower (strip (str x))) ["nan"; "na"; "n/a"; "none"; ""])
      eqn:Hc; [reflexivity|].
    unfold _coerce_aa. simpl isna. cbv iota. simpl str.
    rewrite strip_idem. now rewrite Hc. }
  split; [exact H1|].
  intros labels. rewrite map_map. apply map_ext. intros a. apply H1.
Qed.

(* ===================================================================== *)
(** ** Row selection *)
(* ===================================================================== *)

Lemma pyval_eqb_eq (a b : pyval) : Py.eqb a b = true -> a = b.
Proof.
  destruct a, b; simpl; try discriminate.
  - intros H. apply Z.eqb_eq in H. now subst.
  - intros H. apply String.eqb_eq in H. now subst.
Qed.

Lemma pyval_eqb_int (v : pyval) (z : Z) : Py.eqb v (PInt z) = true <-> v = PInt z.
Proof.
  split.
  - apply pyval_eqb_eq.
  - intros ->. simpl. apply Z.eqb_refl.
Qed.

Lemma pyval_eqb_str (v : pyval) (s : string) :
  Py.eqb v (PStr s) = true <-> v = PStr s.
Proof.
  split.
  - apply pyval_eqb_eq.
  - intros ->. simpl. apply String.eqb_refl.
Qed.

Lemma in_position_rows (P : Z) (df : HistTable) (r : HistRow) :
  In r (position_rows P df) <-> In r (hist_rows df) /\ Position r = PInt P.
Proof.
  unfold position_rows. rewrite filter_In. now rewrite pyval_eqb_int.
Qed.

Lemma filter_filter_andb {A} (f g : A -> bool) (l : list A) :
  List.filter g (List.filter f l) = List.filter (fun x => f x && g x) l.
Proof.
  induction l as [|x l IH]; simpl; [reflexivity|].
  destruct (f x); simpl; [destruct (g x)|]; now rewrite IH.
Qed.

(** What a successful render returns: every field of the figure in terms
    of the loaded mapping and the selected rows. *)
Lemma render_position_ok (position : Z) (hist : HistTable) (neut : Worksheet)
    (aa_df : list MutRow) (mapping : list MapRec) (fig : Figure) :
  render_position position hist neut aa_df mapping = Ok fig ->
  exists pos_to_mabs faces st,
    load_position_mabs mapping = Ok pos_to_mabs
    /\ position_rows position hist <> []
    /\ let mabs := default [] (pos_to_mabs !! position) in
       let mat := safe_normalize
                    (aggregate hist (first_set_rows (position_rows position hist))) in
       fig_mat fig = mat
       /\ fig_aa_order fig = aa_order mat
       /\ fig_neut_h fig = neut_h mabs
       /\ fig_figsize_h fig = fig_h mabs
       /\ fig_neut fig = neut_panel mabs faces st.
Proof.
  unfold render_position. unfold_result.
  destruct (load_position_mabs mapping) as [m|e]; simpl; [|discriminate].
  destruct (position_rows position hist) as [|r0 rest]; [discriminate|].
  match goal with
  | |- bind ?X _ = _ -> _ => destruct X as [[faces st]|e]; simpl; [|discriminate]
  end.
  intros H. injection H as <-. exists m, faces, st. simpl.
  repeat split; congruence.
Qed.

Lemma render_position_mat (position : Z) (hist : HistTable) (neut : Worksheet)
    (aa_df : list MutRow) (mapping : list MapRec) (fig : Figure) :
  render_position position hist neut aa_df mapping = Ok fig ->
  fig_mat fig
  = safe_normalize (aggregate hist (first_set_rows (position_rows position hist))).
Proof.
  intros H. apply render_position_ok in H as (m & faces & st & _ & _ & H).
  apply H.
Qed.

(* ===================================================================== *)
(** ** C5: the set of the first matching row wins *)
(* ===================================================================== *)

(** C5. When the rows matching the requested position are non-empty, with
    [r0] the first of them in table order, the aggregator works on exactly
    the table rows that match the position and whose SetName equals the
    SetName of [r0], kept in table order; matching rows of any other
    SetName are dropped, and the rendered matrix is computed from the kept
    rows alone. *)
Theorem first_set_name_wins (position : Z) (df : HistTable)
    (r0 : HistRow) (rest : list HistRow) :
  position_rows position df = r0 :: rest ->
  let used := first_set_rows (position_rows position df) in
  used = List.filter (fun r => Py.eqb (Position r) (PInt position)
                               && Py.eqb (SetName r) (SetName r0))
                     (hist_rows df)
  /\ (forall r, In r used ->
        In r (hist_rows df) /\ Position r = PInt position
        /\ SetName r = SetName r0)
  /\ (forall r s, SetName r0 = PStr s ->
        (In r used <->
         In r (hist_rows df) /\ Position r = PInt position
         /\ SetName r = PStr s))
  /\ (forall r, In r (position_rows position df) ->
        SetName r <> SetName r0 -> ~ In r used)
  /\ (forall neut aa_df mapping fig,
        render_position position df neut aa_df mapping = Ok fig ->
        fig_mat fig = safe_normalize (aggregate df used)).
Proof.
  intros Hsub used.
  assert (Hused : used = List.filter (fun r => Py.eqb (Position r) (PInt position)
                               && Py.eqb (SetName r) (SetName r0))
                     (hist_rows df)).
  { unfold used. rewrite Hsub. unfold first_set_rows. rewrite <- Hsub.
    unfold position_rows. apply filter_filter_andb. }
  split; [exact Hused|].
  assert (Hin : forall r, In r used <->
            In r (hist_rows df) /\ Position r = PInt position
            /\ Py.eqb (SetName r) (SetName r0) = true).
  { intros r. rewrite Hused, filter_In, andb_true_iff, pyval_eqb_int.
    tauto. }
  split; [|split; [|split]].
  - intros r Hr. apply Hin in Hr as (H1 & H2 & H3).
    auto using pyval_eqb_eq.
  - intros r s Hs. rewrite Hin, Hs, pyval_eqb_str. tauto.
  - intros r _ Hne Hr. apply Hin in Hr as (_ & _ & H3).
    apply Hne. now apply pyval_eqb_eq.
  - intros neut aa_df mapping fig Hfig.
    now apply render_position_mat in Hfig.
Qed.

Lemma first_set_name_wins_witness :
  first_set_rows (position_rows 160 Sample.hist) = [Sample.row_A; Sample.row_B]
  /\ (In Sample.row_S2 (first_set_rows (position_rows 160 Sample.hist)) -> False).
Proof.
  pose proof (first_set_name_wins 160 Sample.hist Sample.row_A
                [Sample.row_S2; Sample.row_B] eq_refl) as H.
  cbv zeta in H. destruct H as (H1 & _ & _ & H4 & _). split.
  - rewrite H1. reflexivity.
  - apply H4; [vm_compute; auto | discriminate].
Defined.

(* ===================================================================== *)
(** ** C1: the sign of a position *)
(* ===================================================================== *)

(** C1, as stated, fails: the table holds rows for position 160; asking
    for 160 selects them and renders, asking for -160 selects nothing and
    the render aborts. *)
Lemma position_sign_matters :
  position_rows 160 Sample.hist = [Sample.row_A; Sample.row_S2; Sample.row_B]
  /\ position_rows (-160) Sample.hist = []
  /\ render_position (-160) Sample.hist Sample.sheet Sample.aa_df Sample.mapping
     = Raise (ValueError "No histogram data found for position -160")
  /\ (exists fig,
        render_position 160 Sample.hist Sample.sheet Sample.aa_df Sample.mapping
        = Ok fig).
Proof.
  split; [reflexivity|]. split; [reflexivity|]. split; [vm_compute; reflexivity|].
  eexists. vm_compute. reflexivity.
Qed.

(** A row of another position leaves the annotation marks untouched. *)
Lemma annotate_other_position (P : Z) (mabs : list Z) (st : Marks)
    (rr : MutRow) (p : Z) :
  int (MutationPosition rr) = Ok p -> p <> P -> annotate P mabs st rr = Ok st.
Proof.
  intros Hp Hne. unfold annotate. rewrite Hp. simpl.
  apply Z.eqb_neq in Hne. now rewrite Hne.
Qed.

(** C1, amended. A position is matched by exact integer equality, sign
    included: a histogram row is selected for position [P] exactly when
    its Position cell is the integer [P]; a mutation-annotation row whose
    position converts to an integer other than [P] is passed over; and
    for [P <> 0] a row selected for [P] is never selected for [-P]. *)
Theorem position_exact_match (P : Z) (df : HistTable) (r : HistRow) :
  (In r (position_rows P df) <-> In r (hist_rows df) /\ Position r = PInt P)
  /\ (P <> 0 -> In r (position_rows P df) -> ~ In r (position_rows (- P) df))
  /\ (forall mabs st rr p,
        int (MutationPosition rr) = Ok p -> p <> P ->
        annotate P mabs st rr = Ok st).
Proof.
  split; [apply in_position_rows|]. split.
  - intros HP H1 H2.
    apply in_position_rows in H1 as [_ H1].
    apply in_position_rows in H2 as [_ H2].
    rewrite H1 in H2. injection H2 as H2. lia.
  - intros mabs st rr p. apply annotate_other_position.
Qed.

Lemma position_exact_match_witness :
  (In Sample.row_A (position_rows (- 160) Sample.hist) -> False)
  /\ annotate (-160) [117; 225] no_marks Sample.mut_mid = Ok no_marks.
Proof.
  destruct (position_exact_match 160 Sample.hist Sample.row_A) as (_ & H & _).
  destruct (position_exact_match (-160) Sample.hist Sample.row_A) as (_ & _ & H').
  split.
  - apply H; [lia | vm_compute; auto].
  - apply (H' _ _ _ 160); [reflexivity | lia].
Defined.

(* ===================================================================== *)
(** ** C3: the sign of an antibody identifier *)
(* ===================================================================== *)

Lemma id_matches_opp (m : Z) (v : pyval) : id_matches (- m) v = id_matches m v.
Proof. unfold id_matches. now rewrite Z.abs_opp. Qed.

Lemma find_row_opp (ws : Worksheet) (m : Z) : find_row ws (- m) = find_row ws m.
Proof.
  unfold find_row. induction (seq 3 (max_row ws - 2)) as [|rr l IH]; simpl;
    [reflexivity|].
  now rewrite id_matches_opp, IH.
Qed.

Lemma map_result_ext {A B} (f g : A -> result B) (l : list A) :
  (forall x, f x = g x) -> map_result f l = map_result g l.
Proof.
  intros H. induction l as [|x l IH]; simpl; [reflexivity|].
  now rewrite H, IH.
Qed.

Lemma map_result_app {A B} (f : A -> result B) (l1 l2 : list A) :
  map_result f (l1 ++ l2)
  = (ys1 ← map_result f l1; ys2 ← map_result f l2; Ok ((ys1 ++ ys2)%list)).
Proof.
  induction l1 as [|x l1 IH]; simpl.
  - unfold_result. simpl. destruct (map_result f l2); reflexivity.
  - unfold_result. destruct (f x); simpl; [|reflexivity].
    rewrite IH. destruct (map_result f l1); simpl; [|reflexivity].
    destruct (map_result f l2); reflexivity.
Qed.

Lemma match_mab_abs (mabs mabs' : list Z) (p : Z) :
  map Z.abs mabs' = map Z.abs mabs ->
  option_map Z.abs (match_mab mabs' p) = option_map Z.abs (match_mab mabs p).
Proof.
  unfold match_mab. revert mabs'.
  induction mabs as [|m l IH]; intros [|m' l'] H; simpl in *; try discriminate;
    [reflexivity|].
  injection H as Hm Hl. rewrite Hm.
  destruct (Z.abs m =? Z.abs p); simpl; [now rewrite Hm | now apply IH].
Qed.

Lemma find_seq_spec (f : nat -> bool) (a n : nat) :
  match List.find f (seq a n) with
  | Some r => (a <= r < a + n)%nat /\ f r = true
              /\ forall r', (a <= r' < r)%nat -> f r' = false
  | None => forall r', (a <= r' < a + n)%nat -> f r' = false
  end.
Proof.
  revert a. induction n as [|n IH]; intros a; simpl.
  - intros r' Hr'. lia.
  - destruct (f a) eqn:Ha.
    + split; [lia|]. split; [exact Ha|]. intros r' Hr'. lia.
    + specialize (IH (S a)). destruct (List.find f (seq (S a) n)) as [r|].
      * destruct IH as (H1 & H2 & H3). split; [lia|]. split; [exact H2|].
        intros r' Hr'. destruct (Nat.eq_dec r' a) as [->|Hne]; [exact Ha|].
        apply H3. lia.
      * intros r' Hr'. destruct (Nat.eq_dec r' a) as [->|Hne]; [exact Ha|].
        apply IH. lia.
Qed.

Lemma id_matches_iff (m : Z) (v : pyval) :
  id_matches m v = true <-> exists z, int v = Ok z /\ Z.abs z = Z.abs m.
Proof.
  unfold id_matches. destruct v as [| |z|s]; simpl.
  - split; [discriminate | intros (z & H & _); discriminate].
  - split; [discriminate | intros (z & H & _); discriminate].
  - rewrite Z.eqb_eq. split.
    + intros H. now exists z.
    + intros (z' & H & H'). now injection H as ->.
  - destruct (parse_int s) as [z|].
    + rewrite Z.eqb_eq. split.
      * intros H. now exists z.
      * intros (z' & H & H'). now injection H as ->.
    + split; [discriminate | intros (z & H & _); discriminate].
Qed.

Lemma find_first_split {A} (f : A -> bool) (l : list A) (x : A) :
  List.find f l = Some x
  <-> exists before after,
        l = (before ++ x :: after)%list /\ f x = true
        /\ forall y, In y before -> f y = false.
Proof.
  induction l as [|a l IH]; simpl.
  - split; [discriminate|]. intros (b & c & H & _). now destruct b.
  - destruct (f a) eqn:Ha.
    + split.
      * intros H. injection H as <-. exists [], l. split; [reflexivity|].
        split; [exact Ha | intros y []].
      * intros ([|b before] & after & H & Hx & Hb).
        -- now injection H as ->.
        -- injection H as -> _. rewrite (Hb b) in Ha; [discriminate | now left].
    + rewrite IH. split.
      * intros (before & after & -> & Hx & Hb). exists (a :: before), after.
        split; [reflexivity|]. split; [exact Hx|].
        intros y [<-|Hy]; [exact Ha | now apply Hb].
      * intros ([|b before] & after & H & Hx & Hb).
        -- injection H as -> _. congruence.
        -- injection H as -> ->. exists before, after.
           split; [reflexivity|]. split; [exact Hx|].
           intros y Hy. apply Hb. now right.
Qed.

Lemma find_none_iff {A} (f : A -> bool) (l : list A) :
  List.find f l = None <-> forall y, In y l -> f y = false.
Proof.
  induction l as [|a l IH]; simpl; [split; [intros _ y [] | reflexivity]|].
  destruct (f a) eqn:Ha.
  - split; [discriminate|]. intros H. rewrite (H a) in Ha; [discriminate | now left].
  - rewrite IH. split.
    + intros H y [<-|Hy]; [exact Ha | now apply H].
    + intros H y Hy. apply H. now right.
Qed.

Lemma find_row_iff (ws : Worksheet) (m : Z) (r : nat) :
  find_row ws m = Some r
  <-> (3 <= r <= max_row ws)%nat
      /\ same_id m (value (ws_at ws r 2))
      /\ forall r', (3 <= r' < r)%nat -> ~ same_id m (value (ws_at ws r' 2)).
Proof.
  unfold find_row, same_id.
  pose proof (find_seq_spec (fun rr => id_matches m (value (ws_at ws rr 2)))
                3 (max_row ws - 2)) as H.
  destruct (List.find _ _) as [r0|].
  - destruct H as (H1 & H2 & H3). split.
    + intros Hr. injection Hr as <-. split; [lia|].
      split; [now apply id_matches_iff|].
      intros r' Hr' Hm. apply id_matches_iff in Hm.
      rewrite (H3 r') in Hm; [discriminate | lia].
    + intros (Hr & Hm & Hfirst). f_equal.
      apply id_matches_iff in Hm.
      destruct (Nat.lt_trichotomy r0 r) as [Hlt|[Heq|Hgt]]; [|exact Heq|].
      * destruct (Hfirst r0); [lia|]. now apply id_matches_iff.
      * rewrite (H3 r) in Hm; [discriminate | lia].
  - split; [discriminate|]. intros (Hr & Hm & _).
    apply id_matches_iff in Hm. rewrite (H r) in Hm; [discriminate | lia].
Qed.

Lemma match_mab_iff (mabs : list Z) (p mm : Z) :
  match_mab mabs p = Some mm
  <-> exists before after,
        mabs = (before ++ mm :: after)%list /\ Z.abs mm = Z.abs p
        /\ forall x, In x before -> Z.abs x <> Z.abs p.
Proof.
  unfold match_mab. rewrite find_first_split. split.
  - intros (before & after & H & Hm & Hb). exists before, after.
    split; [exact H|]. split; [now apply Z.eqb_eq|].
    intros x Hx. apply Z.eqb_neq. now apply Hb.
  - intros (before & after & H & Hm & Hb). exists before, after.
    split; [exact H|]. split; [now apply Z.eqb_eq|].
    intros x Hx. apply Z.eqb_neq. now apply Hb.
Qed.

(** C3. An antibody identifier is resolved by its absolute value. The
    sheet lookup [find_row ws m] returns row [r] exactly when [r] is the
    first row from row 3 on whose column-B value converts to an integer
    with the absolute value of [m], whatever the sign on either side;
    and an annotation row's identifier [p] is matched to the first
    antibody of the position's list with the absolute value of [p], and
    to none exactly when the list has no such antibody. Hence the lookup
    returns the same row for [-m] and [m]; flipping the sign of one entry
    of a position's antibody list leaves the extracted face colours
    unchanged; [p] matches the flipped list at the same antibody (equal
    up to sign) as the original list; and [-p] matches whatever [p]
    matches. *)
Theorem antibody_sign_irrelevant (ws : Worksheet) (m p : Z) (pre post : list Z) :
  (forall r,
      find_row ws m = Some r
      <-> (3 <= r <= max_row ws)%nat
          /\ same_id m (value (ws_at ws r 2))
          /\ forall r', (3 <= r' < r)%nat ->
               ~ same_id m (value (ws_at ws r' 2)))
  /\ (forall mabs mm,
        match_mab mabs p = Some mm
        <-> exists before after,
              mabs = (before ++ mm :: after)%list /\ Z.abs mm = Z.abs p
              /\ forall x, In x before -> Z.abs x <> Z.abs p)
  /\ (forall mabs,
        match_mab mabs p = None
        <-> forall x, In x mabs -> Z.abs x <> Z.abs p)
  /\ find_row ws (- m) = find_row ws m
  /\ faces_of ws (pre ++ (- m) :: post) = faces_of ws (pre ++ m :: post)
  /\ option_map Z.abs (match_mab (pre ++ (- m) :: post) p)
     = option_map Z.abs (match_mab (pre ++ m :: post) p)
  /\ (match_mab (pre ++ (- m) :: post) p = None
      <-> match_mab (pre ++ m :: post) p = None)
  /\ match_mab (pre ++ m :: post) (- p) = match_mab (pre ++ m :: post) p.
Proof.
  assert (Habs : map Z.abs (pre ++ - m :: post) = map Z.abs (pre ++ m :: post)).
  { rewrite !map_app. simpl. now rewrite Z.abs_opp. }
  split; [intros r; apply find_row_iff|].
  split; [intros mabs mm; apply match_mab_iff|].
  split.
  { intros mabs. unfold match_mab. rewrite find_none_iff.
    split; intros H x Hx; [apply Z.eqb_neq | apply Z.eqb_neq]; now apply H. }
  split; [apply find_row_opp|]. split; [|split; [|split]].
  - unfold faces_of. rewrite !map_result_app. simpl.
    now rewrite find_row_opp.
  - now apply match_mab_abs.
  - pose proof (match_mab_abs _ _ p Habs) as H.
    destruct (match_mab (pre ++ - m :: post) p),
             (match_mab (pre ++ m :: post) p); simpl in H;
      try discriminate; split; intros; congruence.
  - unfold match_mab. now rewrite Z.abs_opp.
Qed.

(** On the sample sheet, whose row 4 holds the text "-117": antibody 117
    is found there, as is -117; the list entry -117 is the match of the
    annotation identifier 117; and the lists [-117, 225] and [117, 225]
    give the same face colours. *)
Lemma antibody_sign_irrelevant_witness :
  find_row Sample.sheet 117 = Some 4%nat
  /\ find_row Sample.sheet (-117) = Some 4%nat
  /\ match_mab [-117; 225] 117 = Some (-117)
  /\ faces_of Sample.sheet [-117; 225] = faces_of Sample.sheet [117; 225].
Proof.
  destruct (antibody_sign_irrelevant Sample.sheet 117 117 [] [225])
    as (Hrow & Hmatch & _ & Hopp & Hfaces & _).
  assert (H4 : find_row Sample.sheet 117 = Some 4%nat).
  { apply Hrow. split; [simpl; lia|]. split.
    - exists (-117). split; reflexivity.
    - intros r' Hr' (z & Hz & Habs).
      assert (r' = 3%nat) as -> by lia.
      vm_compute in Hz. injection Hz as <-. discriminate. }
  split; [exact H4|]. split; [exact (eq_trans Hopp H4)|]. split; [|exact Hfaces].
  apply Hmatch. exists [], [225]. split; [reflexivity|].
  split; [reflexivity | intros x []].
Defined.

(** The identifiers -117 and 117 land on the same sheet row, and the
    mappings "117, 225" and "-117, 225" render the same faces and
    letters, row by row. *)
Example antibody_117 :
  find_row Sample.sheet (-117) = Some 4%nat
  /\ find_row Sample.sheet 117 = Some 4%nat
  /\ match_mab [-117; 225] 117 = Some (-117)
  /\ match_mab [117; 225] (-117) = Some 117
  /\ (exists f1 f2 rows1 rows2,
        render_position 160 Sample.hist Sample.sheet Sample.aa_df Sample.mapping
        = Ok f1
        /\ render_position 160 Sample.hist Sample.sheet Sample.aa_df
             Sample.mapping_neg
           = Ok f2
        /\ fig_neut f1 = NeutGrid rows1
        /\ fig_neut f2 = NeutGrid rows2
        /\ map nr_faces rows1 = map nr_faces rows2
        /\ map nr_letters rows1 = map nr_letters rows2).
Proof.
  do 4 (split; [reflexivity|]).
  do 4 eexists.
  split; [vm_compute; reflexivity|].
  split; [vm_compute; reflexivity|].
  split; [reflexivity|]. split; [reflexivity|].
  split; reflexivity.
Qed.

(* ===================================================================== *)
(** ** C4: placing a mutation record *)
(* ===================================================================== *)

Lemma cluster_index (idx : nat) (s : string) :
  CLUSTER_NAMES !! idx = Some s -> index_of s CLUSTER_NAMES = Some idx.
Proof.
  intros H.
  do 16 (destruct idx as [|idx]; [injection H as <-; reflexivity|]).
  discriminate.
Qed.

(** C4, as stated, fails: the row matches position 160 and antibody 225
    and names the final cluster HK14, but its point-mutation cell is
    blank; the loop passes it over and antibody 225 gets no footnote
    mark. *)
Lemma blank_mutation_not_footnoted :
  int (MutationPosition Sample.mut_blank) = Ok 160
  /\ match_mab [117; 225] 225 = Some 225
  /\ last CLUSTER_NAMES = Some (strip (str (VirusStrain Sample.mut_blank)))
  /\ annotate 160 [117; 225] no_marks Sample.mut_blank = Ok no_marks
  /\ asterisk_mabs no_marks = [].
Proof. repeat split; reflexivity. Qed.

(** C4, amended. Take a mutation-annotation row whose position is the
    requested one, whose antibody identifier parses and matches antibody
    [m] of the position, and whose point-mutation field is not empty
    after trimming, with first letter [wt] and last letter [mut_aa]. If
    its (trimmed) virus strain is the name of the last cluster, the loop
    appends [m] to the footnote-marked antibodies and leaves the
    positioned mutations as they were. If the strain is the name of the
    cluster at a non-final index [idx], the loop associates
    [(idx, wt, mut_aa)] with [m] and leaves the footnote marks as they
    were. *)
Theorem mutation_placement (position : Z) (mabs : list Z) (st : Marks)
    (rr : MutRow) (m_parsed m : Z) (wt : ascii) (rest : string) :
  int (MutationPosition rr) = Ok position ->
  parse_int (strip (str (mAB_ID rr))) = Some m_parsed ->
  match_mab mabs m_parsed = Some m ->
  strip (str (PointMutation rr)) = String wt rest ->
  let strain := strip (str (VirusStrain rr)) in
  (last CLUSTER_NAMES = Some strain ->
   annotate position mabs st rr
   = Ok {| mutations := mutations st;
           asterisk_mabs := asterisk_mabs st ++ [m] |})
  /\ (forall idx : nat,
        CLUSTER_NAMES !! idx = Some strain ->
        (idx < length CLUSTER_NAMES - 1)%nat ->
        annotate position mabs st rr
        = Ok {| mutations := <[m := (idx, wt, last_char wt rest)]> (mutations st);
                asterisk_mabs := asterisk_mabs st |}).
Proof.
  intros Hp Hid Hm Hmut strain.
  assert (Hstep : forall idx, index_of strain CLUSTER_NAMES = Some idx ->
            annotate position mabs st rr
            = if (idx =? length CLUSTER_NAMES - 1)%nat
              then Ok {| mutations := mutations st;
                         asterisk_mabs := asterisk_mabs st ++ [m] |}
              else Ok {| mutations := <[m := (idx, wt, last_char wt rest)]> (mutations st);
                         asterisk_mabs := asterisk_mabs st |}).
  { intros idx Hidx. unfold annotate. rewrite Hp. simpl.
    rewrite Z.eqb_refl. simpl. rewrite Hid, Hm, Hmut.
    fold strain. now rewrite Hidx. }
  split.
  - intros Hlast. injection Hlast as Hlast.
    rewrite (Hstep 15%nat); [reflexivity|].
    rewrite <- Hlast. reflexivity.
  - intros idx Hidx Hlt. rewrite (Hstep idx (cluster_index _ _ Hidx)).
    apply Nat.lt_neq, Nat.eqb_neq in Hlt. now rewrite Hlt.
Qed.

Lemma mutation_placement_witness :
  annotate 160 [117; 225] no_marks Sample.mut_last
  = Ok {| mutations := ∅; asterisk_mabs := [225] |}
  /\ annotate 160 [117; 225] no_marks Sample.mut_mid
     = Ok {| mutations := <[117 := (7%nat, "K"%char, "T"%char)]> ∅;
             asterisk_mabs := [] |}.
Proof.
  split.
  - apply (proj1 (mutation_placement 160 [117; 225] no_marks Sample.mut_last
                    225 225 "N" "160S" eq_refl eq_refl eq_refl eq_refl)).
    reflexivity.
  - apply (proj2 (mutation_placement 160 [117; 225] no_marks Sample.mut_mid
                    117 117 "K" "160T" eq_refl eq_refl eq_refl eq_refl) 7%nat).
    + reflexivity.
    + simpl. lia.
Defined.

(* ===================================================================== *)
(** ** C8: adaptive height *)
(* ===================================================================== *)

Lemma neut_h_rows (mabs : list Z) :
  mabs <> [] ->
  neut_h mabs = (NEUT_ROW_H_IN * inject_Z (Z.of_nat (length mabs)))%Q.
Proof. destruct mabs; [congruence | reflexivity]. Qed.

Lemma fig_h_sum (mabs : list Z) :
  (fig_h mabs ==
   (HIST_H_IN + CLUSTER_H_IN + YEAR_H_IN) + neut_h mabs
   + (GAP_IN + GAP_IN + GAP_IN) + (TOP_PAD_IN + BOTTOM_PAD_IN))%Q.
Proof. unfold fig_h. ring. Qed.

(** C8. In a rendered figure, with [mabs] the antibody list the mapping
    gives for the position: the neutralization block is as high as the
    per-row height times the number of antibodies when the list is not
    empty (twice the per-row height for two antibodies), and as high as
    the fixed placeholder height when it is empty; the figure height is
    the sum of the three fixed panel heights (histogram, cluster strip,
    year axis), this block height, three gaps, and the top and bottom
    padding. *)
Theorem adaptive_height (position : Z) (hist : HistTable) (neut : Worksheet)
    (aa_df : list MutRow) (mapping : list MapRec)
    (pos_to_mabs : gmap Z (list Z)) (fig : Figure) :
  load_position_mabs mapping = Ok pos_to_mabs ->
  render_position position hist neut aa_df mapping = Ok fig ->
  let mabs := default [] (pos_to_mabs !! position) in
  (mabs <> [] ->
   fig_neut_h fig = (NEUT_ROW_H_IN * inject_Z (Z.of_nat (length mabs)))%Q)
  /\ (length mabs = 2%nat -> (fig_neut_h fig == 2 * NEUT_ROW_H_IN)%Q)
  /\ (mabs = [] -> fig_neut_h fig = NO_MABS_H_IN)
  /\ (fig_figsize_h fig ==
      (HIST_H_IN + CLUSTER_H_IN + YEAR_H_IN) + fig_neut_h fig
      + (GAP_IN + GAP_IN + GAP_IN) + (TOP_PAD_IN + BOTTOM_PAD_IN))%Q.
Proof.
  intros Hload Hfig mabs.
  apply render_position_ok in Hfig
    as (m & faces & st & Hm & _ & _ & _ & Hn & Hf & _).
  rewrite Hload in Hm. injection Hm as <-. fold mabs in Hn, Hf.
  rewrite Hn, Hf.
  split; [apply neut_h_rows|]. split; [|split].
  - intros Hlen. destruct mabs as [|a [|b [|c l]]]; try discriminate.
    reflexivity.
  - now intros ->.
  - apply fig_h_sum.
Qed.

Lemma adaptive_height_witness :
  exists fig,
    render_position 160 Sample.hist Sample.sheet Sample.aa_df Sample.mapping
    = Ok fig
    /\ (fig_neut_h fig == 2 * (85 # 400))%Q
    /\ (fig_figsize_h fig == 3495 # 1000)%Q.
Proof.
  destruct (load_position_mabs Sample.mapping) as [m|e] eqn:Hl;
    [|vm_compute in Hl; discriminate].
  destruct (render_position 160 Sample.hist Sample.sheet Sample.aa_df
              Sample.mapping) as [fig|e] eqn:Hr;
    [|vm_compute in Hr; discriminate].
  exists fig. split; [reflexivity|].
  destruct (adaptive_height 160 Sample.hist Sample.sheet Sample.aa_df
              Sample.mapping m fig Hl Hr) as (_ & H2 & _ & H4).
  assert (Hlen : length (default [] (m !! 160)) = 2%nat).
  { vm_compute in Hl. injection Hl as <-. reflexivity. }
  specialize (H2 Hlen). split.
  - rewrite H2. reflexivity.
  - rewrite H4, H2. reflexivity.
Defined.

(* ===================================================================== *)
(** ** C10: a position the mapping does not mention *)
(* ===================================================================== *)

Lemma load_records_app (d1 d2 : list MapRec) (acc : gmap Z (list Z)) :
  load_records (d1 ++ d2) acc = (m ← load_records d1 acc; load_records d2 m).
Proof.
  revert acc. induction d1 as [|r d1 IH]; intros acc; simpl; [reflexivity|].
  unfold_result.
  destruct (int (map_Position r)); simpl; [|reflexivity].
  destruct (parse_mabs _); simpl; [|reflexivity].
  apply IH.
Qed.

Lemma load_records_unmapped (position : Z) (doc : list MapRec)
    (acc m : gmap Z (list Z)) :
  (forall r, In r doc -> int (map_Position r) <> Ok position) ->
  acc !! position = None ->
  load_records doc acc = Ok m ->
  m !! position = None.
Proof.
  revert acc. induction doc as [|r doc IH]; intros acc Hdoc Hacc; simpl.
  - intros H. now injection H as <-.
  - unfold_result.
    destruct (int (map_Position r)) as [p|e] eqn:Hp; simpl; [|discriminate].
    destruct (parse_mabs _) as [l|e]; simpl; [|discriminate].
    apply IH.
    + intros r' Hr'. apply Hdoc. now right.
    + rewrite lookup_insert_ne; [exact Hacc|].
      intros ->. apply (Hdoc r); [now left | exact Hp].
Qed.


(** C10. For a position that no record of the mapping document names,
    [render_position] behaves exactly as for the same document extended
    with a record mapping the position to the empty antibody list: the
    two calls return the same result. Whenever the mapping document
    loads and the histogram has rows for the position, that result is a
    figure, and every figure so returned has the placeholder
    neutralization panel at the fixed minimum height. *)
Theorem unmapped_position_placeholder (position : Z) (hist : HistTable)
    (neut : Worksheet) (aa_df : list MutRow) (mapping : list MapRec) :
  (forall r, In r mapping -> int (map_Position r) <> Ok position) ->
  render_position position hist neut aa_df mapping
  = render_position position hist neut aa_df (mapping ++ [empty_record position])
  /\ (forall m, load_position_mabs mapping = Ok m ->
        position_rows position hist <> [] ->
        exists fig, render_position position hist neut aa_df mapping = Ok fig)
  /\ (forall fig, render_position position hist neut aa_df mapping = Ok fig ->
        fig_neut fig = Placeholder "No associated mAbs"
        /\ fig_neut_h fig = NO_MABS_H_IN
        /\ fig_figsize_h fig = fig_h []).
Proof.
  intros Hdoc.
  assert (Hnone : forall m, load_position_mabs mapping = Ok m ->
                            m !! position = None).
  { intros m Hm.
    eapply load_records_unmapped; [exact Hdoc | apply lookup_empty | exact Hm]. }
  split; [|split].
  - unfold render_position, load_position_mabs.
    rewrite load_records_app. unfold_result.
    destruct (load_records mapping ∅) as [m|e] eqn:Hm; simpl; [|reflexivity].
    rewrite lookup_insert_eq, (Hnone m Hm). reflexivity.
  - intros m Hm Hrows. unfold render_position. unfold_result.
    rewrite Hm. simpl. rewrite (Hnone m Hm). simpl.
    destruct (position_rows position hist); [congruence|].
    eexists. reflexivity.
  - intros fig Hfig.
    apply render_position_ok in Hfig
      as (m & faces & st & Hm & _ & _ & _ & Hn & Hf & Hp).
    rewrite (Hnone m Hm) in Hn, Hf, Hp. simpl in Hn, Hf, Hp.
    now rewrite Hn, Hf, Hp.
Qed.

Lemma unmapped_position_placeholder_witness :
  exists fig,
    render_position 7 Sample.hist_case Sample.sheet Sample.aa_df Sample.mapping
    = Ok fig
    /\ fig_neut fig = Placeholder "No associated mAbs"
    /\ fig_neut_h fig = NO_MABS_H_IN.
Proof.
  assert (Hdoc : forall r, In r Sample.mapping -> int (map_Position r) <> Ok 7).
  { intros r [<-|[<-|[]]]; discriminate. }
  destruct (unmapped_position_placeholder 7 Sample.hist_case Sample.sheet
              Sample.aa_df Sample.mapping Hdoc) as (_ & Hok & Hfig).
  destruct (load_position_mabs Sample.mapping) as [m|e] eqn:Hl;
    [|vm_compute in Hl; discriminate].
  destruct (Hok m eq_refl) as [fig Hr]; [discriminate|].
  exists fig. split; [exact Hr|].
  destruct (Hfig fig Hr) as (H1 & H2 & _). now split.
Defined.

(* ===================================================================== *)
(** ** C2: row normalization *)
(* ===================================================================== *)

Section Normalization.

Local Open Scope Q_scope.

Lemma Qsum_nonneg (l : list Q) : Forall (Qle 0) l -> 0 <= Qsum l.
Proof.
  induction 1 as [|x l Hx _ IH]; simpl; [apply Qle_refl|]. lra.
Qed.

Lemma Qsum_zero_all_zero (l : list Q) :
  Forall (Qle 0) l -> Qsum l == 0 -> Forall (fun x => x == 0) l.
Proof.
  induction 1 as [|x l Hx Hl IH]; simpl; intros Hs; constructor.
  - pose proof (Qsum_nonneg l Hl). lra.
  - apply IH. pose proof (Qsum_nonneg l Hl). lra.
Qed.

Lemma Qsum_scale (d : Q) (l : list Q) :
  Qsum (map (fun x => x / d) l) == Qsum l / d.
Proof.
  induction l as [|x l IH]; simpl.
  - unfold Qdiv. ring.
  - rewrite IH. unfold Qdiv. ring.
Qed.

Lemma row_divisor_nonzero (row : list Q) : ~ row_divisor row == 0.
Proof.
  unfold row_divisor. destruct (Qeq_bool (Qsum row) 0) eqn:H.
  - discriminate.
  - now apply Qeq_bool_neq.
Qed.

Lemma row_divisor_of_nonzero (row : list Q) :
  ~ Qsum row == 0 -> row_divisor row = Qsum row.
Proof.
  intros H. unfold row_divisor.
  destruct (Qeq_bool (Qsum row) 0) eqn:Hb; [|reflexivity].
  now apply Qeq_bool_eq in Hb.
Qed.

Lemma normalize_row_sum (row : list Q) :
  ~ Qsum row == 0 -> Qsum (normalize_row row) == 1.
Proof.
  intros H. unfold normalize_row. rewrite Qsum_scale.
  rewrite (row_divisor_of_nonzero row H). now apply Qmult_inv_r.
Qed.

Lemma normalize_row_zero (row : list Q) :
  Forall (fun x => x == 0) row -> Forall (fun x => x == 0) (normalize_row row).
Proof.
  intros H. unfold normalize_row. apply Forall_map.
  eapply Forall_impl; [exact H|].
  intros x Hx. simpl. rewrite Hx. unfold Qdiv. ring.
Qed.


Lemma year_value_nonneg (df : HistTable) (rr : HistRow) (y : Z) :
  (forall q, In (Some q) (YearCells rr) -> 0 <= q) ->
  0 <= year_value df rr y.
Proof.
  intros H. unfold year_value.
  destruct (index_of y (int_columns df)) as [i|]; [|apply Qle_refl].
  destruct (nth_in_or_default i (YearCells rr) None) as [Hin | ->].
  - destruct (nth i (YearCells rr) None) as [q|]; simpl;
      [now apply H | apply Qle_refl].
  - apply Qle_refl.
Qed.

Lemma add_cell_nonneg (j : nat) (y : Z) (v : Q) (vals : list (list Q)) :
  0 <= v -> nonneg_matrix vals -> nonneg_matrix (add_cell j y v vals).
Proof.
  intros Hv Hm. unfold add_cell, nonneg_matrix.
  apply Forall_alter; [exact Hm|].
  intros row _ Hrow. apply Forall_alter; [exact Hrow|].
  intros x _ Hx. lra.
Qed.

Lemma add_row_nonneg (df : HistTable) (cols : list string)
    (vals : list (list Q)) (rr : HistRow) :
  (forall q, In (Some q) (YearCells rr) -> 0 <= q) ->
  nonneg_matrix vals -> nonneg_matrix (add_row df cols vals rr).
Proof.
  intros Hrr. unfold add_row.
  destruct (index_of _ cols) as [j|]; [|auto].
  revert vals. induction (yrs_use df) as [|y ys IH]; intros vals Hm; simpl;
    [exact Hm|].
  apply IH. apply add_cell_nonneg; [|exact Hm].
  now apply year_value_nonneg.
Qed.

Lemma zeros_nonneg (cols : list string) : nonneg_matrix (zeros cols).
Proof.
  unfold zeros, nonneg_matrix. apply Forall_map, Forall_forall. intros _ _.
  apply Forall_map, Forall_forall. intros _ _. apply Qle_refl.
Qed.

Lemma aggregate_nonneg (df : HistTable) (sub : list HistRow) :
  nonneg_cells sub -> nonneg_matrix (mat_values (aggregate df sub)).
Proof.
  intros Hsub. unfold aggregate. simpl.
  generalize (sorted_set (map (fun r => _coerce_aa (AminoAcid r)) sub)).
  intros cols. generalize (zeros_nonneg cols).
  generalize (zeros cols) as vals.
  induction sub as [|rr sub IH]; intros vals Hm; simpl; [exact Hm|].
  apply IH.
  - intros r q Hr. apply Hsub. now right.
  - apply add_row_nonneg; [|exact Hm].
    intros q. apply Hsub. now left.
Qed.

(** C2. Let [mat] be the year x label table the aggregator builds from
    the selected rows (proportions as exact rationals), and [row] its
    row for one year. The normalized table has a row for that year, and
    if [row] is all-zero so is the normalized row. When the histogram
    cells are non-negative, as proportions are: the normalized row is
    [row] divided entry-wise by a divisor that is never zero (the row's
    sum, or 1 when the sum is zero); the row's sum is either positive or
    zero; if it is positive the normalized row sums to 1; and if it is
    zero the row is all-zero and the normalized row is all-zero too. *)
Theorem normalized_rows (df : HistTable) (sub : list HistRow)
    (i : nat) (row : list Q) :
  let mat := aggregate df sub in
  mat_values mat !! i = Some row ->
  exists nrow,
    mat_values (safe_normalize mat) !! i = Some nrow
    /\ (Forall (fun x => x == 0) row -> Forall (fun x => x == 0) nrow)
    /\ (nonneg_cells sub ->
        nrow = map (fun x => x / row_divisor row) row
        /\ ~ row_divisor row == 0
        /\ (0 < Qsum row \/ Qsum row == 0)
        /\ (0 < Qsum row -> Qsum nrow == 1)
        /\ (Qsum row == 0 ->
            Forall (fun x => x == 0) row /\ Forall (fun x => x == 0) nrow)).
Proof.
  intros mat Hrow.
  assert (Hagg : nonneg_cells sub -> nonneg_matrix (mat_values mat))
    by apply aggregate_nonneg.
  clearbody mat. exists (normalize_row row). split; [|split].
  - unfold safe_normalize. simpl.
    change (map normalize_row (mat_values mat))
      with (normalize_row <$> mat_values mat).
    rewrite list_lookup_fmap, Hrow. reflexivity.
  - apply normalize_row_zero.
  - intros Hnn.
    assert (Hrn : Forall (Qle 0) row).
    { pose proof (Hagg Hnn) as Hm.
      unfold nonneg_matrix in Hm. rewrite Forall_forall in Hm.
      apply Hm. eapply list_elem_of_lookup_2. exact Hrow. }
    pose proof (Qsum_nonneg row Hrn) as Hs.
    split; [reflexivity|]. split; [apply row_divisor_nonzero|].
    split; [|split].
    + destruct (Qeq_dec (Qsum row) 0) as [Hz|Hz]; [now right | left; lra].
    + intros Hpos. apply normalize_row_sum. lra.
    + intros Hzero.
      assert (Hall : Forall (fun x => x == 0) row)
        by now apply Qsum_zero_all_zero.
      split; [exact Hall | now apply normalize_row_zero].
Qed.

Lemma normalized_rows_witness :
  (exists nrow,
      mat_values (safe_normalize
                    (aggregate Sample.hist [Sample.row_A; Sample.row_B]))
        !! 35%nat = Some nrow
      /\ Qsum nrow == 1)
  /\ (exists nrow,
        mat_values (safe_normalize
                      (aggregate Sample.hist [Sample.row_A; Sample.row_B]))
          !! 0%nat = Some nrow
        /\ Forall (fun x => x == 0) nrow).
Proof.
  assert (Hnn : nonneg_cells [Sample.row_A; Sample.row_B]).
  { intros rr q [<-|[<-|[]]] Hin; simpl in Hin;
      repeat (destruct Hin as [Hin|Hin]; [|]); try discriminate; try contradiction;
      injection Hin as <-; vm_compute; discriminate. }
  split.
  - destruct (mat_values (aggregate Sample.hist [Sample.row_A; Sample.row_B])
                !! 35%nat) as [row|] eqn:Hrow;
      [|vm_compute in Hrow; discriminate].
    destruct (normalized_rows _ _ _ _ Hrow) as (nrow & Hn & _ & H).
    exists nrow. split; [exact Hn|].
    destruct (H Hnn) as (_ & _ & _ & Hpos & _).
    apply Hpos. vm_compute in Hrow. injection Hrow as <-. reflexivity.
  - destruct (mat_values (aggregate Sample.hist [Sample.row_A; Sample.row_B])
                !! 0%nat) as [row|] eqn:Hrow;
      [|vm_compute in Hrow; discriminate].
    destruct (normalized_rows _ _ _ _ Hrow) as (nrow & Hn & _ & H).
    exists nrow. split; [exact Hn|].
    destruct (H Hnn) as (_ & _ & _ & _ & Hzero).
    apply Hzero. vm_compute in Hrow. injection Hrow as <-. reflexivity.
Defined.

End Normalization.

(* ===================================================================== *)
(** ** C6: column ordering *)
(* ===================================================================== *)

Section Ordering.

Variable key : string -> Q.


Lemma insert_desc_perm (x : string) (l : list string) :
  Permutation (insert_desc key x l) (x :: l).
Proof.
  induction l as [|y r IH]; simpl; [reflexivity|].
  destruct (Qle_bool (key y) (key x)); [reflexivity|].
  rewrite IH. apply perm_swap.
Qed.

Lemma sorted_desc_perm (l : list string) : Permutation (sorted_desc key l) l.
Proof.
  induction l as [|x l IH]; simpl; [reflexivity|].
  rewrite insert_desc_perm. now constructor.
Qed.

Lemma insert_desc_sorted (x : string) (l : list string) :
  StronglySorted (desc key) l -> StronglySorted (desc key) (insert_desc key x l).
Proof.
  induction 1 as [|y r Hr IH Hy]; simpl.
  - repeat constructor.
  - destruct (Qle_bool (key y) (key x)) eqn:Hc.
    + apply Qle_bool_iff in Hc. constructor; [now constructor|].
      constructor; [exact Hc|].
      eapply Forall_impl; [exact Hy|].
      intros z Hz. unfold desc in *. eapply Qle_trans; eauto.
    + constructor; [exact IH|].
      eapply Permutation_Forall; [symmetry; apply insert_desc_perm|].
      constructor; [|exact Hy].
      unfold desc. destruct (Qlt_le_dec (key x) (key y)) as [Hlt|Hle].
      * now apply Qlt_le_weak.
      * apply Qle_bool_iff in Hle. congruence.
Qed.

Lemma sorted_desc_sorted (l : list string) : StronglySorted (desc key) (sorted_desc key l).
Proof.
  induction l as [|x l IH]; simpl; [constructor | now apply insert_desc_sorted].
Qed.

End Ordering.

Lemma filter_split_perm {A} (f : A -> bool) (l : list A) :
  Permutation (List.filter (fun x => negb (f x)) l ++ List.filter f l) l.
Proof.
  induction l as [|x l IH]; simpl; [reflexivity|].
  destruct (f x); simpl.
  - rewrite <- Permutation_middle. now constructor.
  - now constructor.
Qed.


Lemma col_ltb_other_l (y : string) : y <> "Other" -> col_ltb "Other" y = false.
Proof.
  intros H. unfold col_ltb. apply String.eqb_neq in H. simpl. now rewrite H.
Qed.

Lemma col_ltb_other_r (x : string) : x <> "Other" -> col_ltb x "Other" = true.
Proof.
  intros H. unfold col_ltb. apply String.eqb_neq in H. now rewrite H.
Qed.

Lemma insert_col_nonempty (x : string) (l : list string) : insert_col x l <> [].
Proof.
  destruct l as [|y r]; simpl; [discriminate|].
  destruct (String.eqb x y); [discriminate|].
  destruct (col_ltb x y); discriminate.
Qed.

Lemma insert_col_other_last (x : string) (l : list string) :
  other_last l -> other_last (insert_col x l).
Proof.
  induction l as [|y r IH]; simpl.
  - intros _. split; [reflexivity | exact I].
  - intros [Hy Hr]. destruct (String.eqb x y) eqn:Hxy; [now split|].
    apply String.eqb_neq in Hxy.
    destruct (col_ltb x y) eqn:Hlt.
    + split; [|now split].
      intros ->. rewrite col_ltb_other_l in Hlt; [discriminate | congruence].
    + split; [|now apply IH].
      intros ->. rewrite col_ltb_other_r in Hlt; [discriminate | exact Hxy].
Qed.

Lemma sorted_set_other_last (aas : list string) : other_last (sorted_set aas).
Proof.
  induction aas as [|x l IH]; simpl; [exact I | now apply insert_col_other_last].
Qed.

Lemma other_last_filter (l : list string) :
  other_last l -> In "Other" l ->
  last (List.filter is_other l) = Some "Other".
Proof.
  induction l as [|y r IH]; simpl; [contradiction|].
  intros [Hy Hr] [->|Hin].
  - rewrite (Hy eq_refl). reflexivity.
  - specialize (IH Hr Hin). destruct (is_other y); [|exact IH].
    rewrite last_cons, IH. reflexivity.
Qed.

Lemma is_other_spec (c : string) : is_other c = true <-> lower c = "other".
Proof. unfold is_other. apply String.eqb_eq. Qed.

(** C6, as stated, fails: the labels "OTHER" and "other" are not the
    label "Other", they precede it in the column ordering, and they stand
    in ascending, not descending, order of mean proportion. *)
Lemma other_case_variants_unsorted :
  exists fig,
    render_position 7 Sample.hist_case Sample.sheet Sample.aa_df Sample.mapping
    = Ok fig
    /\ fig_aa_order fig = ["OTHER"; "other"; "Other"]
    /\ (col_mean (fig_mat fig) "OTHER" < col_mean (fig_mat fig) "other")%Q.
Proof.
  eexists. split; [vm_compute; reflexivity|].
  split; vm_compute; reflexivity.
Qed.

(** C6, amended. The column ordering of the normalized table splits
    into two runs. The first holds the labels that are not "Other" up to
    letter case, sorted by descending mean proportion across the years.
    The second holds the labels equal to "Other" up to letter case, and
    when the label "Other" itself is among the columns it is the last
    label of the ordering, whatever its mean. The ordering is a
    rearrangement of the table's columns. *)
Theorem other_labels_last (df : HistTable) (sub : list HistRow) :
  let mat := safe_normalize (aggregate df sub) in
  exists main others : list string,
    aa_order mat = (main ++ others)%list
    /\ Permutation (aa_order mat) (mat_columns mat)
    /\ Forall (fun c => lower c <> "other") main
    /\ Forall (fun c => lower c = "other") others
    /\ StronglySorted (fun a b => (col_mean mat b <= col_mean mat a)%Q) main
    /\ (In "Other" (mat_columns mat) -> last (aa_order mat) = Some "Other").
Proof.
  intros mat.
  assert (Hcols : other_last (mat_columns mat)) by apply sorted_set_other_last.
  clearbody mat. unfold aa_order.
  set (cols := mat_columns mat) in *.
  exists (sorted_desc (col_mean mat) (List.filter (fun c => negb (is_other c)) cols)),
         (List.filter is_other cols).
  split; [reflexivity|]. split; [|split; [|split; [|split]]].
  - rewrite sorted_desc_perm. apply filter_split_perm.
  - eapply Permutation_Forall; [symmetry; apply sorted_desc_perm|].
    apply Forall_forall. intros c Hc.
    apply list_elem_of_In, filter_In in Hc as [_ Hc].
    intros Hl. apply is_other_spec in Hl. rewrite Hl in Hc. discriminate.
  - apply Forall_forall. intros c Hc.
    apply list_elem_of_In, filter_In in Hc as [_ Hc]. now apply is_other_spec.
  - apply sorted_desc_sorted.
  - intros Hin. rewrite last_app, (other_last_filter cols Hcols Hin). reflexivity.
Qed.

Lemma other_labels_last_witness :
  last (aa_order (safe_normalize (aggregate Sample.hist_case
                                     (hist_rows Sample.hist_case))))
  = Some "Other".
Proof.
  destruct (other_labels_last Sample.hist_case (hist_rows Sample.hist_case))
    as (main & others & _ & _ & _ & _ & _ & H).
  apply H. vm_compute. auto.
Defined.

(* ===================================================================== *)
(** ** C9: which anomalies abort the render *)
(* ===================================================================== *)

Lemma map_result_raise {A B} (f : A -> result B) (l : list A) (e : pyerr) :
  map_result f l = Raise e -> exists x, In x l /\ f x = Raise e.
Proof.
  induction l as [|x l IH]; simpl; [discriminate|].
  unfold_result.
  destruct (f x) as [y|e'] eqn:Hx; simpl.
  - destruct (map_result f l) as [ys|e'']; simpl; [discriminate|].
    intros H. injection H as <-. destruct (IH eq_refl) as (x' & Hin & Hx').
    exists x'. auto.
  - intros H. injection H as <-. exists x. auto.
Qed.


Lemma int_raise (v : pyval) (e : pyerr) : int v = Raise e -> int_error e.
Proof.
  unfold int_error. destruct v as [| |z|s]; simpl.
  - intros H. injection H as <-. auto.
  - intros H. injection H as <-. auto.
  - discriminate.
  - destruct (parse_int s); [discriminate|].
    intros H. injection H as <-. auto.
Qed.


Lemma faces_of_raise (ws : Worksheet) (mabs : list Z) (e : pyerr) :
  faces_of ws mabs = Raise e -> sheet_error e.
Proof.
  unfold faces_of. intros H.
  apply map_result_raise in H as (m & _ & H).
  apply map_result_raise in H as (c & _ & H).
  unfold face, ws_cell, sheet_error in *. unfold_result.
  destruct (cluster_cols ws !! c) as [col|]; [|injection H as <-; auto].
  destruct (find_row ws m) as [r|]; simpl in H; [|injection H as <-; auto].
  destruct ((r <? 1)%nat || (col <? 1)%nat); simpl in H;
    [injection H as <-; auto | discriminate].
Qed.

Lemma annotate_raise (P : Z) (mabs : list Z) (st : Marks) (rr : MutRow)
    (e : pyerr) :
  annotate P mabs st rr = Raise e -> int (MutationPosition rr) = Raise e.
Proof.
  unfold annotate. unfold_result.
  destruct (int (MutationPosition rr)) as [p|e']; simpl;
    [|intros H; now injection H as <-].
  destruct (negb (p =? P)); [discriminate|].
  destruct (parse_int _); [|discriminate].
  destruct (match_mab _ _); [|discriminate].
  destruct (strip (str (PointMutation rr))); [discriminate|].
  destruct (index_of _ _); [|discriminate].
  destruct (_ =? _)%nat; discriminate.
Qed.

Lemma annotate_all_raise (P : Z) (mabs : list Z) (aa_df : list MutRow)
    (st : Marks) (e : pyerr) :
  annotate_all P mabs st aa_df = Raise e -> int_error e.
Proof.
  revert st. induction aa_df as [|rr l IH]; intros st; simpl; [discriminate|].
  unfold_result.
  destruct (annotate P mabs st rr) as [st'|e'] eqn:Hs; simpl.
  - apply IH.
  - intros H. injection H as <-.
    apply annotate_raise in Hs. eapply int_raise, Hs.
Qed.


(** Once the mapping document has loaded, the no-data error is raised
    exactly when no histogram row has the requested position. *)
Lemma no_data_error_iff (position : Z) (hist : HistTable) (neut : Worksheet)
    (aa_df : list MutRow) (mapping : list MapRec) (m : gmap Z (list Z)) :
  load_position_mabs mapping = Ok m ->
  (render_position position hist neut aa_df mapping
   = Raise (no_data_error position)
   <-> position_rows position hist = []).
Proof.
  intros Hm. unfold render_position. unfold_result. rewrite Hm. simpl.
  destruct (position_rows position hist) as [|r0 rest]; [tauto|].
  split; [|discriminate].
  destruct (0 <? length (default [] (m !! position)))%nat; simpl;
    [|discriminate].
  destruct (faces_of neut _) as [faces|e] eqn:Hf; simpl.
  - destruct (annotate_all _ _ _ _) as [st|e] eqn:Ha; simpl; [discriminate|].
    intros H. injection H as ->.
    apply annotate_all_raise in Ha as [Ha|[Ha|Ha]]; discriminate.
  - intros H. injection H as ->.
    apply faces_of_raise in Hf as [Hf|[Hf|Hf]]; discriminate.
Qed.

(** A matching row with a blank point-mutation field is passed over. *)
Lemma annotate_skips_blank_mutation (P : Z) (mabs : list Z) (st : Marks)
    (rr : MutRow) (p : Z) :
  int (MutationPosition rr) = Ok p ->
  strip (str (PointMutation rr)) = EmptyString ->
  annotate P mabs st rr = Ok st.
Proof.
  intros Hp Hmut. unfold annotate. unfold_result. rewrite Hp. simpl.
  destruct (negb (p =? P)); [reflexivity|].
  destruct (parse_int _); [|reflexivity].
  destruct (match_mab _ _); [|reflexivity].
  now rewrite Hmut.
Qed.

(** A row whose antibody identifier does not parse is passed over. *)
Lemma annotate_skips_bad_id (P : Z) (mabs : list Z) (st : Marks)
    (rr : MutRow) (p : Z) :
  int (MutationPosition rr) = Ok p ->
  parse_int (strip (str (mAB_ID rr))) = None ->
  annotate P mabs st rr = Ok st.
Proof.
  intros Hp Hid. unfold annotate. unfold_result. rewrite Hp. simpl.
  destruct (negb (p =? P)); [reflexivity|]. now rewrite Hid.
Qed.

(** C9 on a failed sheet lookup. Position 160 has histogram rows and is
    mapped to antibody 999, which column B of the sheet does not list.
    [find_row] returns no row, the face extraction hands that to the
    worksheet, and the render aborts with a [TypeError] instead of
    passing the antibody over. *)
Theorem unlisted_antibody_aborts :
  position_rows 160 Sample.hist = [Sample.row_A; Sample.row_S2; Sample.row_B]
  /\ (exists m, load_position_mabs Sample.mapping_unlisted = Ok m
                /\ m !! 160 = Some [999])
  /\ find_row Sample.sheet 999 = None
  /\ render_position 160 Sample.hist Sample.sheet Sample.aa_df
       Sample.mapping_unlisted
     = Raise TypeError.
Proof.
  split; [reflexivity|]. split.
  - eexists. split; vm_compute; reflexivity.
  - split; vm_compute; reflexivity.
Qed.

(* ===================================================================== *)
(** ** Integers and their decimal text *)
(* ===================================================================== *)

Lemma lstrip_no_space (s : string) : no_space s = true -> lstrip s = s.
Proof.
  destruct s as [|c r]; simpl; [reflexivity|].
  destruct (isspace c); [discriminate | reflexivity].
Qed.

Lemma rstrip_no_space (s : string) : no_space s = true -> rstrip s = s.
Proof.
  induction s as [|c r IH]; simpl; [reflexivity|].
  destruct (isspace c) eqn:Hc; simpl; [discriminate|].
  intros Hr. rewrite (IH Hr). destruct r; reflexivity.
Qed.

Lemma strip_no_space (s : string) : no_space s = true -> strip s = s.
Proof.
  intros H. unfold strip. rewrite (lstrip_no_space s H). now apply rstrip_no_space.
Qed.

Lemma no_space_digits (d : Decimal.uint) :
  no_space (NilEmpty.string_of_uint d) = true.
Proof. induction d; simpl; auto. Qed.

Lemma parse_digits_acc (d : Decimal.uint) (p : positive) :
  parse_digits (Z.pos p) true (NilEmpty.string_of_uint d)
  = Some (Z.pos (Pos.of_uint_acc d p)).
Proof.
  revert p. induction d; intros p; [reflexivity | ..];
    cbn [NilEmpty.string_of_uint Pos.of_uint_acc];
    rewrite <- IHd; cbn [parse_digits]; cbv [Ascii.eqb Bool.eqb digit_of];
    simpl N_of_ascii; cbv iota beta; simpl andb; cbv iota;
    f_equal; lia.
Qed.

Lemma parse_digits_uint (d : Decimal.uint) (prev : bool) :
  d <> Decimal.Nil \/ prev = true ->
  parse_digits 0 prev (NilEmpty.string_of_uint d) = Some (Z.of_N (Pos.of_uint d)).
Proof.
  revert prev. induction d; intros prev Hd;
    [destruct Hd as [Hd| ->]; [congruence | reflexivity] | ..];
    cbn [NilEmpty.string_of_uint Pos.of_uint];
    cbn [parse_digits]; cbv [Ascii.eqb Bool.eqb digit_of];
    simpl N_of_ascii; cbv iota beta; simpl andb; cbv iota;
    first [ apply IHd; now right | apply (parse_digits_acc d) ].
Qed.

Lemma parse_int_decimal (d : Decimal.uint) :
  d <> Decimal.Nil ->
  parse_int (NilEmpty.string_of_uint d) = Some (Z.of_N (Pos.of_uint d))
  /\ parse_int (String "-" (NilEmpty.string_of_uint d))
     = Some (- Z.of_N (Pos.of_uint d)).
Proof.
  intros Hd. unfold parse_int. split.
  - rewrite strip_no_space by apply no_space_digits.
    rewrite <- (parse_digits_uint d false) by now left.
    destruct d; [congruence | reflexivity ..].
  - rewrite strip_no_space by (simpl; apply no_space_digits).
    now rewrite (parse_digits_uint d false) by now left.
Qed.

Lemma parse_int_str_of_Z (z : Z) : parse_int (str_of_Z z) = Some z.
Proof.
  unfold str_of_Z. rewrite <- (DecimalZ.of_to z) at 2.
  destruct z as [|p|p]; simpl Z.to_int.
  - reflexivity.
  - pose proof (DecimalPos.Unsigned.to_uint_nonnil p) as Hn.
    unfold NilZero.string_of_int, NilZero.string_of_uint.
    destruct (Pos.to_uint p) eqn:Hp; [congruence | ..];
      rewrite <- Hp; apply parse_int_decimal; congruence.
  - pose proof (DecimalPos.Unsigned.to_uint_nonnil p) as Hn.
    unfold NilZero.string_of_int, NilZero.string_of_uint.
    destruct (Pos.to_uint p) eqn:Hp; [congruence | ..];
      rewrite <- Hp; apply parse_int_decimal; congruence.
Qed.


(* ===================================================================== *)
(** ** The neutralization sheet: row lookup and header *)
(* ===================================================================== *)

Lemma find_row_spec (ws : Worksheet) (m : Z) :
  (forall r, find_row ws m = Some r ->
     (3 <= r <= max_row ws)%nat
     /\ (exists z, int (value (ws_at ws r 2)) = Ok z /\ Z.abs z = Z.abs m)
     /\ forall r', (3 <= r' < r)%nat ->
          id_matches m (value (ws_at ws r' 2)) = false)
  /\ (find_row ws m = None <->
      forall r', (3 <= r' <= max_row ws)%nat ->
        id_matches m (value (ws_at ws r' 2)) = false).
Proof.
  unfold find_row.
  pose proof (find_seq_spec (fun rr => id_matches m (value (ws_at ws rr 2)))
                3 (max_row ws - 2)) as H.
  destruct (List.find _ _) as [r0|].
  - destruct H as (H1 & H2 & H3). split.
    + intros r Hr. injection Hr as <-. split; [lia|].
      split; [now apply id_matches_iff | exact H3].
    + split; [discriminate|]. intros Hall.
      rewrite Hall in H2; [discriminate | lia].
  - split; [discriminate|]. split; [|reflexivity].
    intros _ r' Hr'. apply H. lia.
Qed.

(** X2. [find_row] returns the first row, from row 3 down to the last
    row of the sheet, whose column-B value converts to an integer equal
    to [m] up to sign: the two header rows are never returned, no
    earlier row matches, and it returns nothing exactly when no row from
    3 on matches. *)
Theorem find_row_first_match (ws : Worksheet) (m : Z) :
  (forall r, find_row ws m = Some r ->
     (3 <= r <= max_row ws)%nat
     /\ (exists z, int (value (ws_at ws r 2)) = Ok z /\ Z.abs z = Z.abs m)
     /\ forall r', (3 <= r' < r)%nat ->
          id_matches m (value (ws_at ws r' 2)) = false)
  /\ (find_row ws m = None <->
      forall r', (3 <= r' <= max_row ws)%nat ->
        id_matches m (value (ws_at ws r' 2)) = false).
Proof. exact (find_row_spec ws m). Qed.

Lemma find_row_first_match_witness :
  find_row Sample.sheet 117 = Some 4%nat
  /\ (exists z, int (value (ws_at Sample.sheet 4 2)) = Ok z
                /\ Z.abs z = Z.abs 117)
  /\ id_matches 117 (value (ws_at Sample.sheet 3 2)) = false.
Proof.
  assert (H : find_row Sample.sheet 117 = Some 4%nat) by reflexivity.
  destruct (proj1 (find_row_first_match Sample.sheet 117) 4%nat H)
    as (_ & H2 & H3).
  split; [exact H|]. split; [exact H2|]. apply H3. lia.
Defined.

Lemma cluster_name_of_iff (v : pyval) (n : string) :
  cluster_name_of v = Some n <-> v = PStr n /\ In n CLUSTER_NAMES.
Proof.
  unfold cluster_name_of. destruct v as [| |z|s];
    try (split; [discriminate | intros [H _]; discriminate]).
  destruct (str_in s CLUSTER_NAMES) eqn:Hs.
  - unfold str_in in Hs. apply existsb_exists in Hs as (x & Hx & Hsx).
    apply String.eqb_eq in Hsx. subst x.
    split.
    + intros H. injection H as <-. auto.
    + intros [H _]. now injection H as <-.
  - split; [discriminate|]. intros [H Hin]. injection H as ->.
    assert (str_in n CLUSTER_NAMES = true); [|congruence].
    unfold str_in. apply existsb_exists. exists n.
    split; [exact Hin | apply String.eqb_refl].
Qed.

Lemma header_fold_spec (f : nat -> option string) (a k : nat)
    (d : gmap string nat) (n : string) (c : nat) :
  fold_left (fun d c => match f c with
                        | Some n => <[n := c]> d
                        | None => d
                        end) (seq a k) d !! n = Some c
  <-> ((a <= c < a + k)%nat /\ f c = Some n
       /\ forall c', (c < c' < a + k)%nat -> f c' <> Some n)
      \/ (d !! n = Some c
          /\ forall c', (a <= c' < a + k)%nat -> f c' <> Some n).
Proof.
  revert a d. induction k as [|k IH]; intros a d; simpl.
  - split.
    + intros H. right. split; [exact H|]. intros c' Hc'. lia.
    + intros [(H & _)|(H & _)]; [lia | exact H].
  - rewrite IH. clear IH. split.
    + intros [(H1 & H2 & H3)|(H1 & H2)].
      * left. split; [lia|]. split; [exact H2|]. intros c' Hc'. apply H3. lia.
      * destruct (f a) as [n'|] eqn:Ha.
        -- destruct (decide (n' = n)) as [->|Hne].
           ++ rewrite lookup_insert_eq in H1. injection H1 as <-.
              left. split; [lia|]. split; [exact Ha|].
              intros c' Hc'. apply H2. lia.
           ++ rewrite lookup_insert_ne in H1 by exact Hne.
              right. split; [exact H1|]. intros c' Hc'.
              destruct (Nat.eq_dec c' a) as [->|Hca]; [congruence|].
              apply H2. lia.
        -- right. split; [exact H1|]. intros c' Hc'.
           destruct (Nat.eq_dec c' a) as [->|Hca]; [congruence|].
           apply H2. lia.
    + intros [(H1 & H2 & H3)|(H1 & H2)].
      * destruct (Nat.eq_dec c a) as [->|Hca].
        -- right. rewrite H2. rewrite lookup_insert_eq.
           split; [reflexivity|]. intros c' Hc'. apply H3. lia.
        -- left. split; [lia|]. split; [exact H2|].
           intros c' Hc'. apply H3. lia.
      * right. assert (Ha : f a <> Some n) by (apply H2; lia).
        split; [|intros c' Hc'; apply H2; lia].
        destruct (f a) as [n'|]; [|exact H1].
        rewrite lookup_insert_ne; [exact H1 | congruence].
Qed.

Lemma cluster_cols_spec (ws : Worksheet) (n : string) (c : nat) :
  cluster_cols ws !! n = Some c
  <-> (1 <= c <= max_column ws)%nat
      /\ value (ws_at ws 2 c) = PStr n
      /\ In n CLUSTER_NAMES
      /\ forall c', (c < c' <= max_column ws)%nat ->
           value (ws_at ws 2 c') <> PStr n.
Proof.
  unfold cluster_cols.
  rewrite (header_fold_spec (fun c => cluster_name_of (value (ws_at ws 2 c)))).
  rewrite lookup_empty. split.
  - intros [(H1 & H2 & H3)|(H & _)]; [|discriminate].
    apply cluster_name_of_iff in H2 as [H2 Hin].
    split; [lia|]. split; [exact H2|]. split; [exact Hin|].
    intros c' Hc' Hv. apply (H3 c'); [lia|].
    apply cluster_name_of_iff. auto.
  - intros (H1 & H2 & Hin & H3). left. split; [lia|].
    split; [apply cluster_name_of_iff; auto|].
    intros c' Hc' Hv. apply cluster_name_of_iff in Hv as [Hv _].
    apply (H3 c'); [lia | exact Hv].
Qed.

(** X3. The header dictionary maps a cluster name to the rightmost
    column of row 2 that holds it: [cluster_cols] sends [n] to column [c]
    exactly when [c] lies within the sheet's columns, row 2 holds the
    text [n] there, [n] is one of the cluster names, and no column to the
    right of [c] holds [n]. *)
Theorem cluster_cols_rightmost (ws : Worksheet) (n : string) (c : nat) :
  cluster_cols ws !! n = Some c
  <-> (1 <= c <= max_column ws)%nat
      /\ value (ws_at ws 2 c) = PStr n
      /\ In n CLUSTER_NAMES
      /\ forall c', (c < c' <= max_column ws)%nat ->
           value (ws_at ws 2 c') <> PStr n.
Proof. exact (cluster_cols_spec ws n c). Qed.

Lemma cluster_cols_rightmost_witness :
  value (ws_at Sample.sheet 2 3) = PStr "HK68" /\ In "HK68" CLUSTER_NAMES.
Proof.
  destruct (proj1 (cluster_cols_rightmost Sample.sheet "HK68" 3) eq_refl)
    as (_ & H2 & H3 & _).
  split; [exact H2 | exact H3].
Defined.

(* ===================================================================== *)
(** ** When the resolver succeeds *)
(* ===================================================================== *)

Lemma map_result_ok_length {A B} (f : A -> result B) (l : list A) (ys : list B) :
  map_result f l = Ok ys -> length ys = length l.
Proof.
  revert ys. induction l as [|x l IH]; intros ys; simpl.
  - intros H. now injection H as <-.
  - unfold_result. destruct (f x) as [y|e]; simpl; [|discriminate].
    destruct (map_result f l) as [ys'|e]; simpl; [|discriminate].
    intros H. injection H as <-. simpl. f_equal. now apply IH.
Qed.

Lemma map_result_ok_Forall {A B} (P : B -> Prop) (f : A -> result B)
    (l : list A) (ys : list B) :
  (forall x y, In x l -> f x = Ok y -> P y) ->
  map_result f l = Ok ys -> Forall P ys.
Proof.
  revert ys. induction l as [|x l IH]; intros ys HP; simpl.
  - intros H. injection H as <-. constructor.
  - unfold_result. destruct (f x) as [y|e] eqn:Hx; simpl; [|discriminate].
    destruct (map_result f l) as [ys'|e]; simpl; [|discriminate].
    intros H. injection H as <-. constructor.
    + apply (HP x); auto. now left.
    + apply IH; [|reflexivity]. intros x' y' Hin. apply HP. now right.
Qed.

Lemma map_result_ok_iff {A B} (f : A -> result B) (l : list A) :
  (exists ys, map_result f l = Ok ys) <-> forall x, In x l -> exists y, f x = Ok y.
Proof.
  induction l as [|x l IH]; simpl.
  - split; [intros _ x [] | intros _; now exists []].
  - unfold_result. split.
    + intros [ys H] x' [<-|Hin].
      * destruct (f x) as [y|e]; [now exists y | discriminate].
      * destruct (f x) as [y|e]; simpl in H; [|discriminate].
        destruct (map_result f l) as [ys'|e] eqn:Hl; simpl in H; [|discriminate].
        apply (proj1 IH); [now exists ys' | exact Hin].
    + intros Hall. destruct (Hall x) as [y Hy]; [now left|].
      rewrite Hy. simpl.
      destruct (proj2 IH) as [ys Hys]; [intros x' Hx'; apply Hall; now right|].
      rewrite Hys. simpl. now exists (y :: ys).
Qed.

Lemma face_ok_iff (ws : Worksheet) (m : Z) (c : string) :
  (exists h, face ws (cluster_cols ws) (find_row ws m) c = Ok h)
  <-> is_Some (cluster_cols ws !! c) /\ is_Some (find_row ws m).
Proof.
  unfold face. unfold_result.
  destruct (cluster_cols ws !! c) as [col|] eqn:Hc.
  - apply cluster_cols_spec in Hc as (Hcol & _).
    destruct (find_row ws m) as [r|] eqn:Hr; simpl.
    + apply (proj1 (find_row_spec ws m)) in Hr as (Hr & _).
      assert (H1 : (r <? 1)%nat = false) by (apply Nat.ltb_ge; lia).
      assert (H2 : (col <? 1)%nat = false) by (apply Nat.ltb_ge; lia).
      rewrite H1, H2. simpl. split; [intros _; split; eauto | eauto].
    + split; [intros [h H]; discriminate | intros [_ [x H]]; discriminate].
  - split; [intros [h H]; discriminate | intros [[x H] _]; discriminate].
Qed.

Lemma faces_of_spec (ws : Worksheet) (mabs : list Z) :
  ((exists faces, faces_of ws mabs = Ok faces)
   <-> mabs = [] \/ (header_complete ws /\ all_listed ws mabs))
  /\ (forall faces, faces_of ws mabs = Ok faces ->
        length faces = length mabs
        /\ Forall (fun row => length row = length CLUSTERS) faces).
Proof.
  unfold faces_of. split.
  - rewrite map_result_ok_iff. split.
    + intros Hall. destruct mabs as [|m0 l]; [now left|]. right.
      assert (Hrow : forall m, In m (m0 :: l) ->
                forall c, In c CLUSTER_NAMES ->
                  is_Some (cluster_cols ws !! c) /\ is_Some (find_row ws m)).
      { intros m Hm c Hc. apply face_ok_iff.
        destruct (Hall m Hm) as [row Hrow].
        assert (Hex : exists ys, map_result
                        (face ws (cluster_cols ws) (find_row ws m))
                        CLUSTER_NAMES = Ok ys) by eauto.
        rewrite map_result_ok_iff in Hex. now apply Hex. }
      split.
      * intros c Hc. apply (Hrow m0); [now left | exact Hc].
      * intros m Hm. apply (Hrow m Hm "HK68"). now left.
    + intros [->|[Hh Hl]] m Hm; [destruct Hm|].
      apply map_result_ok_iff. intros c Hc. apply face_ok_iff. auto.
  - intros faces H. split; [now apply map_result_ok_length in H|].
    eapply map_result_ok_Forall; [|exact H].
    intros m row _ Hrow. cbv beta in Hrow.
    apply map_result_ok_length in Hrow. rewrite Hrow. reflexivity.
Qed.

(** X4. The face extraction succeeds exactly when the antibody list is
    empty, or row 2 names every cluster and every antibody of the list
    has a row in the sheet; and when it succeeds it yields one row of
    colours per antibody, each with one colour per cluster. *)
Theorem faces_of_succeeds (ws : Worksheet) (mabs : list Z) :
  ((exists faces, faces_of ws mabs = Ok faces)
   <-> mabs = [] \/ (header_complete ws /\ all_listed ws mabs))
  /\ (forall faces, faces_of ws mabs = Ok faces ->
        length faces = length mabs
        /\ Forall (fun row => length row = length CLUSTERS) faces).
Proof. exact (faces_of_spec ws mabs). Qed.

Lemma faces_of_succeeds_witness :
  faces_of Sample.sheet [117; 225] = Ok SampleMore.faces
  /\ length SampleMore.faces = 2%nat
  /\ Forall (fun row => length row = length CLUSTERS) SampleMore.faces.
Proof.
  assert (H : faces_of Sample.sheet [117; 225] = Ok SampleMore.faces)
    by reflexivity.
  destruct (proj2 (faces_of_succeeds Sample.sheet [117; 225]) _ H) as [H1 H2].
  split; [exact H|]. split; [exact H1 | exact H2].
Defined.

(* ===================================================================== *)
(** ** Invariants of the annotation loop *)
(* ===================================================================== *)

Lemma match_mab_In (mabs : list Z) (p m : Z) :
  match_mab mabs p = Some m -> In m mabs /\ Z.abs m = Z.abs p.
Proof.
  unfold match_mab. intros H. apply find_some in H as [H1 H2].
  split; [exact H1 | now apply Z.eqb_eq].
Qed.

Lemma index_of_lookup {A} `{EqDecision A} (x : A) (l : list A) (i : nat) :
  index_of x l = Some i -> l !! i = Some x.
Proof.
  unfold index_of. destruct (list_find _ l) as [[j y]|] eqn:H; [|discriminate].
  simpl. intros Hj. injection Hj as <-.
  apply list_find_Some in H as (H1 & H2 & _). now subst.
Qed.

Lemma annotate_keeps_range (position : Z) (mabs : list Z) (st st' : Marks)
    (rr : MutRow) :
  marks_in_range mabs st ->
  annotate position mabs st rr = Ok st' ->
  marks_in_range mabs st'.
Proof.
  intros [Hm Ha]. unfold annotate. unfold_result.
  destruct (int (MutationPosition rr)) as [p|e]; simpl; [|discriminate].
  destruct (negb (p =? position));
    [intros H; injection H as <-; now split|].
  destruct (parse_int _) as [m_parsed|];
    [|intros H; injection H as <-; now split].
  destruct (match_mab mabs m_parsed) as [m|] eqn:Hmatch;
    [|intros H; injection H as <-; now split].
  apply match_mab_In in Hmatch as [Hin _].
  destruct (strip (str (PointMutation rr))) as [|wt rest];
    [intros H; injection H as <-; now split|].
  destruct (index_of _ CLUSTER_NAMES) as [idx|] eqn:Hidx;
    [|intros H; injection H as <-; now split].
  apply index_of_lookup, lookup_lt_Some in Hidx.
  destruct (idx =? _)%nat eqn:Hlast;
    intros H; injection H as <-; split; simpl.
  - exact Hm.
  - intros m' Hm'. apply in_app_or in Hm' as [Hm'|[<-|[]]]; auto.
  - intros m' idx' wt' mut' Hl.
    destruct (decide (m = m')) as [<-|Hne].
    + rewrite lookup_insert_eq in Hl. injection Hl as <- <- <-.
      apply Nat.eqb_neq in Hlast. split; [exact Hin|].
      change (length CLUSTER_NAMES) with 16%nat in *.
      change (length CLUSTERS) with 16%nat. lia.
    + rewrite lookup_insert_ne in Hl by exact Hne. eauto.
  - exact Ha.
Qed.

Lemma annotate_all_keeps_range (position : Z) (mabs : list Z)
    (aa_df : list MutRow) (st st' : Marks) :
  marks_in_range mabs st ->
  annotate_all position mabs st aa_df = Ok st' ->
  marks_in_range mabs st'.
Proof.
  revert st. induction aa_df as [|rr l IH]; intros st Hst; simpl.
  - intros H. now injection H as <-.
  - unfold_result.
    destruct (annotate position mabs st rr) as [st1|e] eqn:H1; simpl;
      [|discriminate].
    apply IH. eapply annotate_keeps_range; eauto.
Qed.

(** X5. Whatever the annotation table holds, the marks the loop returns
    name only antibodies of the position's list, and every positioned
    mutation sits at a cluster index that has a successor: the mutant
    letter's cell [j+1] always exists among the clusters. *)
Theorem annotation_marks_in_range (position : Z) (mabs : list Z)
    (aa_df : list MutRow) (st : Marks) :
  annotate_all position mabs no_marks aa_df = Ok st ->
  (forall m idx wt mut_aa,
      mutations st !! m = Some (idx, wt, mut_aa) ->
      In m mabs /\ is_Some (CLUSTERS !! (idx + 1)%nat))
  /\ (forall m, In m (asterisk_mabs st) -> In m mabs).
Proof.
  intros H.
  assert (H0 : marks_in_range mabs no_marks).
  { split; [intros m idx wt mu Hl; simpl in Hl; now rewrite lookup_empty in Hl
           | intros m []]. }
  destruct (annotate_all_keeps_range _ _ _ _ _ H0 H) as [Hm Ha].
  split; [|exact Ha].
  intros m idx wt mu Hl. destruct (Hm _ _ _ _ Hl) as [Hin Hlt].
  split; [exact Hin | now apply lookup_lt_is_Some].
Qed.

Lemma annotation_marks_in_range_witness :
  annotate_all 160 [117; 225] no_marks Sample.aa_df = Ok SampleMore.marks
  /\ (In 117 [117; 225] /\ is_Some (CLUSTERS !! (7 + 1)%nat))
  /\ In 225 [117; 225].
Proof.
  assert (H : annotate_all 160 [117; 225] no_marks Sample.aa_df
              = Ok SampleMore.marks) by reflexivity.
  destruct (annotation_marks_in_range 160 [117; 225] Sample.aa_df _ H)
    as [H1 H2].
  split; [exact H|]. split.
  - apply (H1 117 7%nat "K"%char "T"%char). reflexivity.
  - apply H2. simpl. auto.
Defined.

(* ===================================================================== *)
(** ** When [render_position] succeeds *)
(* ===================================================================== *)

Lemma annotate_ok (position : Z) (mabs : list Z) (st : Marks) (rr : MutRow)
    (p : Z) :
  int (MutationPosition rr) = Ok p ->
  exists st', annotate position mabs st rr = Ok st'.
Proof.
  intros Hp. unfold annotate. unfold_result. rewrite Hp. simpl.
  destruct (negb (p =? position)); [eauto|].
  destruct (parse_int _); [|eauto].
  destruct (match_mab _ _); [|eauto].
  destruct (strip (str (PointMutation rr))); [eauto|].
  destruct (index_of _ _); [|eauto].
  destruct (_ =? _)%nat; eauto.
Qed.

Lemma annotate_all_ok_iff (position : Z) (mabs : list Z) (aa_df : list MutRow)
    (st : Marks) :
  (exists st', annotate_all position mabs st aa_df = Ok st')
  <-> positions_convert aa_df.
Proof.
  unfold positions_convert. revert st.
  induction aa_df as [|rr l IH]; intros st; simpl.
  - split; [intros _ rr [] | eauto].
  - unfold_result. split.
    + intros [st' H] rr' [<-|Hin].
      * destruct (annotate position mabs st rr) as [st1|e] eqn:H1;
          simpl in H; [|discriminate].
        destruct (int (MutationPosition rr)) as [p|e] eqn:Hp; [eauto|].
        unfold annotate in H1. unfold_result. rewrite Hp in H1. discriminate.
      * destruct (annotate position mabs st rr) as [st1|e] eqn:H1;
          simpl in H; [|discriminate].
        apply (proj1 (IH st1)); eauto.
    + intros Hall. destruct (Hall rr) as [p Hp]; [now left|].
      destruct (annotate_ok position mabs st rr p Hp) as [st1 H1].
      rewrite H1. simpl. apply IH. intros rr' Hrr'. apply Hall. now right.
Qed.

(** X6. The statements of [render_position] that precede the drawing
    (mapping, histogram table, faces, annotation loop, heights) all
    complete, so that the data of the figure is resolved, exactly when
    the mapping document loads, the histogram has a row for the position,
    and either the position has no antibody or row 2 of the sheet names
    every cluster, every antibody of the position has a row in the sheet,
    and the position cell of every annotation row converts to an
    integer. *)
Theorem render_succeeds_iff (position : Z) (hist : HistTable)
    (neut : Worksheet) (aa_df : list MutRow) (mapping : list MapRec) :
  (exists fig, render_position position hist neut aa_df mapping = Ok fig)
  <-> exists pos_to_mabs,
        load_position_mabs mapping = Ok pos_to_mabs
        /\ position_rows position hist <> []
        /\ let mabs := default [] (pos_to_mabs !! position) in
           mabs = []
           \/ (header_complete neut /\ all_listed neut mabs
               /\ positions_convert aa_df).
Proof.
  unfold render_position. unfold_result.
  destruct (load_position_mabs mapping) as [m|e]; simpl;
    [|split; [intros [fig H]; discriminate | intros (m & H & _); discriminate]].
  destruct (position_rows position hist) as [|r0 rest];
    [split; [intros [fig H]; discriminate | intros (m' & _ & H & _); congruence]|].
  set (mabs := default [] (m !! position)).
  pose proof (proj1 (faces_of_spec neut mabs)) as Hfaces.
  pose proof (annotate_all_ok_iff position mabs aa_df no_marks) as Hann.
  split.
  - intros [fig H]. exists m. split; [reflexivity|]. split; [discriminate|].
    fold mabs. cbv zeta.
    destruct mabs as [|a l] eqn:Hmabs; [now left|]. right.
    cbn [length Nat.ltb Nat.leb] in H.
    destruct (faces_of neut (a :: l)) as [faces|e] eqn:Hf; simpl in H;
      [|discriminate].
    destruct (annotate_all position (a :: l) no_marks aa_df) as [st|e] eqn:Ha;
      simpl in H; [|discriminate].
    destruct (proj1 Hfaces) as [Hnil|[Hh Hl]]; [eauto | discriminate |].
    split; [exact Hh|]. split; [exact Hl|]. apply Hann. eauto.
  - intros (m' & Hm' & _ & Hcase). injection Hm' as <-. fold mabs in Hcase.
    cbv zeta in Hcase. destruct Hcase as [Hnil|(Hh & Hl & Hp)].
    + rewrite Hnil. simpl. eauto.
    + destruct (0 <? length mabs)%nat; simpl; [|eauto].
      destruct (proj2 Hfaces) as [faces Hf]; [now right|].
      destruct (proj2 Hann Hp) as [st Hst].
      rewrite Hf, Hst. simpl. eauto.
Qed.

Lemma sample_header_complete : header_complete Sample.sheet.
Proof.
  intros c Hc. simpl in Hc.
  repeat (destruct Hc as [<-|Hc]; [vm_compute; eauto|]). destruct Hc.
Qed.

Lemma sample_all_listed : all_listed Sample.sheet [117; 225].
Proof.
  intros m [<-|[<-|[]]]; vm_compute; eauto.
Qed.

Lemma render_succeeds_iff_witness :
  exists fig,
    render_position 160 Sample.hist Sample.sheet Sample.aa_df Sample.mapping
    = Ok fig.
Proof.
  apply (proj2 (render_succeeds_iff 160 Sample.hist Sample.sheet Sample.aa_df
                  Sample.mapping)).
  destruct (load_position_mabs Sample.mapping) as [m|e] eqn:Hl;
    [|vm_compute in Hl; discriminate].
  exists m. split; [reflexivity|]. split; [vm_compute; discriminate|].
  assert (Hm : default [] (m !! 160) = [117; 225]).
  { vm_compute in Hl. injection Hl as <-. reflexivity. }
  cbv zeta. rewrite Hm. right.
  split; [exact sample_header_complete|]. split; [exact sample_all_listed|].
  intros rr [<-|[<-|[]]]; eexists; reflexivity.
Defined.

(** X7. For a position with no antibody (unmapped, or mapped to the
    empty list) the neutralization sheet and the annotation table are
    never consulted: the result is the same whatever they hold. *)
Theorem no_antibody_skips_resolver (position : Z) (hist : HistTable)
    (mapping : list MapRec) (pos_to_mabs : gmap Z (list Z))
    (neut neut' : Worksheet) (aa_df aa_df' : list MutRow) :
  load_position_mabs mapping = Ok pos_to_mabs ->
  default [] (pos_to_mabs !! position) = [] ->
  render_position position hist neut aa_df mapping
  = render_position position hist neut' aa_df' mapping.
Proof.
  intros Hm Hnil. unfold render_position. unfold_result.
  rewrite Hm. simpl. rewrite Hnil. reflexivity.
Qed.

Lemma no_antibody_skips_resolver_witness :
  render_position 145 Sample.hist Sample.sheet Sample.aa_df Sample.mapping
  = render_position 145 Sample.hist [] [Sample.mut_bad_id] Sample.mapping.
Proof.
  destruct (load_position_mabs Sample.mapping) as [m|e] eqn:Hl;
    [|vm_compute in Hl; discriminate].
  apply (no_antibody_skips_resolver 145 Sample.hist Sample.mapping m);
    [exact Hl|].
  vm_compute in Hl. injection Hl as <-. reflexivity.
Defined.

(* ===================================================================== *)
(** ** Cell colours and letter colours *)
(* ===================================================================== *)

Lemma substring_skip (pre s : string) (n : nat) :
  substring (String.length pre) n (pre ++ s) = substring 0 n s.
Proof. induction pre as [|c pre IH]; simpl; [reflexivity | exact IH]. Qed.

Lemma substring_all (s : string) : substring 0 (String.length s) s = s.
Proof. induction s as [|c s IH]; simpl; [reflexivity | now rewrite IH]. Qed.

Lemma length_app_string (a b : string) :
  String.length (a ++ b) = (String.length a + String.length b)%nat.
Proof. induction a as [|c a IH]; simpl; [reflexivity | now rewrite IH]. Qed.

Lemma last_chars_app (pre s : string) (n : nat) :
  String.length s = n -> last_chars n (pre ++ s) = s.
Proof.
  intros <-. unfold last_chars. rewrite length_app_string.
  replace (String.length pre + String.length s - String.length s)%nat
    with (String.length pre) by lia.
  rewrite substring_skip. apply substring_all.
Qed.

Lemma cell_hex_cases (cell : WsCell) :
  ((forall rgb, ~ solid_rgb cell rgb) -> cell_hex cell = "white")
  /\ (forall rgb, solid_rgb cell rgb ->
        cell_hex cell = "#" ++ last_chars 6 rgb)
  /\ (forall alpha rgb6, String.length rgb6 = 6%nat ->
        solid_rgb cell (alpha ++ rgb6) -> cell_hex cell = "#" ++ rgb6).
Proof.
  assert (H2 : forall rgb, solid_rgb cell rgb ->
                 cell_hex cell = "#" ++ last_chars 6 rgb).
  { intros rgb (f & p & Hf & Hp & Hne & Ht & Hr). unfold cell_hex.
    rewrite Hf, Hp, Ht, Hr. apply String.eqb_neq in Hne. rewrite Hne.
    reflexivity. }
  split; [|split; [exact H2|]].
  - intros Hno. unfold cell_hex.
    destruct (fill cell) as [f|] eqn:Hf; [|reflexivity].
    destruct (patternType f) as [p|] eqn:Hp; [|reflexivity].
    destruct (String.eqb p "") eqn:Hpe; [reflexivity|].
    destruct (String.eqb (fgColor_type f) "rgb") eqn:Ht; [|reflexivity].
    exfalso. apply (Hno (fgColor_rgb f)). exists f, p.
    apply String.eqb_neq in Hpe. apply String.eqb_eq in Ht. auto.
  - intros alpha rgb6 Hlen Hs. rewrite (H2 _ Hs).
    now rewrite last_chars_app.
Qed.


Lemma hex_char_facts (c : ascii) (d : Z) :
  hex_digit_of c = Some d ->
  isspace c = false /\ Ascii.eqb c "-" = false /\ Ascii.eqb c "+" = false
  /\ Ascii.eqb c "_" = false /\ Ascii.eqb c "x" = false
  /\ Ascii.eqb c "X" = false /\ 0 <= d < 16.
Proof.
  destruct c as [[] [] [] [] [] [] [] []]; vm_compute;
    try discriminate; intros H; injection H as <-;
    repeat split; discriminate.
Qed.

Lemma parse_int16_pair (c1 c2 : ascii) (d1 d2 : Z) :
  hex_digit_of c1 = Some d1 -> hex_digit_of c2 = Some d2 ->
  parse_int16 (String c1 (String c2 EmptyString)) = Some (16 * d1 + d2).
Proof.
  intros H1 H2.
  destruct (hex_char_facts c1 d1 H1) as (Hs1 & Hm1 & Hp1 & Hu1 & _ & _ & _).
  destruct (hex_char_facts c2 d2 H2) as (Hs2 & _ & _ & Hu2 & Hx2 & HX2 & _).
  unfold parse_int16.
  rewrite strip_no_space by (simpl; now rewrite Hs1, Hs2).
  rewrite Hm1, Hp1. unfold strip_0x. rewrite Hx2, HX2, andb_false_r.
  simpl. rewrite Hu1, H1, Hu2, H2. reflexivity.
Qed.

Lemma mean_below_128 (t : Z) :
  Qle_bool 128 (inject_Z t / 3) = negb (t <? 384).
Proof.
  unfold Qle_bool. cbn.
  destruct (t <? 384) eqn:H; simpl.
  - apply Z.ltb_lt in H. apply Z.leb_gt. lia.
  - apply Z.ltb_ge in H. apply Z.leb_le. lia.
Qed.

(** X9. [text_color] answers "black" on "white". On a colour made of any
    first character and six hexadecimal digits it never raises, and it
    answers "white" exactly when the three channel values add up to less
    than 384 (mean below 128), "black" otherwise. Hence for every sheet
    cell whose recognised fill is an eight-digit ARGB value, and for
    every cell without a recognised fill, the letter colour is defined. *)
Theorem text_color_contrast :
  text_color "white" = Ok "black"
  /\ (forall c0 s d1 d2 d3 d4 d5 d6,
        hex6 s d1 d2 d3 d4 d5 d6 ->
        text_color (String c0 s)
        = Ok (if (16 * d1 + d2) + (16 * d3 + d4) + (16 * d5 + d6) <? 384
              then "white" else "black"))
  /\ (forall cell, (forall rgb, ~ solid_rgb cell rgb) ->
        text_color (cell_hex cell) = Ok "black")
  /\ (forall cell a1 a2 s d1 d2 d3 d4 d5 d6,
        solid_rgb cell (String a1 (String a2 s)) ->
        hex6 s d1 d2 d3 d4 d5 d6 ->
        exists colour, text_color (cell_hex cell) = Ok colour).
Proof.
  assert (H2 : forall c0 s d1 d2 d3 d4 d5 d6,
        hex6 s d1 d2 d3 d4 d5 d6 ->
        text_color (String c0 s)
        = Ok (if (16 * d1 + d2) + (16 * d3 + d4) + (16 * d5 + d6) <? 384
              then "white" else "black")).
  { intros c0 s d1 d2 d3 d4 d5 d6
      (c1 & c2 & c3 & c4 & c5 & c6 & -> & H1 & H2 & H3 & H4 & H5 & H6).
    unfold text_color.
    destruct (String.eqb _ "white") eqn:Hw;
      [apply String.eqb_eq in Hw; discriminate|].
    unfold int16. unfold_result. cbn [slice substring Nat.sub].
    rewrite (parse_int16_pair c1 c2 d1 d2 H1 H2),
            (parse_int16_pair c3 c4 d3 d4 H3 H4),
            (parse_int16_pair c5 c6 d5 d6 H5 H6).
    cbn [bind]. f_equal.
    rewrite mean_below_128. now destruct (_ <? 384). }
  split; [reflexivity|]. split; [exact H2|]. split.
  - intros cell Hno.
    rewrite (proj1 (cell_hex_cases cell) Hno). reflexivity.
  - intros cell a1 a2 s d1 d2 d3 d4 d5 d6 Hs Hhex.
    assert (Hlen : String.length s = 6%nat).
    { destruct Hhex as (c1 & c2 & c3 & c4 & c5 & c6 & -> & _). reflexivity. }
    pose proof (proj2 (proj2 (cell_hex_cases cell))
                  (String a1 (String a2 EmptyString)) s Hlen Hs) as Hc.
    rewrite Hc. change ("#" ++ s) with (String "#" s).
    rewrite (H2 _ _ _ _ _ _ _ _ Hhex). eauto.
Qed.

Lemma text_color_contrast_witness :
  text_color "#112233" = Ok "white"
  /\ text_color "#FFE0E0" = Ok "black"
  /\ text_color (cell_hex (Sample.plain (PInt 225))) = Ok "black".
Proof.
  destruct text_color_contrast as (_ & H2 & H3 & _).
  split; [|split].
  - apply (H2 "#"%char "112233" 1 1 2 2 3 3).
    do 6 eexists. repeat split; reflexivity.
  - apply (H2 "#"%char "FFE0E0" 15 15 14 0 14 0).
    do 6 eexists. repeat split; reflexivity.
  - apply H3. intros rgb (f & p & Hf & _). discriminate.
Defined.

(* ===================================================================== *)
(** ** Drawing the grid never leaves the lists *)
(* ===================================================================== *)

Lemma map_drawn_ok {A B} (f : A -> drawn B) (l : list A) :
  (forall x, In x l -> exists y, f x = Drawn y) ->
  exists ys, map_drawn f l = Drawn ys /\ length ys = length l.
Proof.
  induction l as [|x l IH]; intros H; simpl.
  - now exists [].
  - destruct (H x) as [y Hy]; [now left|].
    destruct IH as (ys & Hys & Hlen); [intros x' Hx'; apply H; now right|].
    unfold mbind, drawn_bind. rewrite Hy, Hys.
    exists (y :: ys). simpl. split; [reflexivity | now rewrite Hlen].
Qed.

Lemma map_drawn_no_index_error {A B} (f : A -> drawn B) (l : list A) :
  (forall x, In x l -> f x <> IndexError) -> map_drawn f l <> IndexError.
Proof.
  induction l as [|x l IH]; intros H; simpl; [discriminate|].
  unfold mbind, drawn_bind.
  destruct (f x) as [y| |e] eqn:Hx;
    [|exfalso; apply (H x); [now left | exact Hx] | discriminate].
  destruct (map_drawn f l) as [ys| |e] eqn:Hl; try discriminate.
  exfalso. apply IH; [|reflexivity]. intros x' Hx'. apply H. now right.
Qed.

Lemma enumerate_from {A} (l : list A) (a i : nat) (x : A) :
  In (i, x) (combine (seq a (length l)) l) ->
  (a <= i)%nat /\ l !! (i - a)%nat = Some x.
Proof.
  revert a. induction l as [|y l IH]; intros a; simpl; [intros []|].
  intros [Heq|Hin].
  - injection Heq as <- <-. rewrite Nat.sub_diag. split; [lia | reflexivity].
  - apply IH in Hin as [Hle Hl]. split; [lia|].
    replace (i - a)%nat with (S (i - S a)) by lia. exact Hl.
Qed.

Lemma enumerate_In {A} (l : list A) (i : nat) (x : A) :
  In (i, x) (enumerate l) -> l !! i = Some x.
Proof.
  intros H. apply enumerate_from in H as [_ H]. now rewrite Nat.sub_0_r in H.
Qed.

Lemma at_index_lt {A} (l : list A) (i : nat) :
  (i < length l)%nat -> exists x, at_index l i = Drawn x /\ In x l.
Proof.
  intros H. unfold at_index.
  destruct (l !! i) as [x|] eqn:Hx.
  - exists x. split; [reflexivity|].
    apply list_elem_of_In. eapply list_elem_of_lookup_2. exact Hx.
  - apply lookup_ge_None in Hx. lia.
Qed.

(** The cells of antibody [m] in row [i], when the row has one colour
    per cluster and the marks are in range. *)
Lemma draw_cell_cases (faces : list (list string)) (st : Marks) (mabs : list Z)
    (i : nat) (yrow : Q) (m : Z) (row : list string)
    (jc : nat * (string * Z * Z)) :
  faces !! i = Some row ->
  length row = length CLUSTERS ->
  marks_in_range mabs st ->
  In jc (enumerate CLUSTERS) ->
  draw_cell faces st i yrow m jc <> IndexError
  /\ ((forall bg, In bg row -> exists c, text_color bg = Ok c) ->
      exists out, draw_cell faces st i yrow m jc = Drawn out).
Proof.
  intros Hrow Hlen [Hm _] Hjc. destruct jc as [j c]. apply enumerate_In in Hjc.
  apply lookup_lt_Some in Hjc.
  assert (Hfi : at_index faces i = Drawn row) by (unfold at_index; now rewrite Hrow).
  destruct (at_index_lt row j) as (bg & Hbg & Hbgin); [lia|].
  unfold draw_cell, mbind, drawn_bind. cbn [fst snd].
  rewrite !Hfi. cbv beta iota. rewrite !Hbg. cbv beta iota.
  destruct (mutations st !! m) as [[[idx wt] mut_aa]|] eqn:Hmut;
    [|split; [discriminate | eauto]].
  destruct (idx =? j)%nat eqn:Hij; [|split; [discriminate | eauto]].
  apply Nat.eqb_eq in Hij. subst idx.
  destruct (Hm _ _ _ _ Hmut) as [_ Hlt].
  destruct (at_index_lt CLUSTERS (j + 1)) as (next & Hnext & _); [exact Hlt|].
  destruct (at_index_lt row (j + 1)) as (bg2 & Hbg2 & Hbg2in); [lia|].
  rewrite !Hnext, !Hbg2.
  split.
  - destruct (text_color bg); simpl; [|discriminate].
    destruct (text_color bg2); simpl; discriminate.
  - intros Hcol. destruct (Hcol bg Hbgin) as [c1 Hc1].
    destruct (Hcol bg2 Hbg2in) as [c2 Hc2]. rewrite Hc1, Hc2. simpl. eauto.
Qed.

(** X10. Whenever the face extraction and the annotation loop have
    succeeded, drawing the grid never raises [IndexError]: every
    [faces[i][j]], [faces[i][j+1]] and [CLUSTERS[j+1]] it evaluates
    exists. If moreover [text_color] accepts every colour of the grid,
    the drawing completes with one row per antibody, each of one cell
    per cluster. *)
Theorem draw_grid_in_range (position : Z) (neut : Worksheet) (mabs : list Z)
    (aa_df : list MutRow) (faces : list (list string)) (st : Marks) :
  faces_of neut mabs = Ok faces ->
  annotate_all position mabs no_marks aa_df = Ok st ->
  draw_grid mabs faces st <> IndexError
  /\ (colours_readable faces ->
      exists rows,
        draw_grid mabs faces st = Drawn rows
        /\ length rows = length mabs
        /\ Forall (fun r => length (fst r) = length CLUSTERS) rows).
Proof.
  intros Hf Ha.
  destruct (proj2 (faces_of_spec neut mabs) faces Hf) as [Hlen Hrows].
  assert (Hst : marks_in_range mabs st).
  { apply (annotate_all_keeps_range position mabs aa_df no_marks); [|exact Ha].
    split; [intros m idx wt mu Hl; simpl in Hl; now rewrite lookup_empty in Hl
           | intros m []]. }
  assert (Hrow : forall i m, In (i, m) (enumerate mabs) ->
            exists row, faces !! i = Some row
                        /\ length row = length CLUSTERS /\ In row faces).
  { intros i m Him. apply enumerate_In, lookup_lt_Some in Him.
    destruct (faces !! i) as [row|] eqn:Hr;
      [|apply lookup_ge_None in Hr; lia].
    exists row. split; [reflexivity|].
    assert (Hin : row ∈ faces) by (eapply list_elem_of_lookup_2; exact Hr).
    rewrite Forall_forall in Hrows. split; [now apply Hrows|].
    now apply list_elem_of_In. }
  unfold draw_grid. split.
  - apply map_drawn_no_index_error. intros [i m] Him.
    destruct (Hrow i m Him) as (row & Hr & Hl & _).
    unfold draw_row, mbind, drawn_bind. cbn [fst snd].
    destruct (map_drawn _ (enumerate CLUSTERS)) as [cells| |e] eqn:Hc;
      try discriminate.
    exfalso. revert Hc. apply map_drawn_no_index_error.
    intros jc Hjc.
    apply (draw_cell_cases faces st mabs i _ m row jc Hr Hl Hst Hjc).
  - intros Hcol.
    assert (Hall : forall im, In im (enumerate mabs) ->
              exists r, draw_row mabs faces st im = Drawn r
                        /\ length (fst r) = length CLUSTERS).
    { intros [i m] Him. destruct (Hrow i m Him) as (row & Hr & Hl & Hin).
      unfold draw_row, mbind, drawn_bind. cbn [fst snd].
      destruct (map_drawn_ok
                  (draw_cell faces st i
                     (inject_Z (Z.of_nat (length mabs) - 1 - Z.of_nat i)) m)
                  (enumerate CLUSTERS)) as (cells & Hcells & Hclen).
      { intros jc Hjc.
        apply (draw_cell_cases faces st mabs i _ m row jc Hr Hl Hst Hjc).
        intros bg Hbg. now apply (Hcol row). }
      rewrite Hcells. eexists. split; [reflexivity|]. simpl.
      rewrite Hclen. reflexivity. }
    assert (Hgen : forall l, (forall im, In im l ->
              exists r, draw_row mabs faces st im = Drawn r
                        /\ length (fst r) = length CLUSTERS) ->
              exists rows, map_drawn (draw_row mabs faces st) l = Drawn rows
                /\ length rows = length l
                /\ Forall (fun r => length (fst r) = length CLUSTERS) rows).
    { induction l as [|x l IH]; intros Hl; simpl.
      - exists []. repeat split. constructor.
      - destruct (Hl x) as (r & Hr & Hrl); [now left|].
        destruct IH as (rows & Hrows' & Hlen' & Hfa);
          [intros im Him; apply Hl; now right|].
        unfold mbind, drawn_bind. rewrite Hr, Hrows'.
        exists (r :: rows). simpl. split; [reflexivity|].
        split; [now rewrite Hlen' | now constructor]. }
    destruct (Hgen (enumerate mabs) Hall) as (rows & H1 & H2 & H3).
    exists rows. split; [exact H1|]. split; [|exact H3].
    rewrite H2. unfold enumerate. rewrite length_combine, length_seq. lia.
Qed.

Lemma sample_colours_readable : colours_readable SampleMore.faces.
Proof.
  intros row bg [<-|[<-|[]]] Hbg; simpl in Hbg;
    repeat (destruct Hbg as [<-|Hbg]; [eexists; reflexivity|]); destruct Hbg.
Qed.

Lemma draw_grid_in_range_witness :
  exists rows,
    draw_grid [117; 225] SampleMore.faces SampleMore.marks = Drawn rows
    /\ length rows = 2%nat.
Proof.
  destruct (draw_grid_in_range 160 Sample.sheet [117; 225] Sample.aa_df
              SampleMore.faces SampleMore.marks eq_refl eq_refl) as [_ H].
  destruct (H sample_colours_readable) as (rows & H1 & H2 & _).
  exists rows. split; [exact H1 | exact H2].
Defined.

(* ===================================================================== *)
(** ** Panel placement *)
(* ===================================================================== *)

Section Placement.

Local Open Scope Q_scope.

Lemma neut_h_pos (mabs : list Z) : 0 < neut_h mabs.
Proof.
  unfold neut_h. destruct mabs as [|m l]; [reflexivity|].
  cbn [length Nat.ltb Nat.leb].
  apply Qmult_lt_0_compat; [reflexivity|].
  unfold Qlt. simpl. lia.
Qed.

(** X11. Whatever the number of antibodies, the five panels are stacked
    without overlap inside the figure: the histogram's top edge lies the
    top padding below the figure's top, each panel's top edge lies
    exactly one gap below the bottom edge of the panel above it, the year
    axis' bottom edge lies the bottom padding above the figure's bottom,
    every panel keeps its height in inches, and the legend stands beside
    the histogram, 0.02 to its right, ending at 0.98 of the width. *)
Theorem panels_stacked (mabs : list Z) :
  let a := place_axes mabs in
  let H := fig_h mabs in
  0 < H
  /\ r_top (ax_hist a) == 1 - TOP_PAD_IN / H
  /\ r_bottom (ax_hist a) - r_top (ax_cluster a) == GAP_IN / H
  /\ r_bottom (ax_cluster a) - r_top (ax_neut a) == GAP_IN / H
  /\ r_bottom (ax_neut a) - r_top (ax_year a) == GAP_IN / H
  /\ r_bottom (ax_year a) == BOTTOM_PAD_IN / H
  /\ (r_height (ax_hist a) * H == HIST_H_IN
      /\ r_height (ax_cluster a) * H == CLUSTER_H_IN
      /\ r_height (ax_neut a) * H == neut_h mabs
      /\ r_height (ax_year a) * H == YEAR_H_IN)
  /\ (r_bottom (ax_leg a) = r_bottom (ax_hist a)
      /\ r_height (ax_leg a) = r_height (ax_hist a)
      /\ r_left (ax_leg a) == r_right (ax_hist a) + (2 # 100)
      /\ r_right (ax_leg a) == 98 # 100).
Proof.
  intros a H. subst a H. unfold place_axes, r_top, r_right, ytop, hrel, fig_h.
  cbn [ax_hist ax_leg ax_cluster ax_neut ax_year
       r_left r_bottom r_width r_height].
  pose proof (neut_h_pos mabs) as Hn. revert Hn.
  generalize (neut_h mabs) as nh. intros nh Hn.
  unfold HIST_H_IN, CLUSTER_H_IN, YEAR_H_IN, GAP_IN, TOP_PAD_IN, BOTTOM_PAD_IN,
    legend_w, legend_left, left, hist_w.
  assert (Hpos : 0 < 2 + (30 # 100) + nh + (25 # 100) + 3 * (10 # 100)
                     + (20 # 100) + (2 # 100)) by lra.
  repeat split; try exact Hpos; try (field; lra).
Qed.

End Placement.

(* ===================================================================== *)
(** ** More on normalization *)
(* ===================================================================== *)

Section NormalizationMore.

Local Open Scope Q_scope.

Lemma Qsum_ge_entry (l : list Q) (x : Q) :
  Forall (Qle 0) l -> In x l -> x <= Qsum l.
Proof.
  induction 1 as [|y l Hy Hl IH]; simpl; [intros []|].
  pose proof (Qsum_nonneg l Hl). intros [->|Hin]; [lra|].
  specialize (IH Hin). lra.
Qed.

Lemma Qsum_Forall2 (l l' : list Q) : Forall2 Qeq l l' -> Qsum l == Qsum l'.
Proof.
  induction 1 as [|x y l l' Hxy _ IH]; simpl; [reflexivity|].
  now rewrite Hxy, IH.
Qed.

Lemma row_divisor_pos (row : list Q) : Forall (Qle 0) row -> 0 < row_divisor row.
Proof.
  intros H. pose proof (Qsum_nonneg row H) as Hs. unfold row_divisor.
  destruct (Qeq_bool (Qsum row) 0) eqn:Hb; [reflexivity|].
  apply Qeq_bool_neq in Hb. lra.
Qed.

Lemma normalize_row_bounded (row : list Q) :
  Forall (Qle 0) row ->
  Forall (fun x => 0 <= x <= 1) (normalize_row row).
Proof.
  intros Hnn. unfold normalize_row. apply Forall_map, Forall_forall.
  intros x Hx. apply list_elem_of_In in Hx.
  pose proof (row_divisor_pos row Hnn) as Hd.
  assert (Hx0 : 0 <= x).
  { rewrite Forall_forall in Hnn. apply Hnn. now apply list_elem_of_In. }
  pose proof (Qsum_ge_entry row x Hnn Hx) as Hxs.
  split.
  - apply Qle_shift_div_l; [exact Hd | lra].
  - apply Qle_shift_div_r; [exact Hd|].
    unfold row_divisor in *. destruct (Qeq_bool (Qsum row) 0) eqn:Hb.
    + apply Qeq_bool_iff in Hb. lra.
    + lra.
Qed.

(** X12. Normalization keeps every year's picture. When the histogram
    cells are non-negative, every entry of the normalized table lies
    between 0 and 1, and within a year the order of the entries is kept:
    a label that is at most as frequent as another one before
    normalization is so after it. *)
Theorem safe_normalize_bounded_ordered (df : HistTable) (sub : list HistRow) :
  nonneg_cells sub ->
  let mat := aggregate df sub in
  Forall (Forall (fun x => 0 <= x <= 1)) (mat_values (safe_normalize mat))
  /\ (forall i row j k x y,
        mat_values mat !! i = Some row ->
        row !! j = Some x -> row !! k = Some y -> x <= y ->
        exists nrow x' y',
          mat_values (safe_normalize mat) !! i = Some nrow
          /\ nrow !! j = Some x' /\ nrow !! k = Some y' /\ x' <= y').
Proof.
  intros Hnn mat. pose proof (aggregate_nonneg df sub Hnn) as Hm.
  fold mat in Hm. clearbody mat. unfold nonneg_matrix in Hm. split.
  - unfold safe_normalize. simpl.
    apply Forall_map. eapply Forall_impl; [exact Hm|].
    intros row Hrow. now apply normalize_row_bounded.
  - intros i row j k x y Hrow Hx Hy Hxy.
    assert (Hrn : Forall (Qle 0) row).
    { rewrite Forall_forall in Hm. apply Hm.
      eapply list_elem_of_lookup_2. exact Hrow. }
    pose proof (row_divisor_pos row Hrn) as Hd.
    exists (normalize_row row), (x / row_divisor row), (y / row_divisor row).
    split; [|split; [|split]].
    + unfold safe_normalize. simpl.
      change (map normalize_row (mat_values mat))
        with (normalize_row <$> mat_values mat).
      now rewrite list_lookup_fmap, Hrow.
    + unfold normalize_row.
      change (map ?f row) with (f <$> row).
      now rewrite list_lookup_fmap, Hx.
    + unfold normalize_row.
      change (map ?f row) with (f <$> row).
      now rewrite list_lookup_fmap, Hy.
    + unfold Qdiv. apply Qmult_le_compat_r; [exact Hxy|].
      apply Qlt_le_weak, Qinv_lt_0_compat, Hd.
Qed.

Lemma sample_nonneg : nonneg_cells [Sample.row_A; Sample.row_B].
Proof.
  intros rr q [<-|[<-|[]]] Hin; simpl in Hin;
    repeat (destruct Hin as [Hin|Hin]; [|]); try discriminate; try contradiction;
    injection Hin as <-; vm_compute; discriminate.
Qed.

Lemma safe_normalize_bounded_ordered_witness :
  Forall (Forall (fun x => 0 <= x <= 1)%Q)
    (mat_values (safe_normalize
                   (aggregate Sample.hist [Sample.row_A; Sample.row_B])))
  /\ exists nrow x' y',
       mat_values (safe_normalize
                     (aggregate Sample.hist [Sample.row_A; Sample.row_B]))
         !! 35%nat = Some nrow
       /\ nrow !! 1%nat = Some x' /\ nrow !! 0%nat = Some y' /\ x' <= y'.
Proof.
  pose proof (safe_normalize_bounded_ordered Sample.hist
                [Sample.row_A; Sample.row_B] sample_nonneg) as H.
  cbv zeta in H. destruct H as [H1 H2]. split; [exact H1|].
  destruct (mat_values (aggregate Sample.hist [Sample.row_A; Sample.row_B])
              !! 35%nat) as [row|] eqn:Hrow;
    [|vm_compute in Hrow; discriminate].
  destruct (row !! 1%nat) as [x|] eqn:Hx;
    [|vm_compute in Hrow; injection Hrow as <-; discriminate].
  destruct (row !! 0%nat) as [y|] eqn:Hy;
    [|vm_compute in Hrow; injection Hrow as <-; discriminate].
  apply (H2 35%nat row 1%nat 0%nat x y Hrow Hx Hy).
  vm_compute in Hrow. injection Hrow as <-.
  injection Hx as <-. injection Hy as <-. vm_compute. discriminate.
Defined.

End NormalizationMore.

(* ===================================================================== *)
(** ** The columns of the aggregate *)
(* ===================================================================== *)

Lemma ascii_compare_lt_trans (a b c : ascii) :
  Ascii.compare a b = Lt -> Ascii.compare b c = Lt -> Ascii.compare a c = Lt.
Proof.
  unfold Ascii.compare. rewrite !N.compare_lt_iff. lia.
Qed.

Lemma ascii_compare_refl (a : ascii) : Ascii.compare a a = Eq.
Proof. unfold Ascii.compare. apply N.compare_refl. Qed.

Lemma string_compare_refl (s : string) : String.compare s s = Eq.
Proof.
  induction s as [|c s IH]; simpl; [reflexivity|].
  now rewrite ascii_compare_refl.
Qed.

Lemma string_compare_lt_trans (a b c : string) :
  String.compare a b = Lt -> String.compare b c = Lt -> String.compare a c = Lt.
Proof.
  revert b c. induction a as [|x a IH]; intros [|y b] [|z c]; simpl;
    try discriminate; try reflexivity.
  destruct (Ascii.compare x y) eqn:Hxy; try discriminate;
    destruct (Ascii.compare y z) eqn:Hyz; try discriminate; intros H1 H2.
  - apply Ascii.compare_eq_iff in Hxy, Hyz. subst.
    rewrite ascii_compare_refl. eapply IH; eauto.
  - apply Ascii.compare_eq_iff in Hxy. subst. now rewrite Hyz.
  - apply Ascii.compare_eq_iff in Hyz. subst. now rewrite Hxy.
  - now rewrite (ascii_compare_lt_trans x y z).
Qed.

Lemma string_ltb_irrefl (s : string) : String.ltb s s = false.
Proof. unfold String.ltb. now rewrite string_compare_refl. Qed.

Lemma string_ltb_trans (a b c : string) :
  String.ltb a b = true -> String.ltb b c = true -> String.ltb a c = true.
Proof.
  unfold String.ltb.
  destruct (String.compare a b) eqn:H1; try discriminate.
  destruct (String.compare b c) eqn:H2; try discriminate.
  now rewrite (string_compare_lt_trans a b c).
Qed.

Lemma string_ltb_total (a b : string) :
  a <> b -> String.ltb a b = false -> String.ltb b a = true.
Proof.
  unfold String.ltb. intros Hne. rewrite (String.compare_antisym a b).
  destruct (String.compare b a) eqn:H; simpl; try discriminate; [|reflexivity].
  apply String.compare_eq_iff in H. congruence.
Qed.

Lemma col_lt_irrefl (a : string) : ~ col_lt a a.
Proof.
  unfold col_lt, col_ltb. rewrite string_ltb_irrefl.
  destruct (String.eqb a "Other"); discriminate.
Qed.

Lemma col_lt_trans (a b c : string) : col_lt a b -> col_lt b c -> col_lt a c.
Proof.
  unfold col_lt, col_ltb.
  destruct (String.eqb a "Other"), (String.eqb b "Other") eqn:Hb,
           (String.eqb c "Other") eqn:Hc;
    try discriminate; try reflexivity; apply string_ltb_trans.
Qed.

Lemma col_lt_total (a b : string) : a <> b -> ~ col_lt a b -> col_lt b a.
Proof.
  unfold col_lt, col_ltb. intros Hne.
  destruct (String.eqb a "Other") eqn:Ha, (String.eqb b "Other") eqn:Hb;
    try congruence.
  - apply String.eqb_eq in Ha, Hb. congruence.
  - intros H. apply string_ltb_total; [exact Hne|].
    now destruct (String.ltb a b).
Qed.

Lemma insert_col_In (x z : string) (l : list string) :
  In z (insert_col x l) <-> z = x \/ In z l.
Proof.
  induction l as [|y r IH]; simpl; [intuition|].
  destruct (String.eqb x y) eqn:Hxy.
  - apply String.eqb_eq in Hxy. subst. simpl. intuition.
  - destruct (col_ltb x y); simpl; [intuition|]. rewrite IH. intuition.
Qed.

Lemma sorted_set_In (z : string) (l : list string) :
  In z (sorted_set l) <-> In z l.
Proof.
  induction l as [|x l IH]; simpl; [reflexivity|].
  rewrite insert_col_In, IH. intuition.
Qed.

Lemma insert_col_sorted (x : string) (l : list string) :
  StronglySorted col_lt l -> StronglySorted col_lt (insert_col x l).
Proof.
  induction 1 as [|y r Hr IH Hy]; simpl; [repeat constructor|].
  destruct (String.eqb x y) eqn:Hxy; [now constructor|].
  apply String.eqb_neq in Hxy.
  destruct (col_ltb x y) eqn:Hlt.
  - constructor; [now constructor|]. constructor; [exact Hlt|].
    eapply Forall_impl; [exact Hy|]. intros z Hz.
    now apply (col_lt_trans x y z).
  - constructor; [exact IH|]. apply Forall_forall. intros z Hz.
    apply list_elem_of_In, insert_col_In in Hz as [->|Hz].
    + apply col_lt_total; [congruence|]. unfold col_lt. congruence.
    + rewrite Forall_forall in Hy. apply Hy. now apply list_elem_of_In.
Qed.

Lemma sorted_set_sorted (l : list string) : StronglySorted col_lt (sorted_set l).
Proof.
  induction l as [|x l IH]; simpl; [constructor | now apply insert_col_sorted].
Qed.

Lemma sorted_NoDup (l : list string) : StronglySorted col_lt l -> List.NoDup l.
Proof.
  induction 1 as [|y r Hr IH Hy]; constructor; [|exact IH].
  intros Hin. rewrite Forall_forall in Hy.
  apply (col_lt_irrefl y). apply Hy. now apply list_elem_of_In.
Qed.

Lemma aggregate_columns_aux (df : HistTable) (sub : list HistRow) :
  let cols := mat_columns (aggregate df sub) in
  List.NoDup cols
  /\ (forall c, In c cols <->
                exists rr, In rr sub /\ _coerce_aa (AminoAcid rr) = c)
  /\ StronglySorted col_lt cols
  /\ (forall c, In c cols -> c <> "Other" -> col_lt c "Other")
  /\ mat_columns (safe_normalize (aggregate df sub)) = cols.
Proof.
  intros cols. subst cols. unfold aggregate. cbn [mat_columns].
  split; [apply sorted_NoDup, sorted_set_sorted|]. split; [|split; [|split]].
  - intros c. rewrite sorted_set_In, in_map_iff. split.
    + intros (rr & H1 & H2). eauto.
    + intros (rr & H1 & H2). eauto.
  - apply sorted_set_sorted.
  - intros c _ Hc. unfold col_lt. now apply col_ltb_other_r.
  - reflexivity.
Qed.

(** X13. The columns of the aggregate are exactly the coerced labels of
    the rows it was given, each once, in increasing order of the key
    [(label == "Other", label)]: plain string order with "Other" after
    every other label. *)
Theorem aggregate_columns (df : HistTable) (sub : list HistRow) :
  let cols := mat_columns (aggregate df sub) in
  List.NoDup cols
  /\ (forall c, In c cols <->
                exists rr, In rr sub /\ _coerce_aa (AminoAcid rr) = c)
  /\ StronglySorted col_lt cols
  /\ (forall c, In c cols -> c <> "Other" -> col_lt c "Other")
  /\ mat_columns (safe_normalize (aggregate df sub)) = cols.
Proof. apply aggregate_columns_aux. Qed.

Lemma aggregate_columns_witness :
  mat_columns (aggregate Sample.hist_case (hist_rows Sample.hist_case))
  = ["OTHER"; "other"; "Other"]
  /\ col_lt "other" "Other".
Proof.
  pose proof (aggregate_columns Sample.hist_case (hist_rows Sample.hist_case))
    as H.
  cbv zeta in H. destruct H as (_ & _ & _ & H4 & _).
  split; [reflexivity|].
  apply H4; [vm_compute; auto | discriminate].
Defined.

(* ===================================================================== *)
(** ** The cells of the aggregate *)
(* ===================================================================== *)

Section AggregateCells.

Local Open Scope Q_scope.

Lemma cell_at_add_cell (j : nat) (y : Z) (v : Q) (vals : list (list Q))
    (i' j' : nat) :
  cell_at (add_cell j y v vals) i' j'
  = if decide (Z.to_nat (y - YEAR_MIN) = i' /\ j = j')
    then (fun x => x + v) <$> cell_at vals i' j'
    else cell_at vals i' j'.
Proof.
  unfold cell_at, add_cell. rewrite list_lookup_alter.
  destruct (decide (Z.to_nat (y - YEAR_MIN) = i')) as [->|Hi].
  - destruct (vals !! i') as [row|]; simpl.
    + rewrite list_lookup_alter.
      destruct (decide (j = j')) as [->|Hj].
      * rewrite decide_True by auto. reflexivity.
      * rewrite decide_False by tauto. reflexivity.
    + now destruct (decide _).
  - rewrite decide_False by tauto. reflexivity.
Qed.

Lemma add_years_val (g : Z -> Q) (j : nat) (ys : list Z) (vals : list (list Q))
    (i' j' : nat) (x : Q) :
  List.NoDup ys -> (forall y, In y ys -> (YEAR_MIN <= y)%Z) ->
  cell_at vals i' j' = Some x ->
  exists x',
    cell_at (fold_left (fun m y => add_cell j y (g y) m) ys vals) i' j' = Some x'
    /\ x' == x + (if decide (j = j' /\ In (YEAR_MIN + Z.of_nat i')%Z ys)
                  then g (YEAR_MIN + Z.of_nat i')%Z else 0).
Proof.
  intros Hnd. revert vals x.
  induction Hnd as [|y r Hy Hr IH]; intros vals x Hge Hx; simpl.
  - exists x. split; [exact Hx|]. rewrite decide_False by tauto. ring.
  - assert (Hyge : (YEAR_MIN <= y)%Z) by (apply Hge; now left).
    assert (Hrge : forall y', In y' r -> (YEAR_MIN <= y')%Z)
      by (intros y' Hy'; apply Hge; now right).
    pose proof (cell_at_add_cell j y (g y) vals i' j') as Hc. rewrite Hx in Hc.
    destruct (decide (Z.to_nat (y - YEAR_MIN) = i' /\ j = j')) as [[Hi Hj]|Hno].
    + simpl in Hc. destruct (IH _ _ Hrge Hc) as (x' & Hx' & Heq).
      exists x'. split; [exact Hx'|]. rewrite Heq.
      assert (Hyi : (YEAR_MIN + Z.of_nat i')%Z = y) by lia.
      rewrite Hyi. rewrite decide_False by tauto.
      rewrite decide_True by (split; [exact Hj | now left]). ring.
    + destruct (IH _ _ Hrge Hc) as (x' & Hx' & Heq).
      exists x'. split; [exact Hx'|]. rewrite Heq.
      destruct (decide (j = j' /\ In (YEAR_MIN + Z.of_nat i')%Z r))
        as [[Hj Hin]|Hn1].
      * rewrite decide_True by (split; [exact Hj | now right]). reflexivity.
      * rewrite decide_False; [reflexivity|].
        intros [Hj [Heq'|Hin]]; [|tauto].
        apply Hno. split; [lia | exact Hj].
Qed.

Lemma yrs_use_ge (df : HistTable) (y : Z) :
  In y (yrs_use df) -> (YEAR_MIN <= y <= YEAR_MAX)%Z.
Proof.
  unfold yrs_use. rewrite filter_In, andb_true_iff, !Z.leb_le. tauto.
Qed.

Lemma add_row_val (df : HistTable) (cols : list string) (vals : list (list Q))
    (rr : HistRow) (i' j' : nat) (x : Q) :
  List.NoDup (int_columns df) ->
  cell_at vals i' j' = Some x ->
  exists x',
    cell_at (add_row df cols vals rr) i' j' = Some x'
    /\ x' == x + contribution df cols i' j' rr.
Proof.
  intros Hnd Hx. unfold add_row, contribution.
  destruct (index_of (_coerce_aa (AminoAcid rr)) cols) as [j|] eqn:Hj.
  - destruct (add_years_val (year_value df rr) j (yrs_use df) vals i' j' x)
      as (x' & Hx' & Heq).
    + unfold yrs_use. now apply List.NoDup_filter.
    + intros y Hy. now apply yrs_use_ge in Hy.
    + exact Hx.
    + exists x'. split; [exact Hx'|]. rewrite Heq.
      destruct (decide (j = j' /\ _)) as [[-> Hin]|Hn].
      * rewrite decide_True by auto. reflexivity.
      * rewrite decide_False; [reflexivity|].
        intros [H1 H2]. injection H1 as ->. tauto.
  - exists x. split; [exact Hx|].
    rewrite decide_False by (intros [H _]; discriminate). ring.
Qed.

Lemma fold_add_row_val (df : HistTable) (cols : list string)
    (sub : list HistRow) (vals : list (list Q)) (i' j' : nat) (x : Q) :
  List.NoDup (int_columns df) ->
  cell_at vals i' j' = Some x ->
  exists x',
    cell_at (fold_left (add_row df cols) sub vals) i' j' = Some x'
    /\ x' == x + Qsum (map (contribution df cols i' j') sub).
Proof.
  intros Hnd. revert vals x.
  induction sub as [|rr sub IH]; intros vals x Hx; simpl.
  - exists x. split; [exact Hx | ring].
  - destruct (add_row_val df cols vals rr i' j' x Hnd Hx) as (x1 & Hx1 & H1).
    destruct (IH _ _ Hx1) as (x' & Hx' & H').
    exists x'. split; [exact Hx'|]. rewrite H', H1. ring.
Qed.

Lemma cell_at_zeros (cols : list string) (i j : nat) (y : Z) (c : string) :
  years !! i = Some y -> cols !! j = Some c ->
  cell_at (zeros cols) i j = Some 0.
Proof.
  intros Hy Hc. unfold cell_at, zeros.
  change (map ?f years) with (f <$> years).
  rewrite list_lookup_fmap, Hy. simpl.
  change (map ?f cols) with (f <$> cols).
  now rewrite list_lookup_fmap, Hc.
Qed.

Lemma index_of_NoDup (l : list string) (j : nat) (c : string) :
  List.NoDup l -> l !! j = Some c -> index_of c l = Some j.
Proof.
  intros Hnd Hj. unfold index_of.
  destruct (list_find (fun y => y = c) l) as [[k z]|] eqn:Hf.
  - apply list_find_Some in Hf as (Hk & -> & _). simpl. f_equal.
    apply NoDup_ListNoDup in Hnd. eapply NoDup_lookup; eauto.
  - apply list_find_None in Hf. rewrite Forall_forall in Hf.
    exfalso. apply (Hf c); [|reflexivity].
    eapply list_elem_of_lookup_2. exact Hj.
Qed.

Lemma Qsum_filter {A} (f : A -> bool) (g : A -> Q) (l : list A) :
  Qsum (map (fun a => if f a then g a else 0) l) == Qsum (map g (List.filter f l)).
Proof.
  induction l as [|a l IH]; simpl; [reflexivity|].
  destruct (f a); simpl; rewrite IH; ring.
Qed.

(** X14. Every cell of the aggregate is the sum it should be. With the
    table's integer column labels distinct: the cell for year [y] and
    label [c] is the sum, over the rows given whose coerced label is [c],
    of their values for [y] (missing or non-numeric values counting 0)
    when the table has a column for [y], and 0 when it has none. *)
Theorem aggregate_cell_sum (df : HistTable) (sub : list HistRow)
    (i j : nat) (y : Z) (c : string) :
  List.NoDup (int_columns df) ->
  years !! i = Some y ->
  mat_columns (aggregate df sub) !! j = Some c ->
  exists x,
    cell_at (mat_values (aggregate df sub)) i j = Some x
    /\ (In y (yrs_use df) ->
        x == Qsum (map (fun rr => year_value df rr y) (rows_of_label c sub)))
    /\ (~ In y (yrs_use df) -> x == 0).
Proof.
  intros Hnd Hy Hc.
  pose proof (proj1 (aggregate_columns_aux df sub)) as Hcols.
  unfold aggregate in *. cbn [mat_columns mat_values] in *.
  set (cols := sorted_set (map (fun r => _coerce_aa (AminoAcid r)) sub)) in *.
  destruct (fold_add_row_val df cols sub (zeros cols) i j 0 Hnd
              (cell_at_zeros cols i j y c Hy Hc)) as (x & Hx & Heq).
  exists x. split; [exact Hx|].
  assert (Hyi : (YEAR_MIN + Z.of_nat i)%Z = y).
  { apply lookup_seqZ in Hy. lia. }
  assert (Hidx : forall rr, index_of (_coerce_aa (AminoAcid rr)) cols = Some j
                            <-> _coerce_aa (AminoAcid rr) = c).
  { intros rr. split.
    - intros H. apply index_of_lookup in H. congruence.
    - intros <-. now apply index_of_NoDup. }
  split.
  - intros Hin. rewrite Heq, Qplus_0_l. unfold rows_of_label.
    rewrite <- Qsum_filter. apply Qsum_Forall2.
    apply Forall2_fmap, Forall_Forall2_diag, Forall_forall. intros rr _.
    unfold contribution. rewrite Hyi.
    destruct (String.eqb (_coerce_aa (AminoAcid rr)) c) eqn:Hrc.
    + apply String.eqb_eq in Hrc.
      rewrite decide_True by (split; [now apply Hidx | exact Hin]). reflexivity.
    + apply String.eqb_neq in Hrc.
      rewrite decide_False by (intros [H _]; now apply Hidx in H). reflexivity.
  - intros Hnin. rewrite Heq, Qplus_0_l.
    assert (Hz : forall l, Qsum (map (contribution df cols i j) l) == 0).
    { induction l as [|rr l IH]; simpl; [reflexivity|].
      rewrite IH. unfold contribution. rewrite Hyi.
      rewrite decide_False by tauto. ring. }
    apply Hz.
Qed.

Lemma aggregate_cell_sum_witness :
  exists x,
    cell_at (mat_values (aggregate Sample.hist [Sample.row_A; Sample.row_B]))
            35 0 = Some x
    /\ (x == 6 # 10)%Q.
Proof.
  assert (Hnd : List.NoDup (int_columns Sample.hist)).
  { simpl. constructor; [intros [H|[]]; discriminate|].
    constructor; [intros []|constructor]. }
  destruct (aggregate_cell_sum Sample.hist [Sample.row_A; Sample.row_B]
              35 0 2000 "A" Hnd eq_refl eq_refl) as (x & H1 & H2 & _).
  exists x. split; [exact H1|].
  rewrite H2; [reflexivity | vm_compute; auto].
Defined.

End AggregateCells.

(* ===================================================================== *)
(** ** The loaded mapping *)
(* ===================================================================== *)

Lemma load_records_lookup (doc : list MapRec) (acc m : gmap Z (list Z)) (p : Z) :
  load_records doc acc = Ok m ->
  (forall r, In r doc -> int (map_Position r) <> Ok p) ->
  m !! p = acc !! p.
Proof.
  revert acc. induction doc as [|r doc IH]; intros acc; simpl.
  - intros H _. now injection H as <-.
  - unfold_result.
    destruct (int (map_Position r)) as [p'|e] eqn:Hp; simpl; [|discriminate].
    destruct (parse_mabs _) as [l|e]; simpl; [|discriminate].
    intros H Hdoc. rewrite (IH _ H) by (intros r' Hr'; apply Hdoc; now right).
    apply lookup_insert_ne. intros ->. apply (Hdoc r); [now left | exact Hp].
Qed.

Lemma load_records_split (d1 d2 : list MapRec) (r : MapRec)
    (acc m : gmap Z (list Z)) :
  load_records (d1 ++ r :: d2) acc = Ok m ->
  exists m1 p l,
    load_records d1 acc = Ok m1
    /\ int (map_Position r) = Ok p
    /\ parse_mabs (strip (str (map_mAbs r))) = Ok l
    /\ load_records d2 (<[p := l]> m1) = Ok m.
Proof.
  rewrite load_records_app. unfold_result.
  destruct (load_records d1 acc) as [m1|e]; simpl; [|discriminate].
  destruct (int (map_Position r)) as [p|e]; simpl; [|discriminate].
  destruct (parse_mabs _) as [l|e]; simpl; [|discriminate].
  intros H. exists m1, p, l. auto.
Qed.

Lemma load_records_mapped (doc : list MapRec) (acc m : gmap Z (list Z)) (p : Z) :
  load_records doc acc = Ok m ->
  is_Some (acc !! p) \/ (exists r, In r doc /\ int (map_Position r) = Ok p) ->
  is_Some (m !! p).
Proof.
  revert acc. induction doc as [|r doc IH]; intros acc; simpl.
  - intros H [Hs|(r & [] & _)]. now injection H as <-.
  - unfold_result.
    destruct (int (map_Position r)) as [p'|e] eqn:Hp; simpl; [|discriminate].
    destruct (parse_mabs _) as [l|e]; simpl; [|discriminate].
    intros H Hcase. apply (IH _ H).
    destruct (decide (p' = p)) as [->|Hne].
    + left. rewrite lookup_insert_eq. eauto.
    + rewrite lookup_insert_ne by exact Hne.
      destruct Hcase as [Hs|(r' & [<-|Hin] & Hr')]; [now left | congruence |].
      right. eauto.
Qed.

(** X15. In a mapping that loads, the last record of a position wins:
    the position is mapped to the antibody list of the last record whose
    Position converts to it, whatever earlier records say, and it is
    unmapped exactly when no record's Position converts to it. *)
Theorem load_last_record_wins (doc : list MapRec) (m : gmap Z (list Z)) (p : Z) :
  load_position_mabs doc = Ok m ->
  (m !! p = None <-> forall r, In r doc -> int (map_Position r) <> Ok p)
  /\ (forall d1 r d2,
        doc = (d1 ++ r :: d2)%list ->
        int (map_Position r) = Ok p ->
        (forall r', In r' d2 -> int (map_Position r') <> Ok p) ->
        exists l, parse_mabs (strip (str (map_mAbs r))) = Ok l
                  /\ m !! p = Some l).
Proof.
  unfold load_position_mabs. intros Hm. split.
  - split.
    + intros Hnone r Hr Hp.
      destruct (load_records_mapped doc ∅ m p Hm) as [l Hl]; [eauto|].
      congruence.
    + intros Hdoc. rewrite (load_records_lookup doc ∅ m p Hm Hdoc).
      apply lookup_empty.
  - intros d1 r d2 -> Hp Hd2.
    apply load_records_split in Hm as (m1 & p' & l & _ & Hp' & Hl & Hrest).
    rewrite Hp in Hp'. injection Hp' as <-.
    exists l. split; [exact Hl|].
    rewrite (load_records_lookup d2 _ m p Hrest Hd2).
    apply lookup_insert_eq.
Qed.

Lemma load_last_record_wins_witness :
  exists m,
    load_position_mabs SampleMore.mapping_twice = Ok m
    /\ m !! 160 = Some [225]
    /\ m !! 145 = None.
Proof.
  destruct (load_position_mabs SampleMore.mapping_twice) as [m|e] eqn:Hl;
    [|vm_compute in Hl; discriminate].
  destruct (load_last_record_wins SampleMore.mapping_twice m 160 Hl) as [_ H2].
  destruct (load_last_record_wins SampleMore.mapping_twice m 145 Hl) as [H1 _].
  exists m. split; [reflexivity|]. split.
  - destruct (H2 [ {| map_Position := PInt 160; map_mAbs := PStr "117" |} ]
                {| map_Position := PStr "160"; map_mAbs := PInt 225 |} []
                eq_refl eq_refl) as (l & Hp & Hm); [intros r' []|].
    vm_compute in Hp. injection Hp as <-. exact Hm.
  - apply H1. intros r [<-|[<-|[]]]; vm_compute; discriminate.
Defined.

Lemma load_records_raise (d1 d2 : list MapRec) (r : MapRec)
    (acc : gmap Z (list Z)) :
  (forall p l, int (map_Position r) = Ok p ->
               parse_mabs (strip (str (map_mAbs r))) <> Ok l) ->
  exists e, load_records (d1 ++ r :: d2) acc = Raise e.
Proof.
  intros Hbad. rewrite load_records_app. unfold_result.
  destruct (load_records d1 acc) as [m1|e]; simpl; [|eauto].
  destruct (int (map_Position r)) as [p|e] eqn:Hp; simpl; [|eauto].
  destruct (parse_mabs _) as [l|e] eqn:Hl; simpl; [|eauto].
  exfalso. now apply (Hbad p l).
Qed.

(** X16. One record that cannot be read blocks every position: if some
    record of the mapping document has a Position that [int] rejects or
    an antibody text that does not parse, [render_position] raises for
    every position, histogram and sheet, also for positions the record
    does not concern. *)
Theorem malformed_record_blocks_all (doc : list MapRec) (r : MapRec) :
  In r doc ->
  (forall p l, int (map_Position r) = Ok p ->
               parse_mabs (strip (str (map_mAbs r))) <> Ok l) ->
  forall position hist neut aa_df,
    exists e, render_position position hist neut aa_df doc = Raise e.
Proof.
  intros Hin Hbad position hist neut aa_df.
  apply in_split in Hin as (d1 & d2 & ->).
  destruct (load_records_raise d1 d2 r ∅ Hbad) as [e He].
  exists e. unfold render_position, load_position_mabs. unfold_result.
  now rewrite He.
Qed.

Lemma malformed_record_blocks_all_witness :
  exists e,
    render_position 145 Sample.hist Sample.sheet Sample.aa_df
      SampleMore.mapping_malformed = Raise e.
Proof.
  apply (malformed_record_blocks_all SampleMore.mapping_malformed
           {| map_Position := PInt 160; map_mAbs := PStr "117;225" |}).
  - right. now left.
  - intros p l _. vm_compute. discriminate.
Defined.

(* ===================================================================== *)
(** ** Reading back a list of antibodies *)
(* ===================================================================== *)

Lemma id_char_facts (c : ascii) :
  id_char c = true ->
  isspace c = false /\ Ascii.eqb c "," = false
  /\ forall rest, str_in (String c rest) [""; "nan"; "None"; "none"] = false.
Proof.
  destruct c as [[] [] [] [] [] [] [] []]; vm_compute; try discriminate;
    intros _; repeat split.
Qed.

Lemma digits_id_chars (d : Decimal.uint) :
  all_chars id_char (NilEmpty.string_of_uint d) = true.
Proof. induction d; simpl; auto. Qed.

Lemma str_of_Z_id_chars (z : Z) :
  all_chars id_char (str_of_Z z) = true /\ str_of_Z z <> EmptyString.
Proof.
  unfold str_of_Z, NilZero.string_of_int, NilZero.string_of_uint.
  destruct (Z.to_int z) as [d|d]; destruct d eqn:Hd;
    try (split; [reflexivity | discriminate]);
    rewrite <- Hd;
    (split; [try (change (all_chars id_char (String "-" (NilEmpty.string_of_uint d)))
                    with (all_chars id_char (NilEmpty.string_of_uint d)));
             apply digits_id_chars
            | subst d; discriminate]).
Qed.

Lemma all_chars_id_no_space (s : string) :
  all_chars id_char s = true -> no_space s = true.
Proof.
  induction s as [|c r IH]; simpl; [reflexivity|].
  intros H. apply andb_true_iff in H as [Hc Hr].
  destruct (id_char_facts c Hc) as (Hs & _). rewrite Hs. simpl. auto.
Qed.

Lemma all_chars_id_last (s : string) :
  all_chars id_char s = true -> s <> EmptyString -> last_nonspace s = true.
Proof.
  induction s as [|c r IH]; simpl; [congruence|].
  intros H _. apply andb_true_iff in H as [Hc Hr].
  destruct r as [|c' r']; [|apply IH; [exact Hr | discriminate]].
  destruct (id_char_facts c Hc) as (Hs & _). now rewrite Hs.
Qed.

Lemma rstrip_last_nonspace (s : string) : last_nonspace s = true -> rstrip s = s.
Proof.
  induction s as [|c r IH]; [discriminate|].
  destruct r as [|c' r'].
  - simpl. intros H. apply negb_true_iff in H. now rewrite H.
  - intros H. change (last_nonspace (String c (String c' r')))
      with (last_nonspace (String c' r')) in H.
    specialize (IH H).
    change (rstrip (String c (String c' r')))
      with (match rstrip (String c' r') with
            | EmptyString => if isspace c then EmptyString else String c EmptyString
            | r0 => String c r0
            end).
    now rewrite IH.
Qed.

Lemma last_nonspace_app (a b : string) :
  b <> EmptyString -> last_nonspace (a ++ b) = last_nonspace b.
Proof.
  intros Hb. induction a as [|c a IH]; [reflexivity|].
  simpl. destruct (a ++ b) eqn:Hab; [|exact IH].
  destruct a as [|c' a'].
  - change (String.append EmptyString b) with b in Hab. congruence.
  - change (String.append (String c' a') b)
      with (String c' (String.append a' b)) in Hab. discriminate.
Qed.

Lemma split_on_comma_free (a rest : string) :
  all_chars (fun c => negb (Ascii.eqb c ",")) a = true ->
  split_on "," (a ++ String "," rest) = a :: split_on "," rest
  /\ split_on "," a = [a].
Proof.
  induction a as [|c a IH]; simpl.
  - intros _. split; reflexivity.
  - intros H. apply andb_true_iff in H as [Hc Ha].
    apply negb_true_iff in Hc. rewrite Hc.
    destruct (IH Ha) as [H1 H2]. rewrite H1, H2. split; reflexivity.
Qed.

Lemma id_chars_comma_free (s : string) :
  all_chars id_char s = true ->
  all_chars (fun c => negb (Ascii.eqb c ",")) s = true.
Proof.
  induction s as [|c r IH]; simpl; [reflexivity|].
  intros H. apply andb_true_iff in H as [Hc Hr].
  destruct (id_char_facts c Hc) as (_ & Hcomma & _).
  rewrite Hcomma. simpl. auto.
Qed.

Lemma all_chars_app (p : ascii -> bool) (a b : string) :
  all_chars p (a ++ b) = all_chars p a && all_chars p b.
Proof.
  induction a as [|c a IH]; simpl; [reflexivity|].
  now rewrite IH, andb_assoc.
Qed.

(** The pieces of a comma-and-space separated list of integers. *)
Lemma split_joined (pre : string) (z : Z) (l : list Z) :
  all_chars (fun c => negb (Ascii.eqb c ",")) pre = true ->
  split_on "," (pre ++ String.concat ", " (map str_of_Z (z :: l)))
  = (pre ++ str_of_Z z) :: map (fun z' => " " ++ str_of_Z z') l.
Proof.
  revert pre z. induction l as [|y l IH]; intros pre z Hpre.
  - simpl. apply (split_on_comma_free (pre ++ str_of_Z z) EmptyString).
    rewrite all_chars_app, Hpre. simpl.
    apply id_chars_comma_free, str_of_Z_id_chars.
  - change (String.concat ", " (map str_of_Z (z :: y :: l)))
      with (str_of_Z z ++ String "," (String " "
              (String.concat ", " (map str_of_Z (y :: l))))).
    assert (Happ : forall a b c : string, a ++ b ++ c = (a ++ b) ++ c).
    { intros a b c. induction a as [|x a IHa]; [reflexivity|].
      change (String x (a ++ b ++ c) = String x ((a ++ b) ++ c)).
      now rewrite IHa. }
    change (str_of_Z z ++ String "," ?r) with (str_of_Z z ++ (String "," r)).
    rewrite Happ.
    destruct (split_on_comma_free (pre ++ str_of_Z z)
                (String " " (String.concat ", " (map str_of_Z (y :: l)))))
      as [H1 _].
    { rewrite all_chars_app, Hpre. simpl.
      apply id_chars_comma_free, str_of_Z_id_chars. }
    rewrite H1. f_equal.
    change (String " " ?r) with (" " ++ r).
    rewrite (IH " " y); reflexivity.
Qed.

Lemma parse_int_padded (z : Z) :
  parse_int (str_of_Z z) = Some z /\ parse_int (" " ++ str_of_Z z) = Some z.
Proof. split; apply parse_int_str_of_Z. Qed.

Lemma strip_padded (z : Z) :
  strip (str_of_Z z) = str_of_Z z /\ strip (" " ++ str_of_Z z) = str_of_Z z.
Proof.
  assert (H : strip (str_of_Z z) = str_of_Z z).
  { apply strip_no_space, all_chars_id_no_space, str_of_Z_id_chars. }
  split; [exact H|]. exact H.
Qed.

(** X17. A list of antibodies written as integers separated by a comma
    and a space reads back as that list: for every non-empty list [l],
    a record whose mAbs text is [", ".join(str(m) for m in l)] maps its
    position to [l]. *)
Theorem mabs_text_roundtrip (l : list Z) (p : Z) :
  l <> [] ->
  parse_mabs (strip (String.concat ", " (map str_of_Z l))) = Ok l
  /\ load_position_mabs
       [ {| map_Position := PInt p;
            map_mAbs := PStr (String.concat ", " (map str_of_Z l)) |} ]
     = Ok {[ p := l ]}.
Proof.
  intros Hl. destruct l as [|z l]; [congruence|]. clear Hl.
  set (s := String.concat ", " (map str_of_Z (z :: l))).
  assert (Hhead : exists c rest, s = String c rest /\ id_char c = true).
  { destruct (str_of_Z_id_chars z) as [Hc Hne].
    destruct (str_of_Z z) as [|c r] eqn:Hz; [congruence|].
    simpl in Hc. apply andb_true_iff in Hc as [Hc _].
    unfold s. destruct l as [|y l]; simpl; rewrite Hz; simpl; eauto. }
  assert (Hlast : last_nonspace s = true).
  { unfold s. clear Hhead s. revert z. induction l as [|y l IH]; intros z.
    - simpl. apply all_chars_id_last; apply str_of_Z_id_chars.
    - change (String.concat ", " (map str_of_Z (z :: y :: l)))
        with (str_of_Z z ++ String "," (String " "
                (String.concat ", " (map str_of_Z (y :: l))))).
      rewrite last_nonspace_app by discriminate.
      specialize (IH y).
      destruct (String.concat ", " (map str_of_Z (y :: l))) eqn:Hc;
        [discriminate | exact IH]. }
  assert (Hstrip : strip s = s).
  { destruct Hhead as (c & rest & Hs & Hc).
    destruct (id_char_facts c Hc) as (Hsp & _).
    unfold strip. rewrite Hs. simpl lstrip. rewrite Hsp. rewrite <- Hs.
    now apply rstrip_last_nonspace. }
  assert (Hparse : parse_mabs s = Ok (z :: l)).
  { unfold parse_mabs.
    destruct Hhead as (c & rest & Hs & Hc).
    destruct (id_char_facts c Hc) as (_ & _ & Hmark).
    rewrite Hs, Hmark, <- Hs. unfold s.
    pose proof (split_joined "" z l eq_refl) as Hsp.
    change ("" ++ String.concat ", " (map str_of_Z (z :: l)))
      with (String.concat ", " (map str_of_Z (z :: l))) in Hsp.
    change ("" ++ str_of_Z z) with (str_of_Z z) in Hsp.
    rewrite Hsp.
    assert (Hint : forall pre y, parse_int (pre ++ str_of_Z y) = Some y ->
              int (PStr (pre ++ str_of_Z y)) = Ok y).
    { intros pre y Hy. cbn [int]. now rewrite Hy. }
    assert (Hrest : map_result (fun x => int (PStr x))
              (List.filter (fun x => negb (String.eqb (strip x) ""))
                 (map (fun z' => " " ++ str_of_Z z') l)) = Ok l).
    { clear - Hint. induction l as [|y l IH]; [reflexivity|].
      cbn [map List.filter]. rewrite (proj2 (strip_padded y)).
      destruct (str_of_Z_id_chars y) as [_ Hne].
      apply String.eqb_neq in Hne. rewrite Hne. cbn [negb].
      change (map_result ?f (?x :: ?r))
        with (bind (f x) (fun v => bind (map_result f r) (fun ys => Ok (v :: ys)))).
      cbv beta. rewrite (Hint " " y (proj2 (parse_int_padded y))), IH.
      reflexivity. }
    cbn [List.filter]. rewrite (proj1 (strip_padded z)).
    destruct (str_of_Z_id_chars z) as [_ Hne].
    apply String.eqb_neq in Hne. rewrite Hne. cbn [negb].
    change (map_result ?f (?x :: ?r))
      with (bind (f x) (fun v => bind (map_result f r) (fun ys => Ok (v :: ys)))).
    cbv beta.
    pose proof (Hint "" z) as Hz.
    change ("" ++ str_of_Z z) with (str_of_Z z) in Hz.
    rewrite (Hz (proj1 (parse_int_padded z))).
    rewrite Hrest. reflexivity. }
  split; [now rewrite Hstrip|].
  unfold load_position_mabs. simpl load_records. unfold_result. cbn [int bind str].
  fold s. rewrite Hstrip, Hparse. reflexivity.
Qed.

Lemma mabs_text_roundtrip_witness :
  parse_mabs "117, -225" = Ok [117; -225]
  /\ load_position_mabs
       [ {| map_Position := PInt 160; map_mAbs := PStr "117, -225" |} ]
     = Ok {[ 160 := [117; -225] ]}.
Proof.
  assert (Hne : [117; -225] <> []) by discriminate.
  exact (mabs_text_roundtrip [117; -225] 160 Hne).
Defined.
(* ===================================================================== *)
(** ** The stacked histogram *)
(* ===================================================================== *)

Section Histogram.

Local Open Scope Q_scope.

Lemma Qsum_perm (l l' : list Q) : Permutation l l' -> Qsum l == Qsum l'.
Proof.
  induction 1 as [|x l l' _ IH|x y l|l l' l'' _ IH1 _ IH2]; simpl.
  - reflexivity.
  - now rewrite IH.
  - ring.
  - now rewrite IH1.
Qed.

Lemma Qsum_app (l l' : list Q) : Qsum (l ++ l') == Qsum l + Qsum l'.
Proof.
  induction l as [|x l IH]; simpl; [ring|]. rewrite IH. ring.
Qed.

Lemma Qsum_all_zero (l : list Q) : Forall (fun x => x == 0) l -> Qsum l == 0.
Proof.
  induction 1 as [|x l Hx _ IH]; simpl; [reflexivity|]. rewrite Hx, IH. ring.
Qed.

Lemma normalize_row_total (row : list Q) :
  Forall (Qle 0) row ->
  Qsum (normalize_row row) == 1 \/ Qsum (normalize_row row) == 0.
Proof.
  intros Hnn. destruct (Qeq_dec (Qsum row) 0) as [Hz|Hz].
  - right. apply Qsum_all_zero, normalize_row_zero.
    now apply Qsum_zero_all_zero.
  - left. now apply normalize_row_sum.
Qed.

Lemma add_row_shape (df : HistTable) (cols : list string) (n : nat)
    (vals : list (list Q)) (rr : HistRow) :
  Forall (fun row => length row = n) vals ->
  length (add_row df cols vals rr) = length vals
  /\ Forall (fun row => length row = n) (add_row df cols vals rr).
Proof.
  unfold add_row. destruct (index_of _ cols) as [j|]; [|auto].
  revert vals. induction (yrs_use df) as [|y ys IH]; intros vals Hv; simpl;
    [auto|].
  destruct (IH (add_cell j y (year_value df rr y) vals)) as [H1 H2].
  - unfold add_cell. apply Forall_alter; [exact Hv|].
    intros row _ Hrow. now rewrite length_alter.
  - split; [|exact H2]. rewrite H1. unfold add_cell. apply length_alter.
Qed.

Lemma aggregate_shape (df : HistTable) (sub : list HistRow) :
  let mat := safe_normalize (aggregate df sub) in
  length (mat_values mat) = length years
  /\ Forall (fun row => length row = length (mat_columns mat)) (mat_values mat).
Proof.
  unfold safe_normalize, aggregate. cbn [mat_values mat_columns].
  set (cols := sorted_set _). clearbody cols.
  assert (H : length (fold_left (add_row df cols) sub (zeros cols))
              = length years
              /\ Forall (fun row => length row = length cols)
                   (fold_left (add_row df cols) sub (zeros cols))).
  { assert (Hz : length (zeros cols) = length years
                 /\ Forall (fun row => length row = length cols) (zeros cols)).
    { unfold zeros. split; [apply length_map|].
      apply Forall_map, Forall_forall. intros _ _. apply length_map. }
    revert Hz. generalize (zeros cols) as vals.
    induction sub as [|rr sub IH]; intros vals [H1 H2]; simpl; [auto|].
    apply IH. destruct (add_row_shape df cols (length cols) vals rr H2).
    split; [congruence | assumption]. }
  destruct H as [H1 H2]. split; [now rewrite length_map|].
  apply Forall_map. eapply Forall_impl; [exact H2|].
  intros row Hrow. simpl. unfold normalize_row. now rewrite length_map.
Qed.

Lemma aa_order_perm (mat : Matrix) : Permutation (aa_order mat) (mat_columns mat).
Proof.
  unfold aa_order. cbv zeta. rewrite sorted_desc_perm.
  apply filter_split_perm.
Qed.

Variable mat : Matrix.
Hypothesis cols_NoDup : List.NoDup (mat_columns mat).

Let e := entry (mat_columns mat).

Lemma getcol_entry (aa : string) :
  In aa (mat_columns mat) ->
  getcol mat aa = Ok (map (fun row => e row aa) (mat_values mat)).
Proof.
  intros Hin. unfold getcol, column, e, entry.
  destruct (index_of aa (mat_columns mat)) as [j|] eqn:Hj; [reflexivity|].
  exfalso. unfold index_of in Hj.
  destruct (list_find (fun y => y = aa) (mat_columns mat)) as [p|] eqn:Hf;
    [discriminate|].
  apply list_find_None in Hf. rewrite Forall_forall in Hf.
  apply (Hf aa); [now apply list_elem_of_In | reflexivity].
Qed.

Lemma entries_of_columns (row : list Q) :
  length row = length (mat_columns mat) ->
  map (e row) (mat_columns mat) = row.
Proof.
  intros Hlen. apply list_eq. intros i.
  change (map (e row) (mat_columns mat)) with (e row <$> mat_columns mat).
  rewrite list_lookup_fmap.
  destruct (mat_columns mat !! i) as [c|] eqn:Hc; simpl.
  - unfold e, entry. rewrite (index_of_NoDup _ i c cols_NoDup Hc). simpl.
    rewrite nth_lookup.
    destruct (row !! i) as [x|] eqn:Hx; [reflexivity|].
    apply lookup_ge_None in Hx. apply lookup_lt_Some in Hc. lia.
  - symmetry. apply lookup_ge_None. apply lookup_ge_None in Hc. lia.
Qed.

Lemma entries_total (order : list string) (row : list Q) :
  Permutation order (mat_columns mat) ->
  length row = length (mat_columns mat) ->
  Qsum (map (e row) order) == Qsum row.
Proof.
  intros Hp Hlen. rewrite <- (entries_of_columns row Hlen) at 2.
  apply Qsum_perm. now apply Permutation_map.
Qed.

Lemma entry_nonneg (row : list Q) (aa : string) :
  Forall (Qle 0) row -> 0 <= e row aa.
Proof.
  intros Hrow. unfold e, entry.
  destruct (nth_in_or_default (default 0%nat (index_of aa (mat_columns mat)))
              row 0) as [Hin | ->]; [|apply Qle_refl].
  rewrite Forall_forall in Hrow. apply Hrow. now apply list_elem_of_In.
Qed.

(** The loop keeps [cum] equal to the entries summed over the labels
    done, and records it as the bottom of the next bar. *)
Lemma histogram_bars_spec (order done : list string) (cum : list Q) :
  (forall aa, In aa order -> In aa (mat_columns mat)) ->
  List.Forall2 (fun c row => c == Qsum (map (e row) done)) cum (mat_values mat) ->
  exists bars cum',
    histogram_bars mat order cum = Ok (bars, cum')
    /\ map bar_label bars = order
    /\ List.Forall2 (fun c row => c == Qsum (map (e row) (done ++ order)))
         cum' (mat_values mat)
    /\ Forall (fun b =>
         exists pre post,
           (done ++ order = pre ++ bar_label b :: post)%list
           /\ List.Forall2 (fun c row => c == Qsum (map (e row) pre))
                (bar_bottom b) (mat_values mat)
           /\ bar_height b = map (fun row => e row (bar_label b))
                               (mat_values mat)) bars.
Proof.
  revert done cum. induction order as [|aa rest IH]; intros done cum Hin Hcum.
  - exists [], cum. split; [reflexivity|]. split; [reflexivity|].
    rewrite app_nil_r. split; [exact Hcum | constructor].
  - cbn [histogram_bars]. unfold_result.
    rewrite (getcol_entry aa) by (apply Hin; now left). cbn [bind].
    assert (Hlen : length cum = length (mat_values mat)).
    { clear - Hcum. induction Hcum; simpl; auto. }
    unfold np_iadd. rewrite length_map, <- Hlen, Nat.eqb_refl. cbn [bind].
    destruct (IH (done ++ [aa])%list
                (zip_with Qplus cum (map (fun row => e row aa) (mat_values mat))))
      as (bars & cum' & Hb & Hl & Hc & Hbars).
    + intros x Hx. apply Hin. now right.
    + clear - Hcum. induction Hcum as [|c row cs rows Hc _ IHc]; simpl;
        constructor; [|exact IHc].
      rewrite map_app, Qsum_app, Hc. simpl. ring.
    + rewrite Hb. cbn [bind fst snd].
      exists ({| bar_label := aa; bar_bottom := cum;
                 bar_height := map (fun row => e row aa) (mat_values mat) |}
              :: bars), cum'.
      split; [reflexivity|]. split; [simpl; now rewrite Hl|].
      rewrite <- app_assoc in Hc. split; [exact Hc|].
      constructor.
      * exists done, rest. simpl. auto.
      * eapply Forall_impl; [exact Hbars|].
        intros b (pre & post & H1 & H2 & H3). exists pre, post.
        rewrite <- app_assoc in H1. auto.
Qed.

End Histogram.

Lemma Forall2_map_r_rel {A B} (R : A -> B -> Prop) (S : A -> Q -> Prop)
    (f : B -> Q) (l : list A) (l' : list B) :
  List.Forall2 R l l' -> (forall a b, In b l' -> R a b -> S a (f b)) ->
  List.Forall2 S l (map f l').
Proof.
  induction 1 as [|a b l l' Hab _ IH]; intros HS; simpl; constructor.
  - apply HS; [now left | exact Hab].
  - apply IH. intros a' b' Hb'. apply HS. now right.
Qed.

Lemma histogram_stack_aux (df : HistTable) (sub : list HistRow) :
  let mat := safe_normalize (aggregate df sub) in
  exists bars cum,
    histogram mat = Ok (bars, cum)
    /\ map bar_label bars = aa_order mat
    /\ Forall (fun b => length (bar_bottom b) = length years
                        /\ length (bar_height b) = length years) bars
    /\ List.Forall2 (fun c row => (c == Qsum row)%Q) cum (mat_values mat)
    /\ (nonneg_cells sub ->
        Forall bar_in_range bars
        /\ Forall (fun c => c == 1 \/ c == 0)%Q cum).
Proof.
  intros mat.
  destruct (aggregate_columns_aux df sub) as (Hnd & _ & _ & _ & Hcols).
  cbv zeta in Hnd, Hcols. rewrite <- Hcols in Hnd. fold mat in Hnd.
  destruct (aggregate_shape df sub) as [Hlen Hshape]. fold mat in Hlen, Hshape.
  pose proof (aa_order_perm mat) as Hperm.
  destruct (histogram_bars_spec mat (aa_order mat) []
              (map (fun _ => 0%Q) years))
    as (bars & cum & Hb & Hl & Hc & Hbars).
  { intros aa Haa. eapply Permutation_in; [exact Hperm | exact Haa]. }
  { revert Hlen. generalize (mat_values mat) as vals. generalize years as ys.
    induction ys as [|y ys IH]; intros [|row vals] Hlen; try discriminate;
      simpl; constructor; [reflexivity|].
    apply IH. simpl in Hlen. lia. }
  exists bars, cum. split; [exact Hb|]. split; [exact Hl|].
  assert (Htot : List.Forall2 (fun c row => (c == Qsum row)%Q) cum (mat_values mat)).
  { clear - Hc Hshape Hperm Hnd. cbn [app] in Hc.
    induction Hc as [|c row cs rows Hcr _ IH]; constructor.
    - rewrite Hcr. apply (entries_total mat Hnd); [exact Hperm|].
      now apply Forall_inv in Hshape.
    - apply IH. now apply Forall_inv_tail in Hshape. }
  split; [|split; [exact Htot|]].
  - eapply Forall_impl; [exact Hbars|].
    intros b (pre & post & _ & H2 & H3). split.
    + rewrite <- Hlen. clear - H2. induction H2; simpl; auto.
    + now rewrite H3, length_map.
  - intros Hnn.
    assert (Hrows : Forall (fun row => Forall (Qle 0) row
                                       /\ (Qsum row == 1 \/ Qsum row == 0)%Q)
                      (mat_values mat)).
    { unfold mat, safe_normalize. cbn [mat_values]. apply Forall_map.
      eapply Forall_impl; [exact (aggregate_nonneg df sub Hnn)|].
      intros row Hrow. simpl. split; [|now apply normalize_row_total].
      eapply Forall_impl; [exact (normalize_row_bounded row Hrow)|].
      intros x Hx. apply Hx. }
    split.
    + rewrite Forall_forall. intros b Hb'.
      rewrite Forall_forall in Hbars.
      destruct (Hbars b Hb') as (pre & post & H1 & H2 & H3).
      unfold bar_in_range. rewrite H3.
      eapply Forall2_map_r_rel; [exact H2|].
      intros bot row Hrow Hbot. cbv beta in Hbot.
      rewrite Forall_forall in Hrows, Hshape.
      apply list_elem_of_In in Hrow.
      destruct (Hrows row Hrow) as [Hrn Hsum].
      specialize (Hshape row Hrow).
      assert (Hpre : (0 <= Qsum (map (entry (mat_columns mat) row) pre))%Q).
      { apply Qsum_nonneg, Forall_map, Forall_forall. intros aa _.
        now apply (entry_nonneg mat). }
      assert (Hpost : (0 <= Qsum (map (entry (mat_columns mat) row) post))%Q).
      { apply Qsum_nonneg, Forall_map, Forall_forall. intros aa _.
        now apply (entry_nonneg mat). }
      pose proof (entry_nonneg mat row (bar_label b) Hrn) as Hh.
      pose proof (entries_total mat Hnd (aa_order mat) row Hperm Hshape) as Hall.
      cbn [app] in H1. rewrite H1, map_app, Qsum_app in Hall.
      cbn [map Qsum fold_right] in Hall.
      fold (Qsum (map (entry (mat_columns mat) row) post)) in Hall.
      rewrite Hbot. split; [exact Hpre|]. split; [exact Hh|].
      destruct Hsum as [Hs|Hs]; rewrite Hs in Hall; lra.
    + clear - Htot Hrows.
      induction Htot as [|c row cs rows Hcr _ IH]; constructor.
      * apply Forall_inv in Hrows as [_ Hs]. now rewrite Hcr.
      * apply IH. now apply Forall_inv_tail in Hrows.
Qed.

(** X18. The stacked histogram stays in its frame. For the normalized
    table of any rows, the loop over [aa_order] never raises (every
    label is a column, every column has one value per year); it draws
    one bar series per label, in the order of [aa_order]; and the total
    it ends with is, for every year, the sum of that year's row. When the
    histogram cells are non-negative, every bar has a non-negative
    bottom and height and ends at most at 1, the top of the y axis, and
    the total of every year is 1 or 0. *)
Theorem histogram_stack (df : HistTable) (sub : list HistRow) :
  let mat := safe_normalize (aggregate df sub) in
  exists bars cum,
    histogram mat = Ok (bars, cum)
    /\ map bar_label bars = aa_order mat
    /\ Forall (fun b => length (bar_bottom b) = length years
                        /\ length (bar_height b) = length years) bars
    /\ List.Forall2 (fun c row => (c == Qsum row)%Q) cum (mat_values mat)
    /\ (nonneg_cells sub ->
        Forall bar_in_range bars
        /\ Forall (fun c => c == 1 \/ c == 0)%Q cum).
Proof. exact (histogram_stack_aux df sub). Qed.

Lemma histogram_stack_witness :
  exists bars cum,
    histogram (safe_normalize
                 (aggregate Sample.hist [Sample.row_A; Sample.row_B]))
    = Ok (bars, cum)
    /\ map bar_label bars = ["A"; "B"]
    /\ Forall bar_in_range bars.
Proof.
  pose proof (histogram_stack Sample.hist [Sample.row_A; Sample.row_B]) as H.
  cbv zeta in H. destruct H as (bars & cum & H1 & H2 & _ & _ & H5).
  exists bars, cum. split; [exact H1|]. split; [rewrite H2; reflexivity|].
  exact (proj1 (H5 sample_nonneg)).
Defined.

(* ===================================================================== *)
(** ** The legend *)
(* ===================================================================== *)

Lemma Qsum_pos_iff (l : list Q) :
  Forall (Qle 0) l -> (0 < Qsum l <-> exists x, In x l /\ 0 < x)%Q.
Proof.
  induction 1 as [|y l Hy Hl IH]; simpl.
  - split; [intros H; now apply Qlt_irrefl in H | intros (x & [] & _)].
  - pose proof (Qsum_nonneg l Hl) as Hs. split.
    + intros H. destruct (Qlt_le_dec 0 y) as [Hpos|Hle].
      * exists y. auto.
      * assert (Hl' : (0 < Qsum l)%Q) by lra.
        apply IH in Hl' as (x & Hx & Hx0). exists x. auto.
    + intros (x & [->|Hx] & Hx0); [lra|].
      assert (0 < Qsum l)%Q by (apply IH; eauto). lra.
Qed.

Lemma column_nonneg (mat : Matrix) (c : string) :
  Forall (Forall (Qle 0)) (mat_values mat) -> Forall (Qle 0) (column mat c).
Proof.
  intros Hm. unfold column.
  destruct (index_of c (mat_columns mat)) as [j|]; [|constructor].
  apply Forall_map. eapply Forall_impl; [exact Hm|].
  intros row Hrow. simpl.
  destruct (nth_in_or_default j row 0%Q) as [Hin | ->]; [|apply Qle_refl].
  rewrite Forall_forall in Hrow. apply Hrow. now apply list_elem_of_In.
Qed.

Lemma legend_spec (df : HistTable) (sub : list HistRow) :
  nonneg_cells sub ->
  let mat := safe_normalize (aggregate df sub) in
  forall a,
    In a (legend mat (aa_order mat))
    <-> In a (mat_columns mat) /\ exists x, In x (column mat a) /\ (0 < x)%Q.
Proof.
  intros Hnn mat a. unfold legend. rewrite filter_In.
  assert (Hcol : Forall (Qle 0) (column mat a)).
  { apply column_nonneg. unfold mat, safe_normalize. cbn [mat_values].
    apply Forall_map. eapply Forall_impl; [exact (aggregate_nonneg df sub Hnn)|].
    intros row Hrow. simpl.
    eapply Forall_impl; [exact (normalize_row_bounded row Hrow)|].
    intros x Hx. apply Hx. }
  rewrite <- (Qsum_pos_iff _ Hcol).
  assert (Hord : In a (aa_order mat) <-> In a (mat_columns mat)).
  { split; apply Permutation_in; [|symmetry]; apply aa_order_perm. }
  rewrite Hord, negb_true_iff.
  split; intros [H1 H2]; (split; [exact H1|]).
  - destruct (Qlt_le_dec 0 (Qsum (column mat a))) as [Hp|Hle]; [exact Hp|].
    apply Qle_bool_iff in Hle. congruence.
  - destruct (Qle_bool (Qsum (column mat a)) 0) eqn:E; [|reflexivity].
    apply Qle_bool_iff in E. lra.
Qed.

(** X19. The legend lists exactly the labels that show in the
    histogram: when the histogram cells are non-negative, a label has a
    legend entry if and only if it is a column of the table and its bar
    is higher than 0 in some year; the entries keep the order of the
    bars. *)
Theorem legend_lists_visible (df : HistTable) (sub : list HistRow) :
  nonneg_cells sub ->
  let mat := safe_normalize (aggregate df sub) in
  (forall a,
      In a (legend mat (aa_order mat))
      <-> In a (mat_columns mat) /\ exists x, In x (column mat a) /\ (0 < x)%Q)
  /\ sublist (legend mat (aa_order mat)) (aa_order mat).
Proof.
  intros Hnn mat. split; [exact (legend_spec df sub Hnn)|].
  unfold legend. generalize (aa_order mat) as l.
  induction l as [|x l IH]; simpl; [constructor|].
  destruct (negb _); now constructor.
Qed.

Lemma legend_lists_visible_witness :
  In "B" (legend (safe_normalize
                    (aggregate Sample.hist [Sample.row_A; Sample.row_B]))
            (aa_order (safe_normalize
                         (aggregate Sample.hist [Sample.row_A; Sample.row_B])))).
Proof.
  pose proof (legend_lists_visible Sample.hist [Sample.row_A; Sample.row_B]
                sample_nonneg) as H.
  cbv zeta in H. apply (proj1 H). split; [vm_compute; auto|].
  exists (Qmake 4 10 / (Qmake 6 10 + Qmake 4 10))%Q. split; [|reflexivity].
  vm_compute. auto 60.
Defined.
(* ===================================================================== *)
(** ** The deck builder: positions read from file names *)
(* ===================================================================== *)

Section DeckNames.
Import Deck.

Lemma append_assoc3 (a b c : string) : a ++ b ++ c = (a ++ b) ++ c.
Proof.
  induction a as [|x a IH]; [reflexivity|].
  change (String x (a ++ b ++ c) = String x ((a ++ b) ++ c)).
  now rewrite IH.
Qed.

Lemma isdigit_facts (c : ascii) :
  isdigit c = true ->
  Ascii.eqb c "-" = false /\ Ascii.eqb c "_" = false /\ isspace c = false
  /\ Ascii.eqb c "+" = false.
Proof.
  destruct c as [[] [] [] [] [] [] [] []]; vm_compute; try discriminate;
    intros _; repeat split.
Qed.

Lemma digit_of_range (c : ascii) (d : Z) : digit_of c = Some d -> 0 <= d <= 9.
Proof.
  unfold digit_of.
  destruct ((48 <=? N_of_ascii c) && (N_of_ascii c <=? 57))%N eqn:E;
    [|discriminate].
  intros H. injection H as <-.
  apply andb_true_iff in E as [E1 E2].
  apply N.leb_le in E1. apply N.leb_le in E2. lia.
Qed.

Lemma isdigit_value (c : ascii) :
  isdigit c = true -> exists d, digit_of c = Some d /\ 0 <= d <= 9.
Proof.
  unfold isdigit. destruct (digit_of c) as [d|] eqn:Hd; [|discriminate].
  intros _. exists d. split; [reflexivity|]. now apply digit_of_range in Hd.
Qed.

Lemma take_digits_digits (n : nat) (s : string) :
  all_chars isdigit (take_digits n s) = true
  /\ (String.length (take_digits n s) <= n)%nat.
Proof.
  revert s. induction n as [|n IH]; intros s.
  - destruct s; simpl; split; auto.
  - destruct s as [|c r]; simpl; [split; [reflexivity | lia]|].
    destruct (isdigit c) eqn:Hc; simpl; [|split; [reflexivity | lia]].
    destruct (IH r) as [H1 H2]. rewrite Hc, H1. split; [reflexivity | lia].
Qed.

Lemma take_digits_empty (n : nat) (s : string) :
  take_digits (S n) s = EmptyString <-> stops_digits s = true.
Proof.
  destruct s as [|c r]; simpl; [tauto|].
  destruct (isdigit c); simpl; split; auto; discriminate.
Qed.

Lemma take_digits_all (n : nat) (s rest : string) :
  all_chars isdigit s = true ->
  (String.length s <= n)%nat ->
  (String.length s = n \/ stops_digits rest = true) ->
  take_digits n (s ++ rest) = s.
Proof.
  revert n. induction s as [|c r IH]; intros n Hs Hlen Hstop.
  - change (EmptyString ++ rest) with rest.
    destruct n as [|n]; [destruct rest; reflexivity|].
    apply take_digits_empty. destruct Hstop as [H|H]; [discriminate | exact H].
  - change (String c r ++ rest) with (String c (r ++ rest)).
    simpl in Hs, Hlen. apply andb_true_iff in Hs as [Hc Hr].
    destruct n as [|n]; [lia|]. simpl. rewrite Hc. f_equal.
    apply IH; [exact Hr | lia |]. destruct Hstop as [H|H]; [left; simpl in H; lia | now right].
Qed.

Lemma digits_no_space (s : string) : all_chars isdigit s = true -> no_space s = true.
Proof.
  induction s as [|c r IH]; simpl; [reflexivity|].
  intros H. apply andb_true_iff in H as [Hc Hr].
  destruct (isdigit_facts c Hc) as (_ & _ & Hs & _). rewrite Hs. simpl. auto.
Qed.

Lemma parse_digits_value (s : string) (acc : Z) (prev : bool) :
  all_chars isdigit s = true ->
  s <> EmptyString \/ prev = true ->
  parse_digits acc prev s = Some (digits_value acc s).
Proof.
  revert acc prev. induction s as [|c r IH]; intros acc prev Hs Hne.
  - destruct Hne as [Hne| ->]; [congruence | reflexivity].
  - simpl in Hs. apply andb_true_iff in Hs as [Hc Hr].
    destruct (isdigit_facts c Hc) as (_ & Hu & _).
    destruct (isdigit_value c Hc) as (d & Hd & _).
    simpl. rewrite Hu, Hd. simpl. apply IH; [exact Hr | now right].
Qed.

Lemma parse_int_digits (s : string) :
  all_chars isdigit s = true -> s <> EmptyString ->
  parse_int s = Some (digits_value 0 s)
  /\ parse_int (String "-" s) = Some (- digits_value 0 s).
Proof.
  intros Hs Hne. unfold parse_int. split.
  - rewrite strip_no_space by now apply digits_no_space.
    rewrite <- (parse_digits_value s 0 false Hs) by now left.
    destruct s as [|c r]; [congruence|].
    simpl in Hs. apply andb_true_iff in Hs as [Hc _].
    destruct c as [[] [] [] [] [] [] [] []]; try discriminate Hc; reflexivity.
  - rewrite strip_no_space by (simpl; now apply digits_no_space).
    now rewrite (parse_digits_value s 0 false Hs) by now left.
Qed.

Lemma digits_value_bound (s : string) :
  all_chars isdigit s = true -> (String.length s <= 3)%nat ->
  0 <= digits_value 0 s <= 999.
Proof.
  intros Hs Hlen.
  destruct s as [|a [|b [|c [|x r]]]]; simpl in Hs, Hlen; [simpl; lia | .. | lia];
    repeat match goal with
           | H : _ && _ = true |- _ => apply andb_true_iff in H as [? ?]
           end;
    repeat match goal with
           | H : isdigit ?c = true |- _ =>
               destruct (isdigit_value c H) as (? & ? & ?); clear H
           end;
    simpl;
    repeat match goal with
           | H : digit_of _ = Some _ |- _ => rewrite H; clear H
           end;
    simpl; lia.
Qed.

(** What [re.search] returns: one to three digits, after a hyphen or
    not. *)
Lemma match_here_shape (s m : string) :
  match_here s = Some m ->
  exists ds, (m = ds \/ m = String "-" ds)
             /\ all_chars isdigit ds = true /\ ds <> EmptyString
             /\ (String.length ds <= 3)%nat.
Proof.
  unfold match_here. destruct s as [|c r]; [discriminate|].
  destruct (Ascii.eqb c "-") eqn:Hc.
  - apply Ascii.eqb_eq in Hc. subst c.
    destruct (take_digits_digits 3 r) as [H1 H2].
    destruct (take_digits 3 r) as [|d ds] eqn:Ht; [discriminate|].
    intros H. injection H as <-. exists (String d ds).
    split; [now right|]. split; [exact H1|]. split; [discriminate | exact H2].
  - destruct (take_digits_digits 3 (String c r)) as [H1 H2].
    destruct (take_digits 3 (String c r)) as [|d ds] eqn:Ht; [discriminate|].
    intros H. injection H as <-. exists (String d ds).
    split; [now left|]. split; [exact H1|]. split; [discriminate | exact H2].
Qed.

Lemma re_search_shape (s m : string) :
  re_search s = Some m ->
  exists ds, (m = ds \/ m = String "-" ds)
             /\ all_chars isdigit ds = true /\ ds <> EmptyString
             /\ (String.length ds <= 3)%nat.
Proof.
  induction s as [|c r IH]; [discriminate|].
  cbn [re_search]. destruct (match_here (String c r)) as [m'|] eqn:Hm.
  - intros H. injection H as <-. now apply match_here_shape in Hm.
  - exact IH.
Qed.

Lemma re_search_none (s : string) :
  re_search s = None <-> digit_free s = true.
Proof.
  unfold digit_free. induction s as [|c r IH]; [simpl; tauto|].
  cbn [re_search all_chars]. unfold match_here.
  destruct (Ascii.eqb c "-") eqn:Hc.
  - apply Ascii.eqb_eq in Hc. subst c. change (isdigit "-") with false.
    cbn [negb andb].
    destruct (take_digits 3 r) as [|d ds] eqn:Ht.
    + exact IH.
    + split; [discriminate|]. intros H.
      assert (Hs : stops_digits r = true).
      { destruct r as [|c' r']; [reflexivity|]. simpl in H |- *.
        now apply andb_true_iff in H as [H _]. }
      apply (take_digits_empty 2) in Hs. congruence.
  - cbn [take_digits]. destruct (isdigit c) eqn:Hd; cbn [negb andb].
    + split; discriminate.
    + exact IH.
Qed.

Lemma re_search_first_run (pre rest : string) (d : ascii) :
  digit_free pre = true -> isdigit d = true ->
  re_search (pre ++ String d rest) = Some (take_digits 3 (String d rest))
  \/ re_search (pre ++ String d rest)
     = Some (String "-" (take_digits 3 (String d rest))).
Proof.
  intros Hpre Hd. unfold digit_free in Hpre.
  assert (Hrun : exists x xs, take_digits 3 (String d rest) = String x xs).
  { simpl. rewrite Hd. eauto. }
  destruct Hrun as (x & xs & Hrun).
  destruct (isdigit_facts d Hd) as (Hm & _).
  induction pre as [|c pre IH].
  - left. change (EmptyString ++ String d rest) with (String d rest).
    cbn [re_search]. unfold match_here. rewrite Hm, Hrun. reflexivity.
  - simpl in Hpre. apply andb_true_iff in Hpre as [Hc Hpre].
    apply negb_true_iff in Hc.
    change (String c pre ++ String d rest) with (String c (pre ++ String d rest)).
    cbn [re_search]. unfold match_here.
    destruct (Ascii.eqb c "-") eqn:Hcm.
    + destruct pre as [|c' pre'].
      * right. change (EmptyString ++ String d rest) with (String d rest).
        rewrite Hrun. apply Ascii.eqb_eq in Hcm. now subst c.
      * change (String c' pre' ++ String d rest)
          with (String c' (pre' ++ String d rest)).
        simpl in Hpre. apply andb_true_iff in Hpre as [Hc' Hpre'].
        apply negb_true_iff in Hc'. cbn [take_digits]. rewrite Hc'.
        apply IH. simpl. now rewrite Hc', Hpre'.
    + cbn [take_digits]. rewrite Hc. now apply IH.
Qed.

Lemma extract_pos_of_match (m ds : string) :
  (m = ds \/ m = String "-" ds) ->
  all_chars isdigit ds = true -> ds <> EmptyString ->
  (z ← int (PStr m); Ok (Some (Z.abs z))) = Ok (Some (digits_value 0 ds))
  /\ 0 <= digits_value 0 ds.
Proof.
  intros Hm Hds Hne.
  destruct (parse_int_digits ds Hds Hne) as [H1 H2].
  assert (Hnn : 0 <= digits_value 0 ds).
  { clear - Hds. assert (H : forall acc, 0 <= acc -> 0 <= digits_value acc ds).
    { induction ds as [|c r IH]; intros acc Hacc; [exact Hacc|].
      simpl in Hds. apply andb_true_iff in Hds as [Hc Hr].
      destruct (isdigit_value c Hc) as (d & Hd & Hrange).
      simpl. rewrite Hd. simpl. apply IH; [exact Hr | lia]. }
    apply H. lia. }
  split; [|exact Hnn]. unfold_result. cbn [int].
  destruct Hm as [-> | ->].
  - rewrite H1. cbn [bind]. do 2 f_equal. lia.
  - rewrite H2. cbn [bind]. do 2 f_equal. lia.
Qed.

Lemma extract_pos_spec (name : string) :
  (digit_free name = true /\ extract_pos name = Ok None)
  \/ (digit_free name = false
      /\ exists p, extract_pos name = Ok (Some p) /\ 0 <= p <= 999).
Proof.
  unfold extract_pos. destruct (re_search name) as [m|] eqn:Hs.
  - right. split.
    + destruct (digit_free name) eqn:Hf; [|reflexivity].
      apply re_search_none in Hf. congruence.
    + destruct (re_search_shape _ _ Hs) as (ds & Hm & Hds & Hne & Hlen).
      destruct (extract_pos_of_match m ds Hm Hds Hne) as [H _].
      exists (digits_value 0 ds). split; [exact H|].
      now apply digits_value_bound.
  - left. split; [now apply re_search_none | reflexivity].
Qed.

(** X20. [extract_pos] never raises. It returns [None] exactly when the
    name holds no digit; otherwise it returns a position between 0 and
    999, whatever the name: a position above 999 cannot come out of a
    file name, and a hyphen before the digits never makes it negative. *)
Theorem extract_pos_bounded (name : string) :
  exists o,
    extract_pos name = Ok o
    /\ (o = None <-> digit_free name = true)
    /\ (forall p, o = Some p -> 0 <= p <= 999).
Proof.
  destruct (extract_pos_spec name) as [[Hf H]|[Hf (p & H & Hp)]].
  - exists None. split; [exact H|]. split; [tauto | discriminate].
  - exists (Some p). split; [exact H|]. split.
    + split; [discriminate | congruence].
    + intros p' Hp'. injection Hp' as <-. exact Hp.
Qed.

Lemma extract_pos_run (pre rest : string) (d : ascii) :
  digit_free pre = true -> isdigit d = true ->
  extract_pos (pre ++ String d rest)
  = Ok (Some (digits_value 0 (take_digits 3 (String d rest)))).
Proof.
  intros Hpre Hd. unfold extract_pos.
  destruct (take_digits_digits 3 (String d rest)) as [Hds _].
  assert (Hne : take_digits 3 (String d rest) <> EmptyString).
  { simpl. rewrite Hd. discriminate. }
  destruct (re_search_first_run pre rest d Hpre Hd) as [-> | ->].
  - apply (extract_pos_of_match _ _ (or_introl eq_refl) Hds Hne).
  - apply (extract_pos_of_match _ _ (or_intror eq_refl) Hds Hne).
Qed.

(** X21. The position is read from the first digit of the name on: after
    a prefix without digits, [extract_pos] returns the number written by
    the first digit and the up to two digits that follow it directly.
    Later digits are never looked at, and neither is a hyphen before the
    first digit. *)
Theorem extract_pos_first_digits (pre rest : string) (d : ascii) :
  digit_free pre = true -> isdigit d = true ->
  extract_pos (pre ++ String d rest)
  = Ok (Some (digits_value 0 (take_digits 3 (String d rest))))
  /\ extract_pos (pre ++ String "-" (String d rest))
     = extract_pos (pre ++ String d rest).
Proof.
  intros Hpre Hd. split; [now apply extract_pos_run|].
  rewrite (extract_pos_run pre rest d Hpre Hd).
  change (pre ++ String "-" (String d rest))
    with (pre ++ "-" ++ String d rest).
  rewrite append_assoc3. apply extract_pos_run; [|exact Hd].
  unfold digit_free in *. rewrite all_chars_app, Hpre. reflexivity.
Qed.

Lemma extract_pos_first_digits_witness :
  extract_pos "HA_pos-160_red.png" = Ok (Some 160)
  /\ extract_pos "H3N2_pos_160.svg" = Ok (Some 3)
  /\ extract_pos "pos_1600.svg" = Ok (Some 160).
Proof.
  split; [|split].
  - destruct (extract_pos_first_digits "HA_pos" "60_red.png" "1"
                eq_refl eq_refl) as [H1 H2].
    exact (eq_trans H2 H1).
  - exact (proj1 (extract_pos_first_digits "H" "N2_pos_160.svg" "3"
                    eq_refl eq_refl)).
  - exact (proj1 (extract_pos_first_digits "pos_" "600.svg" "1"
                    eq_refl eq_refl)).
Defined.

Lemma decimal_ok_all (p : Z) : 0 <= p <= 999 -> decimal_ok p = true.
Proof.
  intros Hp.
  assert (H : forallb decimal_ok (seqZ 0 1000) = true) by (vm_compute; reflexivity).
  rewrite forallb_forall in H. apply H.
  apply list_elem_of_In, elem_of_seqZ. lia.
Qed.

Lemma extract_pos_str (pre rest : string) (p : Z) :
  digit_free pre = true -> 0 <= p <= 999 ->
  100 <= p \/ stops_digits rest = true ->
  extract_pos (pre ++ str_of_Z p ++ rest) = Ok (Some p).
Proof.
  intros Hpre Hp Hrest.
  pose proof (decimal_ok_all p Hp) as Hok. unfold decimal_ok in Hok.
  cbv zeta in Hok.
  repeat match type of Hok with
         | _ && _ = true => apply andb_true_iff in Hok as [Hok ?]
         end.
  match goal with H : negb _ = true |- _ => apply negb_true_iff in H; rename H into Hne end.
  match goal with H : (_ =? p) = true |- _ => apply Z.eqb_eq in H; rename H into Hval end.
  match goal with H : (_ <=? 3)%nat = true |- _ => apply Nat.leb_le in H; rename H into Hlen end.
  match goal with H : _ || _ = true |- _ => rename H into Hfull end.
  destruct (str_of_Z p) as [|d r] eqn:Hstr; [discriminate|].
  pose proof Hok as Hall. simpl in Hok. apply andb_true_iff in Hok as [Hd _].
  change (String d r ++ rest) with (String d (r ++ rest)).
  rewrite (extract_pos_run pre (r ++ rest) d Hpre Hd).
  change (String d (r ++ rest)) with (String d r ++ rest).
  rewrite (take_digits_all 3 (String d r) rest Hall Hlen).
  - now rewrite Hval.
  - destruct Hrest as [H|H]; [|now right]. left.
    apply orb_true_iff in Hfull as [Hf|Hf]; [apply Z.ltb_lt in Hf; lia|].
    now apply Nat.eqb_eq in Hf.
Qed.

(** X22. A position between 0 and 999 written in decimal is read back
    from a name: after a prefix without digits, and followed by
    something that does not start with a digit (or by anything when the
    position has three digits), [extract_pos] returns it, with or
    without a hyphen before it; so the names 117.svg and -117.svg both
    give 117. *)
Theorem extract_pos_reads_back (pre rest : string) (p : Z) :
  digit_free pre = true -> 0 <= p <= 999 ->
  100 <= p \/ stops_digits rest = true ->
  extract_pos (pre ++ str_of_Z p ++ rest) = Ok (Some p)
  /\ extract_pos (pre ++ "-" ++ str_of_Z p ++ rest) = Ok (Some p).
Proof.
  intros Hpre Hp Hrest. split; [now apply extract_pos_str|].
  rewrite append_assoc3. apply extract_pos_str; [|exact Hp | exact Hrest].
  unfold digit_free in *. rewrite all_chars_app, Hpre. reflexivity.
Qed.

Lemma extract_pos_reads_back_witness :
  extract_pos "117.svg" = Ok (Some 117)
  /\ extract_pos "-117.svg" = Ok (Some 117).
Proof.
  assert (Hp : 0 <= 117 <= 999) by lia.
  assert (H3 : 100 <= 117) by lia.
  exact (extract_pos_reads_back "" ".svg" 117 eq_refl Hp (or_introl H3)).
Defined.

End DeckNames.
(* ===================================================================== *)
(** ** The deck builder: pictures per position *)
(* ===================================================================== *)

Section DeckPictures.
Import Deck.

Lemma has_pos_iff (pos : Z) (pth : Path) :
  has_pos pos pth = true <-> extract_pos (name pth) = Ok (Some pos).
Proof.
  unfold has_pos. destruct (extract_pos (name pth)) as [[p|]|e].
  - rewrite Z.eqb_eq. split; [now intros -> | intros H; now injection H].
  - split; discriminate.
  - split; discriminate.
Qed.

Lemma exists_has_pos (pos : Z) (files : list Path) :
  existsb (has_pos pos) files = false
  <-> forall pth, In pth files -> extract_pos (name pth) <> Ok (Some pos).
Proof.
  split.
  - intros H pth Hin Hp. apply has_pos_iff in Hp.
    assert (existsb (has_pos pos) files = true); [|congruence].
    apply existsb_exists. eauto.
  - intros H. destruct (existsb (has_pos pos) files) eqn:E; [|reflexivity].
    apply existsb_exists in E as (pth & Hin & Hp).
    apply has_pos_iff in Hp. now destruct (H pth Hin).
Qed.

Lemma convert_loop_spec (png_dir : string) (files : list Path)
    (out0 : gmap Z Path) :
  exists out,
    convert_loop png_dir files out0 = Ok out
    /\ forall pos,
         out !! pos = if existsb (has_pos pos) files
                      then Some (out_png png_dir pos) else out0 !! pos.
Proof.
  revert out0. induction files as [|pth rest IH]; intros out0.
  - exists out0. split; [reflexivity|]. intros pos. reflexivity.
  - cbn [convert_loop existsb]. unfold_result. unfold has_pos at 1.
    destruct (extract_pos_spec (name pth)) as [[_ H]|[_ (p & H & _)]];
      rewrite H; cbn [bind].
    + destruct (IH out0) as (out & Hout & Hlook). exists out.
      split; [exact Hout|]. intros pos. rewrite Hlook. reflexivity.
    + destruct (IH (<[p := out_png png_dir p]> out0)) as (out & Hout & Hlook).
      exists out. split; [exact Hout|]. intros pos. rewrite Hlook.
      destruct (Z.eqb_spec p pos) as [->|Hne]; cbn [orb].
      * rewrite lookup_insert_eq. now destruct (existsb _ rest).
      * now rewrite lookup_insert_ne by exact Hne.
Qed.

(** X23. Whatever the names, the bookkeeping of [convert_svgs_to_pngs]
    (the conversion call aside) never raises. The keys of its result are
    exactly the positions that [extract_pos] reads from the names given;
    each key [pos], which lies between 0 and 999, is mapped to the file
    [pos].png of the output directory, whichever of the files gave that
    position; and that file's name reads back as [pos]. *)
Theorem convert_svgs_names (svgs : list Path) (png_dir : string) :
  exists out,
    convert_svgs_to_pngs svgs png_dir = Ok out
    /\ (forall pos,
          out !! pos = None
          <-> forall pth, In pth svgs ->
                extract_pos (name pth) <> Ok (Some pos))
    /\ (forall pos pth,
          out !! pos = Some pth ->
          pth = out_png png_dir pos
          /\ 0 <= pos <= 999
          /\ extract_pos (name pth) = Ok (Some pos)).
Proof.
  unfold convert_svgs_to_pngs.
  destruct (convert_loop_spec png_dir svgs ∅) as (out & Hout & Hlook).
  exists out. split; [exact Hout|]. split.
  - intros pos. rewrite Hlook, <- exists_has_pos.
    destruct (existsb (has_pos pos) svgs); [split; discriminate|].
    split; [reflexivity | intros _; apply lookup_empty].
  - intros pos pth. rewrite Hlook.
    destruct (existsb (has_pos pos) svgs) eqn:E;
      [|rewrite lookup_empty; discriminate].
    intros H. injection H as <-.
    apply existsb_exists in E as (src & _ & Hp). apply has_pos_iff in Hp.
    assert (Hrange : 0 <= pos <= 999).
    { destruct (extract_pos_spec (name src)) as [[_ H]|[_ (p & H & Hr)]];
        rewrite H in Hp; [discriminate|]. injection Hp as <-. exact Hr. }
    split; [reflexivity|]. split; [exact Hrange|].
    apply (extract_pos_str "" ".png" pos eq_refl Hrange). now right.
Qed.

Lemma candidates_loop_spec (files : list Path)
    (c0 : gmap Z (list (nat * Path))) :
  exists c,
    candidates_loop files c0 = Ok c
    /\ forall pos,
         c !! pos = match c0 !! pos, hits pos files with
                    | None, [] => None
                    | o, hs => Some (default [] o ++ map tag hs)%list
                    end.
Proof.
  revert c0. induction files as [|pth rest IH]; intros c0.
  - exists c0. split; [reflexivity|]. intros pos. simpl.
    destruct (c0 !! pos) as [l|]; [|reflexivity].
    simpl. now rewrite app_nil_r.
  - cbn [candidates_loop]. unfold_result.
    destruct (extract_pos_spec (name pth)) as [[_ H]|[_ (p & H & _)]];
      rewrite H; cbn [bind].
    + assert (Hh : forall pos, hits pos (pth :: rest) = hits pos rest).
      { intros pos. unfold hits. cbn [List.filter]. unfold has_pos at 1.
        now rewrite H. }
      destruct (IH c0) as (c & Hc & Hlook). exists c.
      split; [exact Hc|]. intros pos. rewrite Hh. apply Hlook.
    + assert (Hh : forall pos, hits pos (pth :: rest)
                = if p =? pos then pth :: hits pos rest else hits pos rest).
      { intros pos. unfold hits. cbn [List.filter]. unfold has_pos at 1.
        now rewrite H. }
      destruct (IH (<[p := (default [] (c0 !! p) ++ [(score pth, pth)])%list]> c0))
        as (c & Hc & Hlook).
      exists c. split; [exact Hc|]. intros pos. rewrite Hlook, Hh.
      destruct (Z.eqb_spec p pos) as [->|Hne].
      * rewrite lookup_insert_eq. cbv beta iota. cbn [default from_option id map].
        rewrite <- app_assoc. cbn [app].
        now destruct (c0 !! pos).
      * now rewrite lookup_insert_ne by exact Hne.
Qed.

Lemma insert_by_score_head (x : nat * Path) (l : list (nat * Path)) :
  head (insert_by_score x l)
  = match head l with
    | None => Some x
    | Some y => if (fst x <=? fst y)%nat then Some x else Some y
    end.
Proof.
  destruct l as [|y r]; simpl; [reflexivity|].
  now destruct (fst x <=? fst y)%nat.
Qed.

Lemma sorted_by_score_nil (l : list (nat * Path)) :
  head (sorted_by_score l) = None -> l = [].
Proof.
  destruct l as [|x r]; [reflexivity|]. simpl.
  rewrite insert_by_score_head.
  destruct (head (sorted_by_score r)) as [y|]; [|discriminate].
  destruct (fst x <=? fst y)%nat; discriminate.
Qed.

Lemma best_of_hits (files : list Path) (pos : Z) :
  match head (sorted_by_score (map tag (hits pos files))) with
  | None => hits pos files = []
  | Some x => exists pth, x = tag pth /\ first_best files pos pth
  end.
Proof.
  induction files as [|a r IH]; [reflexivity|].
  unfold hits in *. cbn [List.filter].
  destruct (has_pos pos a) eqn:Ha.
  - cbn [map sorted_by_score fold_right]. rewrite insert_by_score_head.
    fold (sorted_by_score (map tag (List.filter (has_pos pos) r))).
    apply has_pos_iff in Ha.
    destruct (head (sorted_by_score (map tag (List.filter (has_pos pos) r))))
      as [y|] eqn:Hh.
    + destruct IH as (pth & -> & before & after & Hr & Hp & Hb & Haf).
      cbn [tag fst]. destruct (Nat.leb_spec (score a) (score pth)) as [Hle|Hlt].
      * exists a. split; [reflexivity|]. exists [], r.
        split; [reflexivity|]. split; [exact Ha|].
        split; [intros y []|]. intros y Hy Hyp. subst r.
        apply in_app_or in Hy as [Hy|[<-|Hy]].
        -- specialize (Hb y Hy Hyp). lia.
        -- exact Hle.
        -- specialize (Haf y Hy Hyp). lia.
      * exists pth. split; [reflexivity|]. exists (a :: before), after.
        split; [now rewrite Hr|]. split; [exact Hp|].
        split; [|exact Haf]. intros y [<-|Hy] Hyp; [exact Hlt | now apply Hb].
    + exists a. split; [reflexivity|]. exists [], r.
      split; [reflexivity|]. split; [exact Ha|].
      split; [intros y []|]. intros y Hy Hyp.
      apply has_pos_iff in Hyp.
      assert (Hin : In y (List.filter (has_pos pos) r)).
      { apply filter_In. auto. }
      now rewrite IH in Hin.
  - destruct (head (sorted_by_score (map tag (List.filter (has_pos pos) r))))
      as [y|] eqn:Hh; [|exact IH].
    destruct IH as (pth & -> & before & after & Hr & Hp & Hb & Haf).
    exists pth. split; [reflexivity|]. exists (a :: before), after.
    split; [now rewrite Hr|]. split; [exact Hp|]. split; [|exact Haf].
    intros y [<-|Hy] Hyp; [|now apply Hb].
    apply has_pos_iff in Hyp. congruence.
Qed.

Lemma map_drawn_best (l : list (Z * list (nat * Path))) :
  (forall e, In e l -> snd e <> []) ->
  exists entries,
    map_drawn best l = Drawn entries
    /\ forall pos,
         (list_to_map entries : gmap Z Path) !! pos
         = (list_to_map l : gmap Z (list (nat * Path))) !! pos ≫= pick.
Proof.
  induction l as [|[k lst] r IH]; intros Hne.
  - exists []. split; [reflexivity|]. intros pos. simpl.
    now rewrite !lookup_empty.
  - destruct IH as (entries & Hr & Hlook); [intros e He; apply Hne; now right|].
    assert (Hl : lst <> []) by (apply (Hne (k, lst)); now left).
    destruct (head (sorted_by_score lst)) as [x|] eqn:Hh;
      [|now apply sorted_by_score_nil in Hh].
    exists ((k, snd x) :: entries). split.
    + cbn [map_drawn]. unfold mbind, drawn_bind. unfold best at 1.
      unfold mbind, drawn_bind, at_index. cbn [snd fst].
      rewrite <- head_lookup, Hh. rewrite Hr. reflexivity.
    + intros pos. cbn [list_to_map foldr fst snd].
      destruct (decide (k = pos)) as [->|Hk].
      * rewrite !lookup_insert_eq. simpl. unfold pick. now rewrite Hh.
      * rewrite !lookup_insert_ne by exact Hk. apply Hlook.
Qed.

Lemma choose_ha_pngs_spec (files : list Path) :
  exists chosen,
    choose_ha_pngs files = Drawn chosen
    /\ forall pos,
         chosen !! pos = match hits pos files with
                         | [] => None
                         | hs => pick (map tag hs)
                         end.
Proof.
  unfold choose_ha_pngs.
  destruct (candidates_loop_spec files ∅) as (c & Hc & Hlook).
  rewrite Hc. unfold mbind at 1. unfold drawn_bind at 1. cbn [lift_result].
  destruct (map_drawn_best (map_to_list c)) as (entries & He & Hent).
  { intros [k lst] He%list_elem_of_In%elem_of_map_to_list.
    rewrite Hlook, lookup_empty in He. simpl.
    destruct (hits k files) as [|h hs]; [discriminate|].
    injection He as <-. discriminate. }
  rewrite He. exists (list_to_map entries). split; [reflexivity|].
  intros pos. rewrite Hent, list_to_map_to_list, Hlook, lookup_empty.
  destruct (hits pos files) as [|h hs]; reflexivity.
Qed.

(** X24. [choose_ha_pngs] never raises. A position has a picture exactly
    when some file name gives that position, and the picture chosen is
    the best-ranked of them (purple, then red, blue, green, then any
    other), the first one in the order of the files among equally
    ranked. *)
Theorem choose_ha_pngs_first_best (files : list Path) :
  exists chosen,
    choose_ha_pngs files = Drawn chosen
    /\ (forall pos,
          chosen !! pos = None
          <-> forall pth, In pth files ->
                extract_pos (name pth) <> Ok (Some pos))
    /\ (forall pos pth,
          chosen !! pos = Some pth -> first_best files pos pth).
Proof.
  destruct (choose_ha_pngs_spec files) as (chosen & Hch & Hlook).
  exists chosen. split; [exact Hch|].
  assert (Hpick : forall pos,
            match chosen !! pos with
            | None => hits pos files = []
            | Some pth => first_best files pos pth
            end).
  { intros pos. rewrite Hlook. pose proof (best_of_hits files pos) as Hb.
    destruct (hits pos files) as [|h hs] eqn:Hh; [reflexivity|].
    unfold pick.
    destruct (head (sorted_by_score (map tag (h :: hs)))) as [x|] eqn:Hx.
    - destruct Hb as (pth & -> & Hfb). exact Hfb.
    - discriminate. }
  split.
  - intros pos. specialize (Hpick pos). split.
    + intros Hnone. rewrite Hnone in Hpick. intros pth Hin Hp.
      apply has_pos_iff in Hp.
      assert (Hin' : In pth (hits pos files)) by (apply filter_In; auto).
      now rewrite Hpick in Hin'.
    + intros Hall. destruct (chosen !! pos) as [pth|]; [|reflexivity].
      destruct Hpick as (before & after & Hf & Hp & _).
      destruct (Hall pth); [|exact Hp].
      rewrite Hf. apply in_or_app. right. now left.
  - intros pos pth H. specialize (Hpick pos). now rewrite H in Hpick.
Qed.

Lemma choose_ha_pngs_first_best_witness :
  first_best SampleDeck.ha_files 160 (SampleDeck.png "HA_pos_160_Red.png").
Proof.
  destruct (choose_ha_pngs_first_best SampleDeck.ha_files)
    as (chosen & Hc & _ & H).
  apply H. vm_compute in Hc. injection Hc as <-. vm_compute. reflexivity.
Defined.

End DeckPictures.
(* ===================================================================== *)
(** ** The deck builder: slides *)
(* ===================================================================== *)

Section DeckSlides.
Import Deck.

Lemma insert_rev_In (x y : Z) (l : list Z) :
  In y (insert_rev x l) <-> y = x \/ In y l.
Proof.
  induction l as [|z r IH]; simpl; [intuition|].
  destruct (z <=? x); simpl; [intuition|]. rewrite IH. intuition.
Qed.

Lemma sorted_rev_In (y : Z) (l : list Z) : In y (sorted_rev l) <-> In y l.
Proof.
  induction l as [|x r IH]; simpl; [tauto|].
  rewrite insert_rev_In, IH. intuition.
Qed.

Lemma insert_rev_sorted (x : Z) (l : list Z) :
  StronglySorted Z.gt l -> ~ In x l -> StronglySorted Z.gt (insert_rev x l).
Proof.
  induction l as [|z r IH]; intros Hs Hx; simpl.
  - constructor; constructor.
  - apply StronglySorted_inv in Hs as [Hr Hz].
    destruct (Z.leb_spec z x) as [Hle|Hgt].
    + assert (Hlt : z < x) by (assert (x <> z) by (intros ->; apply Hx; now left); lia).
      constructor; [constructor; assumption|].
      constructor; [lia|].
      rewrite List.Forall_forall in Hz |- *. intros y Hy.
      specialize (Hz y Hy). lia.
    + constructor.
      * apply IH; [exact Hr|]. intros Hin. apply Hx. now right.
      * rewrite List.Forall_forall in Hz |- *. intros y Hy.
        apply insert_rev_In in Hy as [->|Hy]; [lia | now apply Hz].
Qed.

Lemma sorted_rev_sorted (l : list Z) :
  List.NoDup l -> StronglySorted Z.gt (sorted_rev l).
Proof.
  induction 1 as [|x r Hx Hr IH]; simpl; [constructor|].
  apply insert_rev_sorted; [exact IH|]. now rewrite sorted_rev_In.
Qed.

Lemma positions_spec (hist_pngs ha_pngs : gmap Z Path) :
  StronglySorted Z.gt (positions hist_pngs ha_pngs)
  /\ forall pos, In pos (positions hist_pngs ha_pngs)
                 <-> is_Some (hist_pngs !! pos) /\ is_Some (ha_pngs !! pos).
Proof.
  unfold positions. split.
  - apply sorted_rev_sorted, NoDup_ListNoDup, NoDup_elements.
  - intros pos. rewrite sorted_rev_In, <- list_elem_of_In, elem_of_elements,
      elem_of_intersection, !elem_of_dom. reflexivity.
Qed.

Lemma map_result_Forall2 {A B} (f : A -> result B) (l : list A) (ys : list B) :
  map_result f l = Ok ys -> List.Forall2 (fun x y => f x = Ok y) l ys.
Proof.
  revert ys. induction l as [|x l IH]; intros ys; simpl.
  - intros H. injection H as <-. constructor.
  - unfold_result. destruct (f x) as [y|e] eqn:Hx; simpl; [|discriminate].
    destruct (map_result f l) as [ys'|e]; simpl; [|discriminate].
    intros H. injection H as <-. constructor; [exact Hx | now apply IH].
Qed.

Lemma build_deck_spec (hist_pngs ha_pngs : gmap Z Path) :
  exists slides,
    build_deck hist_pngs ha_pngs = Ok slides
    /\ map slide_pos slides = positions hist_pngs ha_pngs
    /\ forall s, In s slides ->
         hist_pngs !! slide_pos s = Some (pic_hist s)
         /\ ha_pngs !! slide_pos s = Some (pic_ha s).
Proof.
  unfold build_deck.
  destruct (positions_spec hist_pngs ha_pngs) as [_ Hin].
  set (f := fun pos => h ← getitem hist_pngs pos; a ← getitem ha_pngs pos;
                       Ok {| slide_pos := pos; pic_hist := h; pic_ha := a |}).
  assert (Hf : forall pos s, f pos = Ok s ->
            slide_pos s = pos /\ hist_pngs !! pos = Some (pic_hist s)
            /\ ha_pngs !! pos = Some (pic_ha s)).
  { intros pos s. unfold f, getitem. unfold_result.
    destruct (hist_pngs !! pos) as [h|]; simpl; [|discriminate].
    destruct (ha_pngs !! pos) as [a|]; simpl; [|discriminate].
    intros H. injection H as <-. auto. }
  destruct (proj2 (map_result_ok_iff f (positions hist_pngs ha_pngs)))
    as [slides Hs].
  { intros pos Hpos. apply Hin in Hpos as [[h Hh] [a Ha]].
    unfold f, getitem. unfold_result. rewrite Hh, Ha. simpl. eauto. }
  exists slides. split; [exact Hs|].
  apply map_result_Forall2 in Hs. clear Hin.
  remember (positions hist_pngs ha_pngs) as l eqn:Hl. clear Hl.
  induction Hs as [|pos s l ss Hps _ IH]; [split; [reflexivity | intros s []]|].
  destruct IH as [IH1 IH2]. apply Hf in Hps as (Hp & Hh & Ha). split.
  - simpl. now rewrite Hp, IH1.
  - intros s' [<-|Hs']; [rewrite Hp; auto | now apply IH2].
Qed.

(** X25. [build_deck] never meets a missing key: for any two
    dictionaries it makes one slide per position that both of them hold
    and none for any other, in strictly descending order of position,
    each slide with the histogram picture and the HA-head picture the
    dictionaries hold for its position. *)
Theorem build_deck_slides (hist_pngs ha_pngs : gmap Z Path) :
  exists slides,
    build_deck hist_pngs ha_pngs = Ok slides
    /\ StronglySorted Z.gt (map slide_pos slides)
    /\ (forall pos, In pos (map slide_pos slides)
                    <-> is_Some (hist_pngs !! pos) /\ is_Some (ha_pngs !! pos))
    /\ (forall s, In s slides ->
          hist_pngs !! slide_pos s = Some (pic_hist s)
          /\ ha_pngs !! slide_pos s = Some (pic_ha s)).
Proof.
  destruct (build_deck_spec hist_pngs ha_pngs) as (slides & H1 & H2 & H3).
  destruct (positions_spec hist_pngs ha_pngs) as [Hs Hin].
  exists slides. rewrite H2. auto.
Qed.

(** X26. From the files found, [main] (unpacking, picture conversion
    and the writing of the deck aside) makes one slide for every
    position that both a histogram name and an HA-head name give, and no
    other slide; the slides come in strictly descending order of
    position, so no position has two slides; positions lie between 0 and
    999; the histogram picture of a slide is the converted file named
    after the position, and its HA-head picture is the best-ranked,
    first-found one of that position. None of its look-ups fails. *)
Theorem deck_of_files (hist_files ha_files : list Path) (hist_png_dir : string) :
  exists slides,
    main hist_files ha_files hist_png_dir = Drawn slides
    /\ StronglySorted Z.gt (map slide_pos slides)
    /\ (forall pos,
          In pos (map slide_pos slides)
          <-> (exists pth, In pth hist_files
                           /\ extract_pos (name pth) = Ok (Some pos))
              /\ (exists pth, In pth ha_files
                              /\ extract_pos (name pth) = Ok (Some pos)))
    /\ (forall s, In s slides ->
          0 <= slide_pos s <= 999
          /\ pic_hist s = out_png hist_png_dir (slide_pos s)
          /\ first_best ha_files (slide_pos s) (pic_ha s)).
Proof.
  unfold main.
  destruct (convert_loop_spec hist_png_dir hist_files ∅) as (hist & Hh & Hhl).
  destruct (choose_ha_pngs_spec ha_files) as (ha & Ha & Hal).
  destruct (build_deck_spec hist ha) as (slides & Hb & Hpos & Hpics).
  destruct (positions_spec hist ha) as [Hsorted Hin].
  unfold convert_svgs_to_pngs. rewrite Hh.
  unfold mbind at 1. unfold drawn_bind at 1. cbn [lift_result].
  rewrite Ha. unfold mbind, drawn_bind. rewrite Hb. cbn [lift_result].
  exists slides. split; [reflexivity|]. rewrite Hpos.
  assert (Hhist : forall pos,
            is_Some (hist !! pos)
            <-> exists pth, In pth hist_files
                            /\ extract_pos (name pth) = Ok (Some pos)).
  { intros pos. rewrite Hhl, lookup_empty.
    destruct (existsb (has_pos pos) hist_files) eqn:E.
    - apply existsb_exists in E as (pth & Hin' & Hp%has_pos_iff).
      split; eauto.
    - split; [intros [x Hx]; discriminate|].
      intros (pth & Hin' & Hp).
      now destruct (proj1 (exists_has_pos pos hist_files) E pth Hin'). }
  assert (Hha : forall pos,
            is_Some (ha !! pos)
            <-> exists pth, In pth ha_files
                            /\ extract_pos (name pth) = Ok (Some pos)).
  { intros pos. rewrite Hal. split.
    - intros [x Hx]. destruct (hits pos ha_files) as [|h hs] eqn:E;
        [discriminate|].
      exists h. assert (Hi : In h (hits pos ha_files)) by (rewrite E; now left).
      apply filter_In in Hi as [Hi Hp]. apply has_pos_iff in Hp. auto.
    - intros (pth & Hin' & Hp%has_pos_iff).
      assert (Hi : In pth (hits pos ha_files)) by (apply filter_In; auto).
      pose proof (best_of_hits ha_files pos) as Hb'.
      destruct (hits pos ha_files) as [|h hs] eqn:E; [destruct Hi|].
      unfold pick.
      destruct (head (sorted_by_score (map tag (h :: hs)))) as [x|];
        [simpl; eauto | discriminate]. }
  split; [exact Hsorted|]. split.
  - intros pos. rewrite Hin, Hhist, Hha. reflexivity.
  - intros s Hs. destruct (Hpics s Hs) as [H1 H2].
    rewrite Hhl, lookup_empty in H1.
    destruct (existsb (has_pos (slide_pos s)) hist_files) eqn:E;
      [|discriminate].
    injection H1 as H1. apply existsb_exists in E as (src & _ & Hp%has_pos_iff).
    split.
    { destruct (extract_pos_spec (name src)) as [[_ H]|[_ (p & H & Hr)]];
        rewrite H in Hp; [discriminate|]. injection Hp as <-. exact Hr. }
    split; [now rewrite <- H1|].
    rewrite Hal in H2. pose proof (best_of_hits ha_files (slide_pos s)) as Hb'.
    destruct (hits (slide_pos s) ha_files) as [|h hs] eqn:Eh; [discriminate|].
    unfold pick in H2.
    destruct (head (sorted_by_score (map tag (h :: hs)))) as [x|];
      [|discriminate].
    destruct Hb' as (pth & -> & Hfb). simpl in H2. injection H2 as <-.
    exact Hfb.
Qed.

Lemma deck_of_files_witness :
  exists slides,
    main SampleDeck.hist_files SampleDeck.ha_files "hist_png" = Drawn slides
    /\ In 160 (map slide_pos slides).
Proof.
  destruct (deck_of_files SampleDeck.hist_files SampleDeck.ha_files "hist_png")
    as (slides & H1 & _ & H3 & _).
  exists slides. split; [exact H1|]. apply H3. split.
  - exists (SampleDeck.svg "pos_-160.svg"). split; [simpl; auto | reflexivity].
  - exists (SampleDeck.png "HA_pos_160_green.png").
    split; [simpl; auto | reflexivity].
Defined.

End DeckSlides.
